(** * WP Featured Image AI: generation orchestration and raster editing

    A shallow embedding of
      - [src/services/geminiService.ts] (retry/backoff, the 4-way fan-out,
        response validation, topic suggestions),
      - [src/utils/imageUtils.ts] (data-URL parsing, crop, resize geometry),
      - the [ImageEditor] component (paint history with undo/redo, the
        generation handler; files and cropping, persistence in
        [localStorage], strokes on the paint canvas, export),
    followed by the properties of the specification that concern them and
    by further properties of the code.

    Conventions of the embedding.
      - A JavaScript string is a [string]; one [ascii] stands for one code
        unit in the range 0..255.
      - A promise is represented by the way it settles ([Settled]); an
        asynchronous operation is a function of the state of the outside
        world that also reports its events ([Async]).
      - Every value thrown by the code or by the upstream client is an
        [Error]-like object ([JsError]); objects are truthy.
      - A number is the rational it denotes ([Q]); where the code computes
        with fractions (the resize geometry, the paint coordinates, the
        brush opacity) each operation rounds to binary64 ([Binary64]).
      - [localStorage] is represented by what the component reads back
        under its two keys; whether a write fits the quota is a parameter.
      - An effect or a handler that awaits is represented by the state once
        its promises have settled, with what it did in order. *)

From Stdlib Require Import ZArith QArith Qround Qabs Qpower Lqa SpecFloat.
From Stdlib Require Import String Ascii DecimalString.
From Stdlib Require Import List Bool Lia.
From stdpp Require Import base option list sorting strings.

Local Open Scope Z_scope.

(* ===================================================================== *)
(** ** JavaScript string operations used by the sources                   *)
(* ===================================================================== *)

Module JsString.

(** [s] minus a leading [p], when [s] starts with [p]. *)
Fixpoint stripPrefix (p s : string) : option string :=
  match p, s with
  | EmptyString, _ => Some s
  | String a p', String b s' =>
      if Ascii.eqb a b then stripPrefix p' s' else None
  | String _ _, EmptyString => None
  end.

Definition startsWith (s p : string) : bool :=
  match stripPrefix p s with Some _ => true | None => false end.

(** [String.prototype.includes]. *)
Fixpoint includes (s needle : string) : bool :=
  startsWith s needle ||
  match s with
  | EmptyString => false
  | String _ s' => includes s' needle
  end.

Definition isEmpty (s : string) : bool :=
  match s with EmptyString => true | String _ _ => false end.

(** White space and line terminators removed by [String.prototype.trim],
    among the code units 0..255: TAB, LF, VT, FF, CR, SP, NBSP. *)
Definition isWhiteSpace (c : ascii) : bool :=
  let n := N_of_ascii c in
  ((9 <=? n) && (n <=? 13) || (n =? 32) || (n =? 160))%N.

Fixpoint trimStart (s : string) : string :=
  match s with
  | EmptyString => EmptyString
  | String c s' => if isWhiteSpace c then trimStart s' else s
  end.

Fixpoint trimEnd (s : string) : string :=
  match s with
  | EmptyString => EmptyString
  | String c s' =>
      let t := trimEnd s' in
      if isWhiteSpace c && isEmpty t then EmptyString else String c t
  end.

Definition trim (s : string) : string := trimEnd (trimStart s).

Fixpoint allWhiteSpace (s : string) : bool :=
  match s with
  | EmptyString => true
  | String c s' => isWhiteSpace c && allWhiteSpace s'
  end.

(** [s.replace(/```json|```/g, '')]: scanning left to right, at each
    position the first alternative that matches is removed.  [skip] counts
    the code units of the current match still to be dropped. *)
Fixpoint removeFences (skip : nat) (s : string) : string :=
  match s with
  | EmptyString => EmptyString
  | String c s' =>
      match skip with
      | S k => removeFences k s'
      | O =>
          if startsWith s "```json" then removeFences 6 s'
          else if startsWith s "```" then removeFences 2 s'
          else String c (removeFences 0 s')
      end
  end.

(** Line terminators, which [.] does not match (code units 0..255). *)
Definition isLineTerminator (c : ascii) : bool :=
  let n := N_of_ascii c in ((n =? 10) || (n =? 13))%N.

Fixpoint noLineTerminator (s : string) : bool :=
  match s with
  | EmptyString => true
  | String c s' => negb (isLineTerminator c) && noLineTerminator s'
  end.

(** [(.+);base64,(.+)$] against [s], with the backtracking order of the
    regular-expression engine: the first group is greedy, so a longer
    first group is tried before a shorter one. *)
Fixpoint matchGroups (s : string) : option (string * string) :=
  match s with
  | EmptyString => None
  | String c s' =>
      if isLineTerminator c then None
      else
        match matchGroups s' with
        | Some (g1, g2) => Some (String c g1, g2)
        | None =>
            match stripPrefix ";base64," s' with
            | Some g2 =>
                if negb (isEmpty g2) && noLineTerminator g2
                then Some (String c EmptyString, g2)
                else None
            | None => None
            end
        end
  end.

(** [s.match(/^data:(.+);base64,(.+)$/)]: the two captured groups, or
    [None] for [null]. *)
Definition matchDataUrl (s : string) : option (string * string) :=
  match stripPrefix "data:" s with
  | Some rest => matchGroups rest
  | None => None
  end.

End JsString.


(* ===================================================================== *)
(** ** Promises, errors and traces                                        *)
(* ===================================================================== *)

(** The fields of a thrown value that the code inspects.  A field that is
    absent, or that holds something other than a number (a string for
    [message]), is [None]. *)
Record JsError : Type := mkJsError {
  status : option Z;            (* error.status *)
  code : option Z;              (* error.code *)
  response_status : option Z;   (* error.response.status *)
  message : option string       (* error.message *)
}.

(** [new Error(msg)]. *)
Definition Error (msg : string) : JsError :=
  {| status := None; code := None; response_status := None;
     message := Some msg |}.

(** How a promise of an [A] settles ([PromiseSettledResult]). *)
Inductive Settled (A : Type) : Type :=
  | Fulfilled (value : A)
  | Rejected (reason : JsError).
Arguments Fulfilled {A} value.
Arguments Rejected {A} reason.

Definition isFulfilled {A} (r : Settled A) : bool :=
  match r with Fulfilled _ => true | Rejected _ => false end.

Definition isRejected {A} (r : Settled A) : bool :=
  match r with Fulfilled _ => false | Rejected _ => true end.

(** [r.value], defined on fulfilled results. *)
Definition value {A} (r : Settled A) : option A :=
  match r with Fulfilled v => Some v | Rejected _ => None end.

(** One upstream [generateContent] call, with the time it took in ms. *)
Inductive UpstreamEvent : Type :=
  | EvCall (latency : Z).

(** What [retryOperation] does, in order: it runs [operation()], whose own
    events are [inner]; it warns on the console; it waits [ms]. *)
Inductive RetryEvent (E : Type) : Type :=
  | EvInvoke (inner : list E)
  | EvWarn (delay : Z) (attemptsLeft : nat)
  | EvSleep (ms : Z).
Arguments EvInvoke {E} inner.
Arguments EvWarn {E} delay attemptsLeft.
Arguments EvSleep {E} ms.

(** An asynchronous operation over a world [W] with events [E]: how it
    settles, the world it leaves, and its events in order. *)
Definition Async (E W A : Type) : Type := W -> Settled A * W * list E.

(** How often the wrapped operation was run. *)
Definition invocations {E} (tr : list (RetryEvent E)) : nat :=
  length (List.filter
            (fun ev => match ev with EvInvoke _ => true | _ => false end) tr).

(** The events of the wrapped operation, over all its runs. *)
Definition innerEvents {E} (tr : list (RetryEvent E)) : list E :=
  mjoin (omap (fun ev => match ev with EvInvoke l => Some l | _ => None end)
           tr).

(** The delays waited, in order. *)
Definition sleeps {E} (tr : list (RetryEvent E)) : list Z :=
  omap (fun ev => match ev with EvSleep d => Some d | _ => None end) tr.

(** Time from start to settlement, in ms. *)
Definition elapsed (tr : list (RetryEvent UpstreamEvent)) : Z :=
  foldr Z.add 0 ((fun ev => match ev with EvCall l => l end) <$> innerEvents tr)
  + foldr Z.add 0 (sleeps tr).

(** [Promise.allSettled(promises)].  [promises] lists how each input promise
    settles; [order] lists their indices in the order of completion.  Each
    completion stores its result at the promise's own index; the combined
    promise resolves once every slot is filled, and stays pending ([None])
    otherwise. *)
Definition settle {A} (promises : list (Settled A))
    (slots : list (option (Settled A))) (i : nat) : list (option (Settled A)) :=
  match promises !! i with
  | Some r => <[i := Some r]> slots
  | None => slots
  end.

Definition allSettled {A} (promises : list (Settled A)) (order : list nat)
    : option (list (Settled A)) :=
  mapM id (foldl (settle promises) (replicate (length promises) None) order).

(** [a] completes no later than [b]; each is a completion time paired with
    the index of its promise. *)
Definition completesBefore (a b : Z * nat) : Prop := fst a <= fst b.

#[export] Instance completesBefore_dec : RelDecision completesBefore.
Proof. intros a b. unfold completesBefore. apply _. Defined.

(** The indices [0 .. n-1] of promises that complete at [times], sorted by
    completion time. *)
Definition completionOrder (times : list Z) : list nat :=
  snd <$> merge_sort completesBefore (zip times (seq 0 (length times))).

(* ===================================================================== *)
(** ** types.ts                                                           *)
(* ===================================================================== *)

Record ImageData : Type := mkImageData {
  data : string;       (* base64 string without prefix *)
  mimeType : string;
  url : string         (* full data URL for display *)
}.

Inductive EditorStatus : Type := IDLE | PROCESSING | SUCCESS | ERROR.

(** A value produced by [JSON.parse]; a number keeps its literal. *)
#[local] Unset Elimination Schemes.
Inductive Json : Type :=
  | JNull
  | JBool (b : bool)
  | JNumber (literal : string)
  | JString (s : string)
  | JArray (items : list Json)
  | JObject (fields : list (string * Json)).
#[local] Set Elimination Schemes.

(* ===================================================================== *)
(** ** services/geminiService.ts                                          *)
(* ===================================================================== *)

Module GeminiService.

(** The parts of the upstream client's request and response types that
    the code reads.  Inline data carries its payload and, optionally, its
    media type. *)
Record Blob : Type := mkBlob {
  blob_mimeType : option string;
  blob_data : string
}.

Record Part : Type := mkPart {
  inlineData : option Blob;
  text : option string
}.

Record Content : Type := mkContent { parts : option (list Part) }.

Record Candidate : Type := mkCandidate { content : option Content }.

Record GenerateContentResponse : Type := mkResponse {
  candidates : option (list Candidate);
  response_text : option string        (* the [text] accessor *)
}.

(** [v === 429]. *)
Definition is429 (v : option Z) : bool :=
  match v with Some n => n =? 429 | None => false end.

(** [error?.message?.includes(needle)]. *)
Definition messageIncludes (error : JsError) (needle : string) : bool :=
  match message error with
  | Some m => JsString.includes m needle
  | None => false
  end.

Definition isQuotaError (error : JsError) : bool :=
  is429 (status error) ||
  is429 (code error) ||
  is429 (response_status error) ||
  messageIncludes error "429" ||
  messageIncludes error "RESOURCE_EXHAUSTED" ||
  messageIncludes error "quota".

Definition usageLimitError : JsError :=
  Error "API Usage Limit Exceeded. The system is busy. Please try again in a moment.".

(** Helper for exponential backoff retry logic.  [maxRetries] is a
    natural number: the callers pass 2 (the default) and 1. *)
Fixpoint retryOperation {E W T : Type} (operation : Async E W T)
    (maxRetries : nat) (delay : Z) (w : W)
    : Settled T * W * list (RetryEvent E) :=
  let '(r, w1, inner) := operation w in
  match r with
  | Fulfilled v => (Fulfilled v, w1, [EvInvoke inner])
  | Rejected error =>
      if isQuotaError error then
        match maxRetries with
        | S m =>
            let '(r', w2, tr) :=
              retryOperation operation m (delay * 2) w1 in
            (r', w2,
             EvInvoke inner :: EvWarn delay maxRetries :: EvSleep delay :: tr)
        | O => (Rejected usageLimitError, w1, [EvInvoke inner])
        end
      else (Rejected error, w1, [EvInvoke inner])
  end.

(** The default values of [maxRetries] and [delay]. *)
Definition defaultMaxRetries : nat := 2.
Definition defaultDelay : Z := 2000.

(** [x || 'image/png']. *)
Definition orImagePng (x : option string) : string :=
  match x with
  | Some m => if JsString.isEmpty m then "image/png" else m
  | None => "image/png"
  end.

(** The validation and conversion of a response (lines 46-70). *)
Definition imageOfResponse (response : GenerateContentResponse)
    : Settled ImageData :=
  match candidates response with
  | None | Some [] => Rejected (Error "No candidates returned from Gemini.")
  | Some (first :: _) =>
      match match content first with Some c => parts c | None => None end with
      | None | Some [] => Rejected (Error "No content parts returned.")
      | Some partsResponse =>
          match List.find (fun p => bool_decide (is_Some (inlineData p)))
                  partsResponse with
          | Some {| inlineData := Some blob |} =>
              let mimeType := orImagePng (blob_mimeType blob) in
              let base64Data := blob_data blob in
              let url := "data:" +:+ mimeType +:+ ";base64," +:+ base64Data in
              Fulfilled {| mimeType := mimeType; data := base64Data; url := url |}
          | _ => Rejected (Error "No image data found in response.")
          end
      end
  end.

(** [ai parts] stands for
    [ai.models.generateContent({model, contents: {parts}, config})]. *)
Definition generateSingleRequest {W : Type}
    (ai : list Part -> Async UpstreamEvent W GenerateContentResponse)
    (parts : list Part) : Async UpstreamEvent W ImageData :=
  fun w =>
    let '(r, w1, tr) := ai parts w in
    match r with
    | Rejected e => (Rejected e, w1, tr)
    | Fulfilled response => (imageOfResponse response, w1, tr)
    end.

(** A line feed and a double quote, as strings. *)
Definition nl : string := String (ascii_of_nat 10) EmptyString.
Definition dq : string := String (ascii_of_nat 34) EmptyString.

(** The style rules shared by the two prompts (lines 83-100). *)
Definition commonRules : string :=
  nl +:+
  "    You are a senior Visual Designer specialized in CORPORATE & WEB GRAPHICS." +:+ nl +:+
  "    " +:+ nl +:+
  "    Task: Create a professional WordPress blog featured image." +:+ nl +:+
  "    Style rules:" +:+ nl +:+
  "    - Clean, modern, and high-clarity professional aesthetic." +:+ nl +:+
  "    - Strong focal point with a balanced composition." +:+ nl +:+
  "    - Leave some " +:+ dq +:+ "white space" +:+ dq +:+ " or " +:+ dq +:+ "copy space" +:+ dq +:+ " for potential text overlays (like a blog title)." +:+ nl +:+
  "    - Avoid cluttered backgrounds or distracting small elements." +:+ nl +:+
  "    - Use sophisticated color palettes appropriate for professional blogs (Tech, Finance, Lifestyle, Business)." +:+ nl +:+
  "    - NO music album art aesthetics. NO lo-fi noise or intentional distortion." +:+ nl +:+
  "    - NO watermarks, logos, or UI elements." +:+ nl +:+
  nl +:+
  "    Technical:" +:+ nl +:+
  "    - Output MUST be 16:9 aspect ratio." +:+ nl +:+
  "    - Crystal clear resolution, sharp details." +:+ nl +:+
  "    - Realism or high-quality professional digital art style only." +:+ nl +:+
  "  ".

(** The prompt for a base image (lines 112-118, before [trim]). *)
Definition transformTemplate (prompt : string) : string :=
  nl +:+
  "      " +:+ commonRules +:+ nl +:+
  "      " +:+ nl +:+
  "      TASK: Transform this base image into a professional WordPress featured image/banner based on: " +:+ prompt +:+ "." +:+ nl +:+
  "      - Retain the core subject but enhance lighting, environment, and composition for a web banner." +:+ nl +:+
  "      - Ensure the final result is 16:9." +:+ nl +:+
  "      ".

(** The prompt without a base image (lines 120-125, before [trim]). *)
Definition generateTemplate (prompt : string) : string :=
  nl +:+
  "      " +:+ commonRules +:+ nl +:+
  "      " +:+ nl +:+
  "      TASK: Generate a brand-new professional 16:9 web banner for a blog post about: " +:+ prompt +:+ "." +:+ nl +:+
  "      - Focus on premium stock-photo quality or clean corporate 3D/flat illustration." +:+ nl +:+
  "      ".

(** What one run of [generateOrEditImage] does: how its promise settles,
    and for every attempt issued, in index order, how that attempt settles
    and its trace. *)
Record Run : Type := mkRun {
  outcome : Settled (list ImageData);
  attempts : list (Settled ImageData * list (RetryEvent UpstreamEvent))
}.

Section Orchestrator.

(** [process.env.API_KEY || '']. *)
Variable API_KEY : string.

(** The upstream service: its answer to call number [n] of attempt [i]
    for a request, and the time that call takes in ms. *)
Variable upstream :
  nat -> nat -> list Part -> Settled GenerateContentResponse * Z.

(** The client as seen by attempt [i]; the world of an attempt is the
    number of calls it has made. *)
Definition client (i : nat)
    : list Part -> Async UpstreamEvent nat GenerateContentResponse :=
  fun parts n =>
    let '(r, latency) := upstream i n parts in
    (r, S n, [EvCall latency]).

Definition requestParts (prompt : string) (originalImage : option ImageData)
    : list Part :=
  match originalImage with
  | Some img =>
      [ {| inlineData :=
             Some {| blob_data := data img;
                     blob_mimeType := Some (mimeType img) |};
           text := None |};
        {| inlineData := None;
           text := Some (JsString.trim (transformTemplate prompt)) |} ]
  | None =>
      [ {| inlineData := None;
           text := Some (JsString.trim (generateTemplate prompt)) |} ]
  end.

(** The four requests of line 130, in index order. *)
Definition requests (parts : list Part)
    : list (Settled ImageData * nat * list (RetryEvent UpstreamEvent)) :=
  (fun i =>
     retryOperation (generateSingleRequest (client i) parts)
       defaultMaxRetries defaultDelay 0%nat) <$> seq 0 4.

(** [None]: the returned promise never settles. *)
Definition generateOrEditImage (prompt : string)
    (originalImage : option ImageData) : option Run :=
  if JsString.isEmpty API_KEY then
    Some {| outcome :=
              Rejected (Error "API Key is missing in environment variables.");
            attempts := [] |}
  else
    let parts := requestParts prompt originalImage in
    let reqs := requests parts in
    let promises := (fun q => q.1.1) <$> reqs in
    let order := completionOrder ((fun q => elapsed q.2) <$> reqs) in
    results ← allSettled promises order;
    let successfulImages := omap value (List.filter isFulfilled results) in
    Some {| outcome :=
              if (length successfulImages =? 0)%nat then
                match List.find isRejected results with
                | Some (Rejected reason) => Rejected reason
                | _ => Rejected (Error "Generation failed.")
                end
              else Fulfilled successfulImages;
            attempts := (fun q => (q.1.1, q.2)) <$> reqs |}.

End Orchestrator.

Definition staticSuggestions : list Json :=
  [ JString "Future of AI in business";
    JString "Modern minimalist home office workspace";
    JString "Sustainable energy and green technology";
    JString "Cryptocurrency and global finance trends";
    JString "Healthy lifestyle and wellness for professionals" ].

Definition suggestionInstruction : string :=
  "Analyze this image and suggest 3 professional blog topics it could illustrate as a featured image. Return ONLY a JSON array of strings. Example: ["
  +:+ dq +:+ "Remote work productivity" +:+ dq +:+ ", "
  +:+ dq +:+ "Cybersecurity basics" +:+ dq +:+ "]".

(** The request of the suggestion call: the image, then the instruction. *)
Definition suggestionParts (originalImage : ImageData) : list Part :=
  [ {| inlineData :=
         Some {| blob_data := data originalImage;
                 blob_mimeType := Some (mimeType originalImage) |};
       text := None |};
    {| inlineData := None; text := Some suggestionInstruction |} ].

Section Suggestions.

Variable API_KEY : string.

(** [JSON.parse]; [None] when it throws. *)
Variable JSON_parse : string -> option Json.

Context {W : Type}.

(** [ai parts] stands for the [generateContent] call on the text model. *)
Variable ai : list Part -> Async UpstreamEvent W GenerateContentResponse.

(** The operation passed to [retryOperation] (lines 165-200). *)
Definition suggestionOperation (originalImage : ImageData)
    : Async UpstreamEvent W (list Json) :=
  fun w =>
    let '(r, w1, tr) := ai (suggestionParts originalImage) w in
    match r with
    | Rejected error => (Fulfilled [], w1, tr)
    | Fulfilled response =>
        match response_text response with
        | None => (Fulfilled [], w1, tr)
        | Some text =>
            if JsString.isEmpty text then (Fulfilled [], w1, tr)
            else
              let cleanedText :=
                JsString.trim (JsString.removeFences 0 text) in
              match JSON_parse cleanedText with
              | Some (JArray parsed) => (Fulfilled (take 3 parsed), w1, tr)
              | Some _ => (Fulfilled [], w1, tr)
              | None => (Fulfilled [], w1, tr)
              end
        end
    end.

Definition generateEditSuggestions (originalImage : option ImageData)
    : Async (RetryEvent UpstreamEvent) W (list Json) :=
  fun w =>
    if JsString.isEmpty API_KEY then (Fulfilled [], w, [])
    else
      match originalImage with
      | None => (Fulfilled staticSuggestions, w, [])
      | Some img => retryOperation (suggestionOperation img) 1 1000 w
      end.

End Suggestions.

End GeminiService.

(* ===================================================================== *)
(** ** Numbers                                                             *)
(* ===================================================================== *)

(** The arithmetic of JavaScript numbers, where the code computes with
    fractions.  A finite number is the rational it denotes, and an
    operation returns its exact result rounded to the nearest binary64
    value, ties to even (IEEE 754).  Outside the model: a result that is
    not finite (division by zero, overflow) or that lies below the normal
    range (underflow); computations on pixel dimensions produce neither. *)
Module Binary64.

Local Open Scope Q_scope.

(** The exponent of a positive number [x]: the [e] with
    [2 ^ e <= x < 2 ^ (e + 1)]. *)
Definition exponent (x : Q) : Z :=
  let k := (Z.log2 (Qnum x) - Z.log2 (Zpos (Qden x)))%Z in
  if Qlt_le_dec x (2 ^ k) then (k - 1)%Z else k.

(** The nearest integer, ties to even. *)
Definition nearestEven (s : Q) : Z :=
  let f := Qfloor s in
  match Qcompare (s - inject_Z f) (1 # 2) with
  | Lt => f
  | Gt => (f + 1)%Z
  | Eq => if Z.even f then f else (f + 1)%Z
  end.

(** The binary64 value nearest to a positive [x]: a significand of 53 bits
    at the exponent of [x]. *)
Definition roundPositive (x : Q) : Q :=
  let e := exponent x in
  Qred (inject_Z (nearestEven (x * 2 ^ (52 - e))) * 2 ^ (e - 52)).

Definition round (x : Q) : Q :=
  match Qcompare x 0 with
  | Eq => 0
  | Gt => roundPositive x
  | Lt => - roundPositive (- x)
  end.

(** [a - b], [a * b] and [a / b] on numbers. *)
Definition sub (a b : Q) : Q := round (a - b).
Definition mul (a b : Q) : Q := round (a * b).
Definition div (a b : Q) : Q := round (a / b).

End Binary64.

(* ===================================================================== *)
(** ** utils/imageUtils.ts                                                *)
(* ===================================================================== *)

Module ImageUtils.

(** The [ImageData] of a data URL that matched
    [/^data:(.+);base64,(.+)$/]. *)
Definition imageDataOfUrl (dataUrl : string) : option ImageData :=
  match JsString.matchDataUrl dataUrl with
  | Some (g1, g2) => Some {| mimeType := g1; data := g2; url := dataUrl |}
  | None => None
  end.

(** [fileToImageData].  [read] is how [reader.readAsDataURL(file)] ends:
    with [reader.result], or with the error passed to [reader.onerror]. *)
Definition fileToImageData (read : Settled string) : Settled ImageData :=
  match read with
  | Fulfilled result =>
      match imageDataOfUrl result with
      | Some img => Fulfilled img
      | None => Rejected (Error "Invalid format")
      end
  | Rejected e => Rejected e
  end.

Record Area : Type := mkArea {
  area_width : Q; area_height : Q; area_x : Q; area_y : Q
}.

(** [getCroppedImg].  [image] is how [createImage(imageSrc)] settles,
    [hasContext] whether [getContext('2d')] is non-null, and [toDataURL]
    the encoding of the canvas after the crop has been drawn on it. *)
Definition getCroppedImg (image : Settled unit) (hasContext : bool)
    (toDataURL : Area -> string) (pixelCrop : Area) : Settled ImageData :=
  match image with
  | Rejected e => Rejected e
  | Fulfilled _ =>
      if negb hasContext then Rejected (Error "No context")
      else
        match imageDataOfUrl (toDataURL pixelCrop) with
        | Some img => Fulfilled img
        | None => Rejected (Error "Canvas failed")
        end
  end.

Inductive Fit : Type := cover | contain | stretch.

(** A rectangle of the canvas, in canvas coordinates. *)
Record Rect : Type := mkRect { rx : Q; ry : Q; rw : Q; rh : Q }.

Inductive CanvasOp : Type :=
  | FillRectWhite (r : Rect)     (* fillStyle = 'white'; fillRect(...) *)
  | DrawImage (r : Rect).        (* drawImage(img, x, y, w, h) *)

Local Open Scope Q_scope.

(** Where [resizeImage] draws the image (lines 91-124). *)
Definition drawRect (imgWidth imgHeight targetWidth targetHeight : Q)
    (fit : Fit) : Rect :=
  match fit with
  | stretch => mkRect 0 0 targetWidth targetHeight
  | _ =>
      let imgAspect := Binary64.div imgWidth imgHeight in
      let targetAspect := Binary64.div targetWidth targetHeight in
      match fit with
      | cover =>
          if Qlt_le_dec targetAspect imgAspect then
            let drawHeight := targetHeight in
            let drawWidth := Binary64.mul targetHeight imgAspect in
            mkRect (Binary64.div (Binary64.sub targetWidth drawWidth) 2) 0
              drawWidth drawHeight
          else
            let drawWidth := targetWidth in
            let drawHeight := Binary64.div targetWidth imgAspect in
            mkRect 0 (Binary64.div (Binary64.sub targetHeight drawHeight) 2)
              drawWidth drawHeight
      | _ =>
          if Qlt_le_dec targetAspect imgAspect then
            let drawWidth := targetWidth in
            let drawHeight := Binary64.div targetWidth imgAspect in
            mkRect 0 (Binary64.div (Binary64.sub targetHeight drawHeight) 2)
              drawWidth drawHeight
          else
            let drawHeight := targetHeight in
            let drawWidth := Binary64.mul targetHeight imgAspect in
            mkRect (Binary64.div (Binary64.sub targetWidth drawWidth) 2) 0
              drawWidth drawHeight
      end
  end.

(** [resizeImage]: the drawing operations on its canvas of [targetWidth]
    by [targetHeight], in order, after which the canvas is encoded.
    [image] is how the load of [url] ends, with [img.width] and
    [img.height]; [hasContext] whether [getContext('2d')] is non-null. *)
Definition resizeImage (image : Settled (Q * Q)) (hasContext : bool)
    (targetWidth targetHeight : Q) (fit : Fit) : Settled (list CanvasOp) :=
  match image with
  | Rejected e => Rejected e
  | Fulfilled (imgWidth, imgHeight) =>
      if negb hasContext then Rejected (Error "Canvas error")
      else
        Fulfilled
          [ FillRectWhite (mkRect 0 0 targetWidth targetHeight);
            DrawImage
              (drawRect imgWidth imgHeight targetWidth targetHeight fit) ]
  end.

End ImageUtils.

(* ===================================================================== *)
(** ** The ImageEditor component                                          *)
(* ===================================================================== *)

Module ImageEditor.

Import GeminiService ImageUtils.

(** The component state read or written by the handlers below;
    [isDrawing] is [isDrawingRef.current]. *)
Record EditorState : Type := mkEditorState {
  originalImage : option ImageData;
  generatedImages : list ImageData;
  selectedImageIndex : Z;
  prompt : string;
  status : EditorStatus;
  isCropping : bool;
  isPainting : bool;
  paintHistory : list string;
  historyStep : Z;
  isDrawing : bool
}.

Inductive UiEvent : Type :=
  | ToastError (msg : string)
  | ToastSuccess (msg : string)
  | RemovePaintSession     (* localStorage.removeItem(PAINT_SESSION_KEY) *)
  | CallGenerateOrEditImage (prompt : string) (img : option ImageData).

Definition setGeneration (s : EditorState) (st : EditorStatus)
    (imgs : list ImageData) (sel : Z) : EditorState :=
  {| originalImage := originalImage s; generatedImages := imgs;
     selectedImageIndex := sel; prompt := prompt s; status := st;
     isCropping := isCropping s; isPainting := isPainting s;
     paintHistory := paintHistory s; historyStep := historyStep s;
     isDrawing := isDrawing s |}.

Definition setPaint (s : EditorState) (painting : bool)
    (history : list string) (step : Z) (drawing : bool) : EditorState :=
  {| originalImage := originalImage s; generatedImages := generatedImages s;
     selectedImageIndex := selectedImageIndex s; prompt := prompt s;
     status := status s; isCropping := isCropping s; isPainting := painting;
     paintHistory := history; historyStep := step; isDrawing := drawing |}.

Definition setOriginalImage (s : EditorState) (img : option ImageData)
    : EditorState :=
  {| originalImage := img; generatedImages := generatedImages s;
     selectedImageIndex := selectedImageIndex s; prompt := prompt s;
     status := status s; isCropping := isCropping s;
     isPainting := isPainting s; paintHistory := paintHistory s;
     historyStep := historyStep s; isDrawing := isDrawing s |}.

Definition setPrompt (s : EditorState) (p : string) : EditorState :=
  {| originalImage := originalImage s; generatedImages := generatedImages s;
     selectedImageIndex := selectedImageIndex s; prompt := p;
     status := status s; isCropping := isCropping s;
     isPainting := isPainting s; paintHistory := paintHistory s;
     historyStep := historyStep s; isDrawing := isDrawing s |}.

(** [l.slice(0, e)] for an integer [e]. *)
Definition slice0 {A : Type} (l : list A) (e : Z) : list A :=
  let len := Z.of_nat (length l) in
  let final := if e <? 0 then Z.max (len + e) 0 else Z.min e len in
  take (Z.to_nat final) l.

(** Whether the paint canvas is rendered, so that [paintCanvasRef.current]
    is non-null (the conditions of the JSX around the canvas). *)
Definition canvasMounted (s : EditorState) : bool :=
  negb (isCropping s && bool_decide (is_Some (originalImage s))) &&
  isPainting s &&
  (bool_decide (is_Some (originalImage s)) ||
   (0 <? length (paintHistory s))%nat).

Definition startPainting (s : EditorState) : EditorState :=
  match originalImage s with
  | None => s
  | Some img =>
      if (length (paintHistory s) =? 0)%nat
      then setPaint s true [url img] 0 (isDrawing s)
      else setPaint s true (paintHistory s) (historyStep s) (isDrawing s)
  end.

Definition onPaintStart (s : EditorState) : EditorState :=
  if negb (isPainting s) then s
  else setPaint s (isPainting s) (paintHistory s) (historyStep s) true.

(** [newUrl] is [paintCanvasRef.current.toDataURL()]. *)
Definition onPaintEnd (newUrl : string) (s : EditorState) : EditorState :=
  if negb (isDrawing s) || negb (canvasMounted s) then s
  else
    let newHistory := slice0 (paintHistory s) (historyStep s + 1) ++ [newUrl] in
    setPaint s (isPainting s) newHistory
      (Z.of_nat (length newHistory) - 1) false.

(** [toDataURL mime] is [paintCanvasRef.current.toDataURL(mime)]. *)
Definition handleSavePaint (toDataURL : string -> string) (s : EditorState)
    : EditorState * list UiEvent :=
  if canvasMounted s then
    match originalImage s with
    | Some img =>
        match imageDataOfUrl (toDataURL (mimeType img)) with
        | Some img' =>
            (setPaint (setOriginalImage s (Some img')) false [] 0 (isDrawing s),
             [RemovePaintSession; ToastSuccess "Banner updated!"])
        | None => (s, [])
        end
    | None => (s, [])
    end
  else (s, []).

Definition handleCancelPaint (s : EditorState) : EditorState * list UiEvent :=
  (setPaint s false [] 0 (isDrawing s), [RemovePaintSession]).

Definition undoPaint (s : EditorState) : EditorState :=
  if 0 <? historyStep s
  then setPaint s (isPainting s) (paintHistory s) (historyStep s - 1)
         (isDrawing s)
  else s.

Definition redoPaint (s : EditorState) : EditorState :=
  if historyStep s <? Z.of_nat (length (paintHistory s)) - 1
  then setPaint s (isPainting s) (paintHistory s) (historyStep s + 1)
         (isDrawing s)
  else s.

(** The snapshot the history pointer designates:
    [paintHistory[historyStep]]. *)
Definition currentSnapshot (s : EditorState) : option string :=
  if historyStep s <? 0 then None
  else paintHistory s !! Z.to_nat (historyStep s).

(** One stroke: pointer down on the canvas, then pointer release with the
    canvas encoding to [newUrl]. *)
Definition commitStroke (newUrl : string) (s : EditorState) : EditorState :=
  onPaintEnd newUrl (onPaintStart s).

(** [`${n}`] for a natural number. *)
Definition numberToString (n : nat) : string :=
  NilEmpty.string_of_uint (Nat.to_uint n).

(** [`${error.message}`]. *)
Definition messageToString (e : JsError) : string :=
  match message e with Some m => m | None => "undefined" end.

Section Generate.

Variable API_KEY : string.
Variable upstream :
  nat -> nat -> list Part -> Settled GenerateContentResponse * Z.

(** The state once the handler has run to its end, and what it did.
    While the orchestrator's promise is pending the state is the one
    set before the call. *)
Definition handleGenerate (s : EditorState) : EditorState * list UiEvent :=
  if JsString.isEmpty (JsString.trim (prompt s)) then
    (s, [ToastError "Please enter a topic for your blog image"])
  else
    let s1 := setGeneration s PROCESSING [] (selectedImageIndex s) in
    let call := CallGenerateOrEditImage (prompt s) (originalImage s) in
    match generateOrEditImage API_KEY upstream (prompt s) (originalImage s) with
    | None => (s1, [call])
    | Some run =>
        match outcome run with
        | Fulfilled results =>
            (setGeneration s1 SUCCESS results 0,
             [call;
              ToastSuccess ("Generated " +:+ numberToString (length results)
                            +:+ " professional banners!")])
        | Rejected error =>
            (setGeneration s1 ERROR (generatedImages s1)
               (selectedImageIndex s1),
             [call;
              ToastError ("Generation failed: " +:+ messageToString error)])
        end
    end.

End Generate.

End ImageEditor.

(* ===================================================================== *)
(** ** The ImageEditor component: files, persistence, strokes, export     *)
(* ===================================================================== *)

Module EditorSession.

Import GeminiService ImageUtils ImageEditor.

(** *** The state *)

(** The component state read or written by the functions of this part:
    [core] holds the fields above, the other fields are the remaining
    [useState] cells they touch. *)
Record Editor : Type := mkEditor {
  core : EditorState;
  suggestions : list Json;
  loadingSuggestions : bool;
  crop : Q * Q;
  zoom : Q;
  croppedAreaPixels : option Area;
  brushColor : string;
  brushSize : Z;
  brushOpacity : Z;
  showExportMenu : bool
}.

Definition setCore (ed : Editor) (c : EditorState) : Editor :=
  {| core := c; suggestions := suggestions ed;
     loadingSuggestions := loadingSuggestions ed; crop := crop ed;
     zoom := zoom ed; croppedAreaPixels := croppedAreaPixels ed;
     brushColor := brushColor ed; brushSize := brushSize ed;
     brushOpacity := brushOpacity ed; showExportMenu := showExportMenu ed |}.

Definition setSuggestions (ed : Editor) (l : list Json) (loading : bool)
    : Editor :=
  {| core := core ed; suggestions := l; loadingSuggestions := loading;
     crop := crop ed; zoom := zoom ed;
     croppedAreaPixels := croppedAreaPixels ed;
     brushColor := brushColor ed; brushSize := brushSize ed;
     brushOpacity := brushOpacity ed; showExportMenu := showExportMenu ed |}.

Definition setCropView (ed : Editor) (c : Q * Q) (z : Q) : Editor :=
  {| core := core ed; suggestions := suggestions ed;
     loadingSuggestions := loadingSuggestions ed; crop := c; zoom := z;
     croppedAreaPixels := croppedAreaPixels ed;
     brushColor := brushColor ed; brushSize := brushSize ed;
     brushOpacity := brushOpacity ed; showExportMenu := showExportMenu ed |}.

Definition setShowExportMenu (ed : Editor) (b : bool) : Editor :=
  {| core := core ed; suggestions := suggestions ed;
     loadingSuggestions := loadingSuggestions ed; crop := crop ed;
     zoom := zoom ed; croppedAreaPixels := croppedAreaPixels ed;
     brushColor := brushColor ed; brushSize := brushSize ed;
     brushOpacity := brushOpacity ed; showExportMenu := b |}.

(** [onCropComplete]. *)
Definition onCropComplete (croppedArea croppedAreaPixels' : Area)
    (ed : Editor) : Editor :=
  {| core := core ed; suggestions := suggestions ed;
     loadingSuggestions := loadingSuggestions ed; crop := crop ed;
     zoom := zoom ed; croppedAreaPixels := Some croppedAreaPixels';
     brushColor := brushColor ed; brushSize := brushSize ed;
     brushOpacity := brushOpacity ed; showExportMenu := showExportMenu ed |}.

Inductive ToastKind : Type := Loading | Success | Failure.

Inductive DomOp : Type :=
  | CreateLink                     (* document.createElement('a') *)
  | SetHref (href : string)        (* link.href = ... *)
  | SetDownload (name : string)    (* link.download = ... *)
  | AppendLink                     (* document.body.appendChild(link) *)
  | ClickLink                      (* link.click() *)
  | RemoveLink.                    (* document.body.removeChild(link) *)

(** What a handler does besides updating the state, in order. *)
Inductive Effect : Type :=
  | Toast (kind : ToastKind) (msg : string)
  | SuggestionRequest (img : option ImageData)
      (trace : list (RetryEvent UpstreamEvent))
  | LoadImage (src : string)       (* img.src = ... *)
  | Dom (ops : list DomOp).

(** *** localStorage *)

(** What [localStorage] holds under one of the two keys of the component:
    nothing, a text on which [JSON.parse] throws, or the JSON text of a
    value. *)
Inductive Entry (A : Type) : Type :=
  | NoEntry
  | Unparsable
  | Stored (v : A).
Arguments NoEntry {A}.
Arguments Unparsable {A}.
Arguments Stored {A} v.

(** The [originalImage] field of the JSON text of a saved state: the key is
    left out ([{ prompt }]), holds [null], or holds an image. *)
Inductive SavedImage : Type :=
  | ImageOmitted
  | ImageNull
  | ImageSaved (img : ImageData).

(** [{ prompt, originalImage }] and [{ prompt }] after [JSON.stringify]. *)
Record SavedState : Type := mkSavedState {
  saved_prompt : string;
  saved_originalImage : SavedImage
}.

(** The paint session after [JSON.stringify]; an [undefined] array element
    is written as [null], here [None]. *)
Record PaintSession : Type := mkPaintSession {
  saved_isPainting : bool;
  saved_brushColor : string;
  saved_brushSize : Z;
  saved_brushOpacity : Z;
  saved_paintHistory : list (option string);
  saved_historyStep : Z
}.

Record LocalStorage : Type := mkLocalStorage {
  stateEntry : Entry SavedState;       (* STORAGE_KEY *)
  paintEntry : Entry PaintSession      (* PAINT_SESSION_KEY *)
}.

(** Whether [localStorage.setItem] stores the text of a value, or throws
    because the quota is exceeded. *)
Record Quota : Type := mkQuota {
  fitsState : SavedState -> bool;
  fitsPaint : PaintSession -> bool
}.

(** [saved ? JSON.parse(saved) : null] inside [try]/[catch]. *)
Definition getSaved {A : Type} (e : Entry A) : option A :=
  match e with
  | Stored v => Some v
  | NoEntry | Unparsable => None
  end.

Definition getSavedState (ls : LocalStorage) : option SavedState :=
  getSaved (stateEntry ls).

Definition getSavedPaintSession (ls : LocalStorage) : option PaintSession :=
  getSaved (paintEntry ls).

(** [s || d] on strings and [n || d] on numbers. *)
Definition orString (s d : string) : string :=
  if JsString.isEmpty s then d else s.

Definition orNumber (n d : Z) : Z := if n =? 0 then d else n.

(** The state of the component when it mounts (lines 178-207).  [None]: the
    restored history holds a [null], which the type of [paintHistory]
    leaves out. *)
Definition initialEditor (ls : LocalStorage) : option Editor :=
  let savedState := getSavedState ls in
  let savedPaint := getSavedPaintSession ls in
  history ← mapM id
    (match savedPaint with Some p => saved_paintHistory p | None => [] end);
  Some
    {| core :=
         {| originalImage :=
              match savedState with
              | Some st =>
                  match saved_originalImage st with
                  | ImageSaved img => Some img
                  | ImageNull | ImageOmitted => None
                  end
              | None => None
              end;
            generatedImages := [];
            selectedImageIndex := 0;
            prompt :=
              match savedState with
              | Some st => orString (saved_prompt st) ""
              | None => ""
              end;
            status := IDLE;
            isCropping := false;
            isPainting :=
              match savedPaint with
              | Some p => saved_isPainting p || false
              | None => false
              end;
            paintHistory := history;
            historyStep :=
              match savedPaint with
              | Some p => orNumber (saved_historyStep p) 0
              | None => 0
              end;
            isDrawing := false |};
       suggestions := [];
       loadingSuggestions := false;
       crop := (0%Q, 0%Q);
       zoom := 1%Q;
       croppedAreaPixels := None;
       brushColor :=
         match savedPaint with
         | Some p => orString (saved_brushColor p) "#38bdf8"
         | None => "#38bdf8"
         end;
       brushSize :=
         match savedPaint with
         | Some p => orNumber (saved_brushSize p) 20
         | None => 20
         end;
       brushOpacity :=
         match savedPaint with
         | Some p => orNumber (saved_brushOpacity p) 100
         | None => 100
         end;
       showExportMenu := false |}.

(** The general auto-save (lines 215-228): what its timer does when it
    fires, 1000 ms after the last change of [prompt] or [originalImage]. *)
Definition autoSave (q : Quota) (ed : Editor) (ls : LocalStorage)
    : LocalStorage :=
  let stateToSave :=
    {| saved_prompt := prompt (core ed);
       saved_originalImage :=
         match originalImage (core ed) with
         | Some img => ImageSaved img
         | None => ImageNull
         end |} in
  if fitsState q stateToSave then
    {| stateEntry := Stored stateToSave; paintEntry := paintEntry ls |}
  else
    let promptOnly :=
      {| saved_prompt := prompt (core ed);
         saved_originalImage := ImageOmitted |} in
    if fitsState q promptOnly then
      {| stateEntry := Stored promptOnly; paintEntry := paintEntry ls |}
    else ls.

(** The paint auto-save (lines 231-264): outside a paint session the effect
    removes the key at once; inside one, this is what its timer does when
    it fires, 500 ms after the last change of the session. *)
Definition autoSavePaint (q : Quota) (ed : Editor) (ls : LocalStorage)
    : LocalStorage :=
  if negb (isPainting (core ed)) then
    {| stateEntry := stateEntry ls; paintEntry := NoEntry |}
  else
    let paintSession :=
      {| saved_isPainting := isPainting (core ed);
         saved_brushColor := brushColor ed;
         saved_brushSize := brushSize ed;
         saved_brushOpacity := brushOpacity ed;
         saved_paintHistory := Some <$> paintHistory (core ed);
         saved_historyStep := historyStep (core ed) |} in
    if fitsPaint q paintSession then
      {| stateEntry := stateEntry ls; paintEntry := Stored paintSession |}
    else
      let minimalSession :=
        {| saved_isPainting := isPainting (core ed);
           saved_brushColor := brushColor ed;
           saved_brushSize := brushSize ed;
           saved_brushOpacity := brushOpacity ed;
           saved_paintHistory := [currentSnapshot (core ed)];
           saved_historyStep := 0 |} in
      if fitsPaint q minimalSession then
        {| stateEntry := stateEntry ls; paintEntry := Stored minimalSession |}
      else ls.

(** *** Files and cropping *)

Section Files.

Variable API_KEY : string.
Variable JSON_parse : string -> option Json.
Context {W : Type}.
Variable ai : list Part -> Async UpstreamEvent W GenerateContentResponse.

(** [generateEditSuggestions(img).then(s => setSuggestions(s))
    .finally(() => setLoadingSuggestions(false))], started after
    [setLoadingSuggestions(true)]: the state once the promise has settled.
    [kept] is the list that stays when the promise is rejected. *)
Definition requestSuggestions (img : ImageData) (kept : list Json)
    (ed : Editor) (w : W) : Editor * W * list Effect :=
  let '(r, w', tr) :=
    generateEditSuggestions API_KEY JSON_parse ai (Some img) w in
  (setSuggestions ed
     (match r with Fulfilled s => s | Rejected _ => kept end) false,
   w', [SuggestionRequest (Some img) tr]).

(** [loadFile]: the handler run to its end.  [read] is how
    [reader.readAsDataURL(file)] ends. *)
Definition loadFile (read : Settled string) (ed : Editor) (w : W)
    : Editor * W * list Effect :=
  match fileToImageData read with
  | Rejected _ => (ed, w, [Toast Failure "Failed to load image."])
  | Fulfilled imageData =>
      let c := core ed in
      let c1 :=
        {| originalImage := Some imageData;
           generatedImages := [];
           selectedImageIndex := selectedImageIndex c;
           prompt := prompt c;
           status := IDLE;
           isCropping := true;
           isPainting := false;
           paintHistory := paintHistory c;
           historyStep := historyStep c;
           isDrawing := isDrawing c |} in
      requestSuggestions imageData []
        (setCropView (setCore ed c1) (0%Q, 0%Q) 1%Q) w
  end.

(** [handleCropSave]: the handler run to its end.  [image], [hasContext]
    and [toDataURL] are those of [getCroppedImg]. *)
Definition handleCropSave (image : Settled unit) (hasContext : bool)
    (toDataURL : Area -> string) (ed : Editor) (w : W)
    : Editor * W * list Effect :=
  match originalImage (core ed) with
  | None => (ed, w, [])
  | Some original =>
      let cropped :=
        match croppedAreaPixels ed with
        | Some pixels => getCroppedImg image hasContext toDataURL pixels
        | None => Fulfilled original
        end in
      match cropped with
      | Rejected _ => (ed, w, [Toast Failure "Failed to apply frame"])
      | Fulfilled resultImage =>
          let c := core ed in
          let c1 :=
            {| originalImage := Some resultImage;
               generatedImages := generatedImages c;
               selectedImageIndex := selectedImageIndex c;
               prompt := prompt c;
               status := status c;
               isCropping := false;
               isPainting := isPainting c;
               paintHistory := paintHistory c;
               historyStep := historyStep c;
               isDrawing := isDrawing c |} in
          let '(ed', w', evs) :=
            requestSuggestions resultImage (suggestions ed)
              (setCore ed c1) w in
          (ed', w', Toast Success "Frame applied!" :: evs)
      end
  end.

(** The effect on [originalImage] (lines 266-276), with its promise
    settled.  Without a base image the result of the call replaces the
    suggestions; with one, a request is made only when there are no
    suggestions. *)
Definition suggestionsEffect (ed : Editor) (w : W)
    : Editor * W * list Effect :=
  match originalImage (core ed) with
  | None =>
      let '(r, w', tr) :=
        generateEditSuggestions API_KEY JSON_parse ai None w in
      (match r with
       | Fulfilled s => setSuggestions ed s (loadingSuggestions ed)
       | Rejected _ => ed
       end,
       w', [SuggestionRequest None tr])
  | Some img =>
      if (length (suggestions ed) =? 0)%nat
      then requestSuggestions img (suggestions ed) ed w
      else (ed, w, [])
  end.

End Files.

(** *** The canvas of a paint session *)

(** The dependencies of the effect that draws on the canvas (line 349):
    the effect runs again when one of them changes. *)
Definition canvasEffectDeps (s : EditorState) : bool * option ImageData :=
  (isPainting s, originalImage s).

(** The effect that draws on the canvas (lines 336-349): the URL it loads
    and draws, [None] when it loads nothing (its condition fails, or
    [originalImage!.url] throws). *)
Definition canvasEffect (s : EditorState) : option string :=
  if isPainting s && canvasMounted s &&
     (bool_decide (is_Some (originalImage s)) ||
      (0 <? length (paintHistory s))%nat)
  then
    match currentSnapshot s with
    | Some u =>
        if JsString.isEmpty u then url <$> originalImage s else Some u
    | None => url <$> originalImage s
    end
  else None.

(** *** Strokes *)

Record Point : Type := mkPoint { px : Q; py : Q }.

(** [getBoundingClientRect()]. *)
Record DomRect : Type := mkDomRect {
  rect_left : Q; rect_top : Q; rect_width : Q; rect_height : Q
}.

(** The paint canvas: its bitmap size and where it lies in the viewport. *)
Record Canvas : Type := mkCanvas {
  canvas_width : Q; canvas_height : Q; boundingRect : DomRect
}.

(** A mouse event, or a touch event with its list of touches, each with
    [clientX] and [clientY]. *)
Inductive PointerEvent : Type :=
  | MouseEvent (clientX clientY : Q)
  | TouchEvent (touches : list (Q * Q)).

Local Open Scope Q_scope.

(** [getPaintCoordinates], for a bounding rectangle of non-zero width and
    height.  [None]: [e.touches[0]] is undefined and reading [clientX]
    throws. *)
Definition getPaintCoordinates (canvas : option Canvas) (e : PointerEvent)
    : option Point :=
  match canvas with
  | None => Some (mkPoint 0 0)
  | Some canvas =>
      let rect := boundingRect canvas in
      let scaleX := Binary64.div (canvas_width canvas) (rect_width rect) in
      let scaleY := Binary64.div (canvas_height canvas) (rect_height rect) in
      match
        match e with
        | MouseEvent clientX clientY => Some (clientX, clientY)
        | TouchEvent touches => head touches
        end
      with
      | Some (clientX, clientY) =>
          Some (mkPoint
                  (Binary64.mul (Binary64.sub clientX (rect_left rect)) scaleX)
                  (Binary64.mul (Binary64.sub clientY (rect_top rect)) scaleY))
      | None => None
      end
  end.

(** One [beginPath(); moveTo(from); lineTo(to); stroke()] with the brush
    set before [stroke()]; [lineCap] is always ['round']. *)
Record Segment : Type := mkSegment {
  seg_from : Point;
  seg_to : Point;
  strokeStyle : string;
  lineWidth : Z;
  globalAlpha : Q
}.

(** [lastPosRef.current], and the segments stroked on the canvas. *)
Record Surface : Type := mkSurface {
  lastPos : option Point;
  strokes : list Segment
}.

(** [paintCanvasRef.current], where [canvas] is the element when the JSX
    renders it. *)
Definition paintCanvasRef (canvas : Canvas) (ed : Editor) : option Canvas :=
  if canvasMounted (core ed) then Some canvas else None.

(** [onPaintStart] with its event. *)
Definition onPaintStartAt (canvas : Canvas) (e : PointerEvent)
    (st : Editor * Surface) : Editor * Surface :=
  let '(ed, sf) := st in
  if negb (isPainting (core ed)) then st
  else
    let ed' := setCore ed (onPaintStart (core ed)) in
    match getPaintCoordinates (paintCanvasRef canvas ed) e with
    | Some pos => (ed', {| lastPos := Some pos; strokes := strokes sf |})
    | None => (ed', sf)
    end.

(** [onPaintDraw]; [hasContext] is whether [getContext('2d')] is
    non-null. *)
Definition onPaintDraw (canvas : Canvas) (hasContext : bool)
    (e : PointerEvent) (st : Editor * Surface) : Editor * Surface :=
  let '(ed, sf) := st in
  if negb (isDrawing (core ed)) || negb (canvasMounted (core ed)) then st
  else if negb hasContext then st
  else
    match getPaintCoordinates (paintCanvasRef canvas ed) e with
    | None => st
    | Some currentPos =>
        let lastPos' :=
          match lastPos sf with Some p => p | None => currentPos end in
        (ed,
         {| lastPos := Some currentPos;
            strokes :=
              strokes sf ++
              [ {| seg_from := lastPos'; seg_to := currentPos;
                   strokeStyle := brushColor ed;
                   lineWidth := brushSize ed;
                   globalAlpha :=
                     Binary64.div (inject_Z (brushOpacity ed)) 100 |} ] |})
    end.

Local Close Scope Q_scope.

(** *** Export *)

(** [toLowerCase] on one code unit of 0..255: A-Z and the capital letters
    of U+00C0..U+00DE, U+00D7 apart. *)
Definition lowerUnit (c : ascii) : ascii :=
  let n := N_of_ascii c in
  if ((65 <=? n) && (n <=? 90) ||
      (192 <=? n) && (n <=? 222) && negb (n =? 215))%N
  then ascii_of_N (n + 32)
  else c.

Fixpoint toLowerCase (s : string) : string :=
  match s with
  | EmptyString => EmptyString
  | String c s' => String (lowerUnit c) (toLowerCase s')
  end.

(** [s.replace(/\s+/g, '-')]: each maximal run of white space becomes one
    dash.  [inRun] tells that the previous code unit was white space. *)
Fixpoint dashWhiteSpace (inRun : bool) (s : string) : string :=
  match s with
  | EmptyString => EmptyString
  | String c s' =>
      if JsString.isWhiteSpace c then
        if inRun then dashWhiteSpace true s'
        else String "-" (dashWhiteSpace true s')
      else String c (dashWhiteSpace false s')
  end.

Definition isParen (c : ascii) : bool :=
  Ascii.eqb c "(" || Ascii.eqb c ")".

(** [s.replace(/[()]/g, '')]. *)
Fixpoint removeParens (s : string) : string :=
  match s with
  | EmptyString => EmptyString
  | String c s' =>
      if isParen c then removeParens s' else String c (removeParens s')
  end.

Definition cleanLabel (label : string) : string :=
  removeParens (dashWhiteSpace false (toLowerCase label)).

(** [downloadImage]. *)
Definition downloadImage (dataUrl : string) (filename : option string)
    : list DomOp :=
  [ CreateLink; SetHref dataUrl;
    SetDownload (match filename with Some f => f | None => "wp-banner.png" end);
    AppendLink; ClickLink; RemoveLink ].

(** What [resizeImage] needs of the browser: how the load of a URL ends,
    with [img.width] and [img.height]; whether a 2D context is available;
    and [canvas.toDataURL('image/png', 0.9)] for the image loaded from a
    URL and the operations drawn. *)
Record Browser : Type := mkBrowser {
  loadImage : string -> Settled (Q * Q);
  hasContext2d : bool;
  encodePng : string -> list CanvasOp -> string
}.

(** [resizeImage] down to the URL it resolves with. *)
Definition resizeImageUrl (b : Browser) (imgUrl : string)
    (targetWidth targetHeight : Q) (fit : Fit) : Settled string :=
  match resizeImage (loadImage b imgUrl) (hasContext2d b)
          targetWidth targetHeight fit with
  | Fulfilled ops => Fulfilled (encodePng b imgUrl ops)
  | Rejected e => Rejected e
  end.

Definition exportSizes : list (string * Q * Q) :=
  [ ("WP Standard (1200x675)", 1200%Q, 675%Q);
    ("WP HD Hero (1920x1080)", 1920%Q, 1080%Q);
    ("Social Square (1200x1200)", 1200%Q, 1200%Q);
    ("Original Resolution", 0%Q, 0%Q) ].

(** [`${Date.now()}`], the time being a count of milliseconds. *)
Definition timeToString (now : N) : string :=
  NilEmpty.string_of_uint (N.to_uint now).

(** [generatedImages[selectedImageIndex]]. *)
Definition selectedImage (s : EditorState) : option ImageData :=
  if selectedImageIndex s <? 0 then None
  else generatedImages s !! Z.to_nat (selectedImageIndex s).

(** [handleExport]: the handler run to its end; [now] is [Date.now()]. *)
Definition handleExport (b : Browser) (now : N) (w h : Q) (label : string)
    (imgOverride : option ImageData) (ed : Editor) : Editor * list Effect :=
  match
    match imgOverride with
    | Some img => Some img
    | None => selectedImage (core ed)
    end
  with
  | None => (ed, [])
  | Some activeImage =>
      let loading := Toast Loading ("Exporting " +:+ label +:+ "...") in
      let filename :=
        "wp-" +:+ cleanLabel label +:+ "-" +:+ timeToString now +:+ ".png" in
      let finish (finalUrl : string) (before : list Effect) :=
        (setShowExportMenu ed false,
         loading :: before ++
         [Dom (downloadImage finalUrl (Some filename));
          Toast Success "Downloaded!"]) in
      if (if Qlt_le_dec 0 w then true else false) &&
         (if Qlt_le_dec 0 h then true else false) then
        match resizeImageUrl b (url activeImage) w h cover with
        | Fulfilled finalUrl => finish finalUrl [LoadImage (url activeImage)]
        | Rejected _ =>
            (ed, [loading; LoadImage (url activeImage);
                  Toast Failure "Export failed"])
        end
      else finish (url activeImage) []
  end.

End EditorSession.

(* ===================================================================== *)
(** ** Specification vocabulary                                           *)
(* ===================================================================== *)

(** The waits of an exponential backoff with [m] retries starting at [d]. *)
Fixpoint backoff (m : nat) (d : Z) : list Z :=
  match m with
  | O => []
  | S k => d :: backoff k (d * 2)
  end.

(** Slots hold nothing but the results of their own promises. *)
Definition slotsSound {A} (promises : list (Settled A))
    (slots : list (option (Settled A))) : Prop :=
  length slots = length promises /\
  forall i r, slots !! i = Some (Some r) -> promises !! i = Some r.

(** The classification of a failure as rate-limit/quota, in words. *)
Definition rateLimited (e : JsError) : Prop :=
  status e = Some 429 \/ code e = Some 429 \/ response_status e = Some 429 \/
  exists m, message e = Some m /\
    (JsString.includes m "429" = true \/
     JsString.includes m "RESOURCE_EXHAUSTED" = true \/
     JsString.includes m "quota" = true).

(** The content parts of the first candidate of a response. *)
Definition firstCandidateParts
    (response : GeminiService.GenerateContentResponse)
    : list GeminiService.Part :=
  match GeminiService.candidates response with
  | Some (first :: _) =>
      match GeminiService.content first with
      | Some c => default [] (GeminiService.parts c)
      | None => []
      end
  | _ => []
  end.

(** A response that has no candidates, or whose first candidate has no
    content parts, or none of whose parts carries inline image data. *)
Definition lacksImage (response : GeminiService.GenerateContentResponse)
    : Prop :=
  (GeminiService.candidates response = None \/
   GeminiService.candidates response = Some []) \/
  firstCandidateParts response = [] \/
  Forall (fun p => GeminiService.inlineData p = None)
    (firstCandidateParts response).

(** The local validation errors of a generation attempt. *)
Definition validationErrors : list JsError :=
  [ Error "No candidates returned from Gemini.";
    Error "No content parts returned.";
    Error "No image data found in response." ].

(** Attempt [i] of a generation action: how it settles, and its trace.  It
    depends on the upstream's answers to attempt [i] alone. *)
Definition attempt
    (upstream : nat -> nat -> list GeminiService.Part ->
                Settled GeminiService.GenerateContentResponse * Z)
    (parts : list GeminiService.Part) (i : nat)
    : Settled ImageData * list (RetryEvent UpstreamEvent) :=
  let q := GeminiService.retryOperation
             (GeminiService.generateSingleRequest
                (GeminiService.client upstream i) parts)
             GeminiService.defaultMaxRetries GeminiService.defaultDelay 0%nat in
  (q.1.1, q.2).

(** The number of attempts of a run that succeeded. *)
Definition succeeded (run : GeminiService.Run) : nat :=
  length (List.filter (fun a => isFulfilled a.1) (GeminiService.attempts run)).

(** The consistency of an image: its display reference combines its media
    type and its payload. *)
Definition consistent (img : ImageData) : Prop :=
  url img = "data:" +:+ mimeType img +:+ ";base64," +:+ data img.

(** *** Sample inputs *)

Definition samplePart (payload : string) : GeminiService.Part :=
  {| GeminiService.inlineData :=
       Some {| GeminiService.blob_mimeType := None;
               GeminiService.blob_data := payload |};
     GeminiService.text := None |}.

Definition sampleResponse (payload : string)
    : GeminiService.GenerateContentResponse :=
  {| GeminiService.candidates :=
       Some [ {| GeminiService.content :=
                   Some {| GeminiService.parts :=
                             Some [ {| GeminiService.inlineData := None;
                                       GeminiService.text := Some "caption" |};
                                    samplePart payload ] |} |} ];
     GeminiService.response_text := None |}.

Definition emptyResponse : GeminiService.GenerateContentResponse :=
  {| GeminiService.candidates := Some [];
     GeminiService.response_text := None |}.

Definition tooManyRequests : JsError :=
  {| status := Some 429; code := None; response_status := None;
     message := Some "Too Many Requests" |}.

(** Attempt 0 gets a response without candidates after 10 ms; attempt 1 an
    image after 900 ms; attempt 2 is rate limited at every call; attempt 3
    gets an image after 20 ms. *)
Definition sampleUpstream (i n : nat) (parts : list GeminiService.Part)
    : Settled GeminiService.GenerateContentResponse * Z :=
  match i with
  | 0%nat => (Fulfilled emptyResponse, 10)
  | 1%nat => (Fulfilled (sampleResponse "QUJD"), 900)
  | 2%nat => (Rejected tooManyRequests, 5)
  | _ => (Fulfilled (sampleResponse "REVG"), 20)
  end.

(** Every attempt fails; attempt 0 fails last in time. *)
Definition failingUpstream (i n : nat) (parts : list GeminiService.Part)
    : Settled GeminiService.GenerateContentResponse * Z :=
  match i with
  | 0%nat => (Fulfilled emptyResponse, 60000)
  | 1%nat => (Rejected (Error "fetch failed"), 3)
  | _ => (Rejected tooManyRequests, 5)
  end.

(** An operation that is rate limited at every run; its world counts the
    runs, and each run reports its number. *)
Definition alwaysRateLimited : Async nat nat unit :=
  fun n => (Rejected tooManyRequests, S n, [n]).

(** The invariant of the paint history: the pointer designates an entry
    whenever there is one. *)
Definition historyInvariant (s : ImageEditor.EditorState) : Prop :=
  ImageEditor.paintHistory s <> [] ->
  0 <= ImageEditor.historyStep s
       < Z.of_nat (length (ImageEditor.paintHistory s)).

(** The operations on the paint history. *)
Inductive paintStep
    : ImageEditor.EditorState -> ImageEditor.EditorState -> Prop :=
  | StepStartPainting s : paintStep s (ImageEditor.startPainting s)
  | StepPaintStart s : paintStep s (ImageEditor.onPaintStart s)
  | StepPaintEnd newUrl s : paintStep s (ImageEditor.onPaintEnd newUrl s)
  | StepUndo s : paintStep s (ImageEditor.undoPaint s)
  | StepRedo s : paintStep s (ImageEditor.redoPaint s)
  | StepSave toDataURL s :
      paintStep s (ImageEditor.handleSavePaint toDataURL s).1
  | StepCancel s : paintStep s (ImageEditor.handleCancelPaint s).1.

(** The states reached from [s0] by operations on the paint history. *)
Inductive reachableFrom (s0 : ImageEditor.EditorState)
    : ImageEditor.EditorState -> Prop :=
  | ReachInit : reachableFrom s0 s0
  | ReachStep s s' :
      reachableFrom s0 s -> paintStep s s' -> reachableFrom s0 s'.

(** [strokes] committed one after the other, each encoding the canvas to
    the given URL. *)
Definition commitStrokes (strokes : list string) (s : ImageEditor.EditorState)
    : ImageEditor.EditorState :=
  foldl (fun st u => ImageEditor.commitStroke u st) s strokes.

(** An editor that was just opened on [img]: nothing generated, no paint
    session. *)
Definition freshEditor (img : option ImageData) : ImageEditor.EditorState :=
  {| ImageEditor.originalImage := img;
     ImageEditor.generatedImages := [];
     ImageEditor.selectedImageIndex := 0;
     ImageEditor.prompt := "";
     ImageEditor.status := IDLE;
     ImageEditor.isCropping := false;
     ImageEditor.isPainting := false;
     ImageEditor.paintHistory := [];
     ImageEditor.historyStep := 0;
     ImageEditor.isDrawing := false |}.

Definition sampleImage : ImageData :=
  {| data := "QUJD"; mimeType := "image/png";
     url := "data:image/png;base64,QUJD" |}.

Definition isJString (j : Json) : Prop :=
  match j with JString _ => True | _ => False end.

(** A stand-in for [JSON.parse] that accepts one text, an array of four
    strings, and throws on every other. *)
Definition sampleJsonParse (text : string) : option Json :=
  if String.eqb text "[four topics]"
  then Some (JArray [JString "Tea"; JString "Coffee"; JString "Cocoa";
                     JString "Water"])
  else None.

(** A text model that answers with a fenced block after 120 ms. *)
Definition sampleTextClient (parts : list GeminiService.Part)
    : Async UpstreamEvent unit GeminiService.GenerateContentResponse :=
  fun w =>
    (Fulfilled {| GeminiService.candidates := None;
                  GeminiService.response_text :=
                    Some "```json [four topics] ```" |},
     w, [EvCall 120]).

(** *** Geometry of a drawing on a canvas of [w] by [h] *)

(** The drawn image fills the canvas: no background is visible. *)
Definition coversCanvas (r : ImageUtils.Rect) (w h : Q) : Prop :=
  (ImageUtils.rx r <= 0 /\ ImageUtils.ry r <= 0 /\
   w <= ImageUtils.rx r + ImageUtils.rw r /\
   h <= ImageUtils.ry r + ImageUtils.rh r)%Q.

(** The drawn image lies within the canvas: the full source is shown. *)
Definition insideCanvas (r : ImageUtils.Rect) (w h : Q) : Prop :=
  (0 <= ImageUtils.rx r /\ 0 <= ImageUtils.ry r /\
   ImageUtils.rx r + ImageUtils.rw r <= w /\
   ImageUtils.ry r + ImageUtils.rh r <= h)%Q.

(** The largest relative error of one binary64 rounding: [2 ^ -53]. *)
Definition unitRoundoff : Q := 1 # 9007199254740992.

(** One part in [2 ^ 50]: more than a few roundings add up to. *)
Definition roundingTolerance : Q := 1 # 1125899906842624.

(** The drawn image is centred in the canvas up to rounding: on each axis
    twice the offset is the space left over, within the tolerance. *)
Definition nearlyCentered (r : ImageUtils.Rect) (w h : Q) : Prop :=
  (Qabs (2 * ImageUtils.rx r + ImageUtils.rw r - w)
     <= roundingTolerance * Qabs (w - ImageUtils.rw r) /\
   Qabs (2 * ImageUtils.ry r + ImageUtils.rh r - h)
     <= roundingTolerance * Qabs (h - ImageUtils.rh r))%Q.

(** The image of [iw] by [ih] is drawn with one scale on both axes up to
    rounding. *)
Definition nearlyUniformScale (r : ImageUtils.Rect) (iw ih : Q) : Prop :=
  (Qabs (ImageUtils.rw r * ih - ImageUtils.rh r * iw)
     <= roundingTolerance * (ImageUtils.rh r * iw))%Q.

(** A width or a height in whole pixels, up to [2 ^ 24]. *)
Definition pixels (n : Z) : Prop := 1 <= n <= 16777216.

(** Background is visible beside the drawn image (left and right). *)
Definition backgroundOnX (r : ImageUtils.Rect) (w : Q) : Prop :=
  (0 < ImageUtils.rx r \/ ImageUtils.rx r + ImageUtils.rw r < w)%Q.

(** Background is visible above and below the drawn image. *)
Definition backgroundOnY (r : ImageUtils.Rect) (h : Q) : Prop :=
  (0 < ImageUtils.ry r \/ ImageUtils.ry r + ImageUtils.rh r < h)%Q.

(** *** Vocabulary of the further properties *)

(** A captured group of the data-URL pattern: at least one code unit, no
    line terminator. *)
Definition wellFormedGroup (s : string) : Prop :=
  s <> EmptyString /\ JsString.noLineTerminator s = true.

(** No semicolon occurs in [s], as in a base64 payload. *)
Fixpoint noSemicolon (s : string) : bool :=
  match s with
  | EmptyString => true
  | String c s' => negb (Ascii.eqb c ";") && noSemicolon s'
  end.

(** The number of upstream calls in a trace of [retryOperation]. *)
Definition calls (tr : list (RetryEvent UpstreamEvent)) : nat :=
  length (innerEvents tr).

(** The time spent waiting between the runs, in ms. *)
Definition totalWait {E} (tr : list (RetryEvent E)) : Z :=
  foldr Z.add 0 (sleeps tr).

(** Starting in world [w], the operation is rate limited [k] times in a
    row; [Some w'] is the world it leaves then. *)
Fixpoint afterRateLimits {E W T} (operation : Async E W T) (k : nat) (w : W)
    : option W :=
  match k with
  | O => Some w
  | S k' =>
      match operation w with
      | (Rejected e, w1, _) =>
          if GeminiService.isQuotaError e
          then afterRateLimits operation k' w1
          else None
      | _ => None
      end
  end.

(** The number of upstream calls of a generation action. *)
Definition totalCalls (run : GeminiService.Run) : nat :=
  foldr (fun a n => (calls a.2 + n)%nat) 0%nat (GeminiService.attempts run).

(** The text before and after the user's prompt in the prompt for a base image
    (before [trim]). *)
Definition transformPrefix : string :=
  GeminiService.nl +:+
  "      " +:+ GeminiService.commonRules +:+ GeminiService.nl +:+
  "      " +:+ GeminiService.nl +:+
  "      TASK: Transform this base image into a professional WordPress featured image/banner based on: ".

Definition transformSuffix : string :=
  "." +:+ GeminiService.nl +:+
  "      - Retain the core subject but enhance lighting, environment, and composition for a web banner." +:+ GeminiService.nl +:+
  "      - Ensure the final result is 16:9." +:+ GeminiService.nl +:+
  "      ".

(** The text before and after the user's prompt in the prompt without a base image
    (before [trim]). *)
Definition generatePrefix : string :=
  GeminiService.nl +:+
  "      " +:+ GeminiService.commonRules +:+ GeminiService.nl +:+
  "      " +:+ GeminiService.nl +:+
  "      TASK: Generate a brand-new professional 16:9 web banner for a blog post about: ".

Definition generateSuffix : string :=
  "." +:+ GeminiService.nl +:+
  "      - Focus on premium stock-photo quality or clean corporate 3D/flat illustration." +:+ GeminiService.nl +:+
  "      ".

(** *** Export *)

(** Every code unit of [s] satisfies [p]. *)
Fixpoint stringAll (p : ascii -> bool) (s : string) : bool :=
  match s with
  | EmptyString => true
  | String c s' => p c && stringAll p s'
  end.

(** A code unit that [cleanLabel] leaves in place: no white space, no
    parenthesis, no capital letter. *)
Definition plainUnit (c : ascii) : bool :=
  negb (JsString.isWhiteSpace c) && negb (EditorSession.isParen c) &&
  Ascii.eqb (EditorSession.lowerUnit c) c.

(** The DOM operations among the effects of a handler, in order. *)
Definition domOps (evs : list EditorSession.Effect)
    : list EditorSession.DomOp :=
  mjoin (omap (fun ev => match ev with
                         | EditorSession.Dom ops => Some ops
                         | _ => None
                         end) evs).

(** The URLs loaded into an image element by a handler, in order. *)
Definition imageLoads (evs : list EditorSession.Effect) : list string :=
  omap (fun ev => match ev with
                  | EditorSession.LoadImage src => Some src
                  | _ => None
                  end) evs.

(** The image an export acts on. *)
Definition activeImage (imgOverride : option ImageData)
    (ed : EditorSession.Editor) : option ImageData :=
  match imgOverride with
  | Some img => Some img
  | None => EditorSession.selectedImage (EditorSession.core ed)
  end.

(** The name of the file an export downloads at time [now]. *)
Definition exportName (label : string) (now : N) : string :=
  "wp-" +:+ EditorSession.cleanLabel label +:+ "-"
  +:+ EditorSession.timeToString now +:+ ".png".

Definition sampleBrowser : EditorSession.Browser :=
  {| EditorSession.loadImage := fun _ => Fulfilled (1600%Q, 900%Q);
     EditorSession.hasContext2d := true;
     EditorSession.encodePng := fun _ _ => "data:image/png;base64,UkVTSVpFRA==" |}.

Definition sampleEditor (c : ImageEditor.EditorState)
    : EditorSession.Editor :=
  {| EditorSession.core := c;
     EditorSession.suggestions := [];
     EditorSession.loadingSuggestions := false;
     EditorSession.crop := (0%Q, 0%Q);
     EditorSession.zoom := 1%Q;
     EditorSession.croppedAreaPixels := None;
     EditorSession.brushColor := "#38bdf8";
     EditorSession.brushSize := 20;
     EditorSession.brushOpacity := 100;
     EditorSession.showExportMenu := true |}.

(** *** Persistence *)

(** The paint session as the auto-save writes it in full, and reduced to
    the current snapshot. *)
Definition fullSession (ed : EditorSession.Editor)
    : EditorSession.PaintSession :=
  {| EditorSession.saved_isPainting :=
       ImageEditor.isPainting (EditorSession.core ed);
     EditorSession.saved_brushColor := EditorSession.brushColor ed;
     EditorSession.saved_brushSize := EditorSession.brushSize ed;
     EditorSession.saved_brushOpacity := EditorSession.brushOpacity ed;
     EditorSession.saved_paintHistory :=
       Some <$> ImageEditor.paintHistory (EditorSession.core ed);
     EditorSession.saved_historyStep :=
       ImageEditor.historyStep (EditorSession.core ed) |}.

Definition minimalSession (ed : EditorSession.Editor)
    : EditorSession.PaintSession :=
  {| EditorSession.saved_isPainting :=
       ImageEditor.isPainting (EditorSession.core ed);
     EditorSession.saved_brushColor := EditorSession.brushColor ed;
     EditorSession.saved_brushSize := EditorSession.brushSize ed;
     EditorSession.saved_brushOpacity := EditorSession.brushOpacity ed;
     EditorSession.saved_paintHistory :=
       [ImageEditor.currentSnapshot (EditorSession.core ed)];
     EditorSession.saved_historyStep := 0 |}.

(** The state as the auto-save writes it in full, and reduced to the
    prompt. *)
Definition fullState (ed : EditorSession.Editor) : EditorSession.SavedState :=
  {| EditorSession.saved_prompt := ImageEditor.prompt (EditorSession.core ed);
     EditorSession.saved_originalImage :=
       match ImageEditor.originalImage (EditorSession.core ed) with
       | Some img => EditorSession.ImageSaved img
       | None => EditorSession.ImageNull
       end |}.

Definition promptOnlyState (ed : EditorSession.Editor)
    : EditorSession.SavedState :=
  {| EditorSession.saved_prompt := ImageEditor.prompt (EditorSession.core ed);
     EditorSession.saved_originalImage := EditorSession.ImageOmitted |}.

(** The brush of [ed] is the brush of [ed0]. *)
Definition sameBrush (ed ed0 : EditorSession.Editor) : Prop :=
  EditorSession.brushColor ed0 = EditorSession.brushColor ed /\
  EditorSession.brushSize ed0 = EditorSession.brushSize ed /\
  EditorSession.brushOpacity ed0 = EditorSession.brushOpacity ed.

(** A brush as the controls of the paint bar can set it: a colour, and a
    size and an opacity that the sliders keep at 1 or more. *)
Definition brushSet (ed : EditorSession.Editor) : Prop :=
  JsString.isEmpty (EditorSession.brushColor ed) = false /\
  EditorSession.brushSize ed <> 0 /\
  EditorSession.brushOpacity ed <> 0.

(** The state of a component that mounts on [ls] shows nothing generated
    and no dialog. *)
Definition mountsClean (ed0 : EditorSession.Editor) : Prop :=
  ImageEditor.generatedImages (EditorSession.core ed0) = [] /\
  ImageEditor.selectedImageIndex (EditorSession.core ed0) = 0 /\
  ImageEditor.status (EditorSession.core ed0) = IDLE /\
  ImageEditor.isCropping (EditorSession.core ed0) = false /\
  ImageEditor.isDrawing (EditorSession.core ed0) = false /\
  EditorSession.showExportMenu ed0 = false.

Definition emptyStorage : EditorSession.LocalStorage :=
  {| EditorSession.stateEntry := EditorSession.NoEntry;
     EditorSession.paintEntry := EditorSession.NoEntry |}.

(** A storage that takes a state without image only, and a paint session
    of at most one snapshot only. *)
Definition tightQuota : EditorSession.Quota :=
  {| EditorSession.fitsState := fun st =>
       match EditorSession.saved_originalImage st with
       | EditorSession.ImageSaved _ => false
       | _ => true
       end;
     EditorSession.fitsPaint := fun p =>
       (length (EditorSession.saved_paintHistory p) <=? 1)%nat |}.

(** An editor in a paint session with three snapshots, the pointer on the
    second. *)
Definition paintingEditor : EditorSession.Editor :=
  sampleEditor
    (ImageEditor.setPrompt
       (ImageEditor.setPaint (freshEditor (Some sampleImage)) true
          ["data:image/png;base64,QQ=="; "data:image/png;base64,Qg==";
           "data:image/png;base64,Qw=="] 1 false)
       "Tea and coffee").

(** *** Files and cropping *)

(** The two states agree on everything but the base image and the crop
    dialog. *)
Definition sameButBaseImage (c c' : ImageEditor.EditorState) : Prop :=
  ImageEditor.generatedImages c' = ImageEditor.generatedImages c /\
  ImageEditor.selectedImageIndex c' = ImageEditor.selectedImageIndex c /\
  ImageEditor.prompt c' = ImageEditor.prompt c /\
  ImageEditor.status c' = ImageEditor.status c /\
  ImageEditor.isPainting c' = ImageEditor.isPainting c /\
  ImageEditor.paintHistory c' = ImageEditor.paintHistory c /\
  ImageEditor.historyStep c' = ImageEditor.historyStep c /\
  ImageEditor.isDrawing c' = ImageEditor.isDrawing c.

(** The effects are one request for suggestions on [img], whose operation
    was run at most once. *)
Definition oneSuggestionRequest (img : ImageData)
    (evs : list EditorSession.Effect) : Prop :=
  exists tr,
    evs = [EditorSession.SuggestionRequest (Some img) tr] /\
    (invocations tr <= 1)%nat.

(** *** Strokes *)

(** The point of the canvas bitmap under the viewport position [(x, y)]. *)
Definition canvasPoint (canvas : EditorSession.Canvas) (xy : Q * Q)
    : EditorSession.Point :=
  let rect := EditorSession.boundingRect canvas in
  EditorSession.mkPoint
    (Binary64.mul (Binary64.sub xy.1 (EditorSession.rect_left rect))
       (Binary64.div (EditorSession.canvas_width canvas)
          (EditorSession.rect_width rect)))
    (Binary64.mul (Binary64.sub xy.2 (EditorSession.rect_top rect))
       (Binary64.div (EditorSession.canvas_height canvas)
          (EditorSession.rect_height rect))).

(** The segments of the line from [p0] through the points [ps], each
    stroked with the brush of [ed]. *)
Fixpoint polyline (ed : EditorSession.Editor) (p0 : EditorSession.Point)
    (ps : list EditorSession.Point) : list EditorSession.Segment :=
  match ps with
  | [] => []
  | p :: ps' =>
      {| EditorSession.seg_from := p0; EditorSession.seg_to := p;
         EditorSession.strokeStyle := EditorSession.brushColor ed;
         EditorSession.lineWidth := EditorSession.brushSize ed;
         EditorSession.globalAlpha :=
           Binary64.div (inject_Z (EditorSession.brushOpacity ed)) 100 |}
      :: polyline ed p ps'
  end.

(** Mouse moves over the canvas at the viewport positions [moves], in
    order. *)
Definition mouseMoves (canvas : EditorSession.Canvas) (hasContext : bool)
    (moves : list (Q * Q)) (st : EditorSession.Editor * EditorSession.Surface)
    : EditorSession.Editor * EditorSession.Surface :=
  foldl (fun st xy =>
           EditorSession.onPaintDraw canvas hasContext
             (EditorSession.MouseEvent xy.1 xy.2) st)
    st moves.

(** A canvas of 1600 by 900 shown at 800 by 450, at (100, 50). *)
Definition sampleCanvas : EditorSession.Canvas :=
  {| EditorSession.canvas_width := 1600; EditorSession.canvas_height := 900;
     EditorSession.boundingRect :=
       {| EditorSession.rect_left := 100; EditorSession.rect_top := 50;
          EditorSession.rect_width := 800; EditorSession.rect_height := 450 |} |}.

Definition blankSurface : EditorSession.Surface :=
  {| EditorSession.lastPos := None; EditorSession.strokes := [] |}.

(** The paint history and its pointer are the same in both states. *)
Definition sameHistory (c c' : ImageEditor.EditorState) : Prop :=
  ImageEditor.paintHistory c' = ImageEditor.paintHistory c /\
  ImageEditor.historyStep c' = ImageEditor.historyStep c.

(** *** The operations of the standard library's IEEE 754 specification *)

(** The computations of [drawRect] and of [getPaintCoordinates] on whole
    numbers, with the binary64 operations that the standard library
    specifies ([SpecFloat], precision 53, maximal exponent 1024), to
    compare [Binary64] with. *)
Definition specOfZ (z : Z) : spec_float := binary_normalize 53 1024 z 0 false.

Definition specToQ (f : spec_float) : option Q :=
  match f with
  | S754_zero _ => Some 0%Q
  | S754_finite s m e =>
      Some ((if s then - inject_Z (Z.pos m) else inject_Z (Z.pos m)) * 2 ^ e)%Q
  | S754_infinity _ | S754_nan => None
  end.

Definition drawRectSpec (iw ih tw th : Z) (fit : ImageUtils.Fit)
    : spec_float * spec_float * spec_float * spec_float :=
  let fdiv := SFdiv 53 1024 in
  let fmul := SFmul 53 1024 in
  let fsub := SFsub 53 1024 in
  match fit with
  | ImageUtils.stretch => (specOfZ 0, specOfZ 0, specOfZ tw, specOfZ th)
  | _ =>
      let imgAspect := fdiv (specOfZ iw) (specOfZ ih) in
      let targetAspect := fdiv (specOfZ tw) (specOfZ th) in
      let pinHeight :=
        let drawWidth := fmul (specOfZ th) imgAspect in
        (fdiv (fsub (specOfZ tw) drawWidth) (specOfZ 2), specOfZ 0,
         drawWidth, specOfZ th) in
      let pinWidth :=
        let drawHeight := fdiv (specOfZ tw) imgAspect in
        (specOfZ 0, fdiv (fsub (specOfZ th) drawHeight) (specOfZ 2),
         specOfZ tw, drawHeight) in
      match fit with
      | ImageUtils.cover =>
          if SFltb targetAspect imgAspect then pinHeight else pinWidth
      | _ => if SFltb targetAspect imgAspect then pinWidth else pinHeight
      end
  end.

(** [(clientX - edge) * (bitmap / size)]. *)
Definition coordinateSpec (clientX edge size bitmap : Z) : spec_float :=
  SFmul 53 1024 (SFsub 53 1024 (specOfZ clientX) (specOfZ edge))
    (SFdiv 53 1024 (specOfZ bitmap) (specOfZ size)).

Definition sameNumber (q : Q) (f : spec_float) : bool :=
  match specToQ f with Some q' => Qeq_bool q q' | None => false end.

Definition sameRect (r : ImageUtils.Rect)
    (s : spec_float * spec_float * spec_float * spec_float) : bool :=
  let '(x, y, w, h) := s in
  sameNumber (ImageUtils.rx r) x && sameNumber (ImageUtils.ry r) y &&
  sameNumber (ImageUtils.rw r) w && sameNumber (ImageUtils.rh r) h.

(** Source and target dimensions to compare on. *)
Definition resizeProbes : list (Z * Z * Z * Z) :=
  [ (5, 29, 5, 29); (29, 7, 29, 7); (15, 11, 15, 11); (100, 100, 1200, 1200);
    (1920, 1080, 1200, 1200); (4000, 3000, 1200, 675); (1600, 900, 1200, 675);
    (1024, 1024, 1920, 1080); (3, 7, 1200, 1200); (16777216, 1, 1, 16777216);
    (1, 16777216, 16777216, 1); (16777215, 16777216, 16777216, 16777215);
    (1365, 768, 1920, 1080); (640, 427, 1200, 675) ].

(** Pointer position, left edge, displayed size and bitmap size to compare
    on. *)
Definition coordinateProbes : list (Z * Z * Z * Z) :=
  [ (403, 100, 303, 1344); (100, 100, 303, 1344); (250, 100, 303, 1344);
    (500, 100, 800, 1600); (37, 12, 7, 1000); (1000, 3, 997, 1920) ].

(* ===================================================================== *)
(** ** The definitions on concrete inputs                                 *)
(* ===================================================================== *)

Example includes_quota :
  JsString.includes "You exceeded your current quota." "quota" = true /\
  JsString.includes "fetch failed" "429" = false.
Proof. split; reflexivity. Qed.

Example trim_spaces : JsString.trim "  a b  " = "a b".
Proof. reflexivity. Qed.

Example removeFences_block :
  JsString.removeFences 0 "```json [1, 2] ```" = " [1, 2] ".
Proof. reflexivity. Qed.

(** The first group is greedy: it runs up to the last [;base64,]. *)
Example matchDataUrl_greedy :
  JsString.matchDataUrl "data:image/png;base64,AAAA"
    = Some ("image/png", "AAAA") /\
  JsString.matchDataUrl "data:a;base64,b;base64,c" = Some ("a;base64,b", "c") /\
  JsString.matchDataUrl "data:image/png;base64," = None /\
  JsString.matchDataUrl "image/png;base64,AAAA" = None.
Proof. repeat split; reflexivity. Qed.

Example slice0_ends :
  ImageEditor.slice0 ["a"; "b"; "c"] 2 = ["a"; "b"] /\
  ImageEditor.slice0 ["a"; "b"; "c"] 7 = ["a"; "b"; "c"] /\
  ImageEditor.slice0 ["a"; "b"; "c"] (-1) = ["a"; "b"] /\
  ImageEditor.slice0 ["a"; "b"; "c"] (-5) = [].
Proof. repeat split; reflexivity. Qed.

(** The prompt sent upstream starts at the style rules and ends at the
    last line of the task. *)
Example generate_prompt_trimmed :
  match GeminiService.requestParts "tea" None with
  | [ {| GeminiService.inlineData := None;
         GeminiService.text := Some prompt |} ] =>
      JsString.startsWith prompt "You are a senior Visual Designer" = true /\
      JsString.includes prompt "for a blog post about: tea." = true /\
      JsString.includes prompt "corporate 3D/flat illustration." = true /\
      JsString.trim prompt = prompt
  | _ => False
  end.
Proof. vm_compute. repeat split; reflexivity. Qed.

(** With the sample service, two of the four attempts succeed: the handler
    ends in [SUCCESS] with the images of attempts 1 and 3, in this order. *)
Example handleGenerate_sample :
  let s := ImageEditor.setPrompt (freshEditor None) "tea" in
  let '(s', events) := ImageEditor.handleGenerate "key" sampleUpstream s in
  ImageEditor.status s' = SUCCESS /\
  ImageEditor.selectedImageIndex s' = 0 /\
  data <$> ImageEditor.generatedImages s' = ["QUJD"; "REVG"] /\
  events = [ ImageEditor.CallGenerateOrEditImage "tea" None;
             ImageEditor.ToastSuccess "Generated 2 professional banners!" ].
Proof. vm_compute. repeat split; reflexivity. Qed.

(** Attempt 2 of the sample service is rate limited three times in a row:
    it waits 2000 ms, then 4000 ms, and fails after 6015 ms. *)
Example attempt_rate_limited :
  attempt sampleUpstream [] 2
  = (Rejected GeminiService.usageLimitError,
     [ EvInvoke [EvCall 5]; EvWarn 2000 2; EvSleep 2000;
       EvInvoke [EvCall 5]; EvWarn 4000 1; EvSleep 4000;
       EvInvoke [EvCall 5] ]) /\
  elapsed (attempt sampleUpstream [] 2).2 = 6015.
Proof. split; reflexivity. Qed.

(** With the sample service the attempts complete in the order 0, 3, 1, 2;
    the results are delivered in the order 0, 1, 2, 3. *)
Example sample_completion_order :
  let settled := attempt sampleUpstream [] <$> [0; 1; 2; 3]%nat in
  completionOrder ((fun a => elapsed a.2) <$> settled) = [0; 3; 1; 2]%nat /\
  allSettled (fst <$> settled) [0; 3; 1; 2]%nat = Some (fst <$> settled) /\
  allSettled (fst <$> settled) [0; 3; 1]%nat = None.
Proof. repeat split; vm_compute; reflexivity. Qed.

(* ===================================================================== *)
(** ** Retry policy                                                       *)
(* ===================================================================== *)

Section RetryPolicy.

Import GeminiService.

Context {E W T : Type} (operation : Async E W T).

Lemma is429_spec (v : option Z) : is429 v = true <-> v = Some 429.
Proof.
  destruct v as [n|]; simpl; [|split; discriminate].
  rewrite Z.eqb_eq. split; [intros ->; reflexivity | congruence].
Qed.

Lemma isQuotaError_spec (e : JsError) :
  isQuotaError e = true <-> rateLimited e.
Proof.
  unfold isQuotaError, rateLimited, messageIncludes.
  rewrite !orb_true_iff, !is429_spec.
  destruct (message e) as [m|]; split.
  - intros [[[[[H|H]|H]|H]|H]|H]; eauto 10.
  - intros [H|[H|[H|(m' & Hm & [H|[H|H]])]]]; auto 10;
      injection Hm as <-; auto 10.
  - intros [[[[[H|H]|H]|H]|H]|H]; auto; discriminate.
  - intros [H|[H|[H|(m' & Hm & _)]]]; auto 10; discriminate.
Qed.

Lemma retry_fulfilled m d w v w1 t :
  operation w = (Fulfilled v, w1, t) ->
  retryOperation operation m d w = (Fulfilled v, w1, [EvInvoke t]).
Proof. intros H. destruct m; simpl; rewrite H; reflexivity. Qed.

Lemma retry_not_quota m d w e w1 t :
  operation w = (Rejected e, w1, t) -> isQuotaError e = false ->
  retryOperation operation m d w = (Rejected e, w1, [EvInvoke t]).
Proof. intros H Hq. destruct m; simpl; rewrite H, Hq; reflexivity. Qed.

Lemma retry_quota_exhausted d w e w1 t :
  operation w = (Rejected e, w1, t) -> isQuotaError e = true ->
  retryOperation operation 0 d w = (Rejected usageLimitError, w1, [EvInvoke t]).
Proof. intros H Hq. simpl. rewrite H, Hq. reflexivity. Qed.

Lemma retry_quota_again m d w e w1 t :
  operation w = (Rejected e, w1, t) -> isQuotaError e = true ->
  retryOperation operation (S m) d w =
    let '(r, w2, tr) := retryOperation operation m (d * 2) w1 in
    (r, w2, EvInvoke t :: EvWarn d (S m) :: EvSleep d :: tr).
Proof. intros H Hq. simpl. rewrite H, Hq. reflexivity. Qed.

(** Whatever the operation does, it is run at most [maxRetries + 1] times,
    every run but the first comes after a wait, and the waits are the
    first ones of the backoff sequence. *)
Lemma retry_shape m : forall d w,
  let tr := (retryOperation operation m d w).2 in
  (invocations tr <= S m)%nat /\
  invocations tr = S (length (sleeps tr)) /\
  sleeps tr `prefix_of` backoff m d.
Proof.
  induction m as [|m IH]; intros d w; cbn zeta.
  - simpl. destruct (operation w) as [[[v|e] w1] t];
      [|destruct (isQuotaError e)]; cbn;
      (split; [lia | split; [lia | apply prefix_nil]]).
  - simpl. destruct (operation w) as [[[v|e] w1] t];
      [|destruct (isQuotaError e)]; cbn;
      try (split; [lia | split; [lia | apply prefix_nil]]).
    specialize (IH (d * 2) w1). cbn zeta in IH.
    destruct (retryOperation operation m (d * 2) w1) as [[r w2] tr].
    cbn in *. destruct IH as (Hle & Heq & Hpre).
    split; [lia | split; [lia | by apply prefix_cons]].
Qed.

End RetryPolicy.

(* ===================================================================== *)
(** ** Promise.allSettled                                                 *)
(* ===================================================================== *)

Section AllSettled.

Context {A : Type} (promises : list (Settled A)).

Lemma settle_sound slots i :
  slotsSound promises slots -> slotsSound promises (settle promises slots i).
Proof.
  intros [Hlen Hs]. unfold settle.
  destruct (promises !! i) as [r|] eqn:Hi; [|by split].
  split; [by rewrite length_insert|].
  intros j r' Hj. destruct (decide (i = j)) as [->|Hne].
  - rewrite list_lookup_insert_eq in Hj; [congruence|].
    rewrite Hlen. by eapply lookup_lt_Some.
  - rewrite list_lookup_insert_ne in Hj by done. by apply Hs.
Qed.

Lemma settle_keeps slots i j r :
  slotsSound promises slots -> slots !! j = Some (Some r) ->
  settle promises slots i !! j = Some (Some r).
Proof.
  intros [Hlen Hs] Hj. unfold settle.
  destruct (promises !! i) as [r'|] eqn:Hi; [|done].
  destruct (decide (i = j)) as [->|Hne].
  - rewrite list_lookup_insert_eq by (by eapply lookup_lt_Some).
    apply Hs in Hj. congruence.
  - by rewrite list_lookup_insert_ne.
Qed.

Lemma settle_fills slots i r :
  slotsSound promises slots -> promises !! i = Some r ->
  settle promises slots i !! i = Some (Some r).
Proof.
  intros [Hlen _] Hi. unfold settle. rewrite Hi.
  apply list_lookup_insert_eq. rewrite Hlen. by eapply lookup_lt_Some.
Qed.

Lemma foldl_settle order : forall slots,
  slotsSound promises slots ->
  slotsSound promises (foldl (settle promises) slots order) /\
  forall j r, promises !! j = Some r ->
    (j ∈ order \/ slots !! j = Some (Some r)) ->
    foldl (settle promises) slots order !! j = Some (Some r).
Proof.
  induction order as [|i order IH]; intros slots Hs; simpl.
  - split; [done|]. intros j r _ [Hin|H]; [|done]. by apply elem_of_nil in Hin.
  - destruct (IH (settle promises slots i) (settle_sound _ i Hs)) as [Hs' Hfill].
    split; [done|]. intros j r Hj [Hin|H].
    + apply elem_of_cons in Hin as [->|Hin].
      * apply Hfill; [done|]. right. by apply settle_fills.
      * apply Hfill; [done|]. by left.
    + apply Hfill; [done|]. right. by apply settle_keeps.
Qed.

(** Once every promise has completed, in whatever order, the combined
    promise resolves with the results in the order of the input. *)
Lemma allSettled_complete (order : list nat) :
  (forall i, (i < length promises)%nat -> i ∈ order) ->
  allSettled promises order = Some promises.
Proof.
  intros Hall. unfold allSettled.
  assert (Hs0 : slotsSound promises (replicate (length promises) None)).
  { split; [apply length_replicate|].
    intros i r Hi. apply lookup_replicate in Hi as [? _]. discriminate. }
  destruct (foldl_settle order _ Hs0) as [[Hlen _] Hfill].
  assert (Heq : foldl (settle promises) (replicate (length promises) None) order
                = Some <$> promises).
  { apply list_eq. intros i. rewrite list_lookup_fmap.
    destruct (promises !! i) as [r|] eqn:Hi; simpl.
    - apply Hfill; [done|]. left. apply Hall. by eapply lookup_lt_Some.
    - apply lookup_ge_None. rewrite Hlen. by apply lookup_ge_None. }
  rewrite Heq. by apply mapM_fmap_Some.
Qed.

End AllSettled.

Lemma completionOrder_complete (times : list Z) (i : nat) :
  (i < length times)%nat -> i ∈ completionOrder times.
Proof.
  intros Hi. unfold completionOrder.
  rewrite merge_sort_Permutation.
  rewrite snd_zip by (rewrite length_seq; lia).
  apply elem_of_seq. lia.
Qed.

(* ===================================================================== *)
(** ** Response validation                                                *)
(* ===================================================================== *)

Section Validation.

Import GeminiService.

Lemma validationErrors_not_quota (e : JsError) :
  e ∈ validationErrors -> isQuotaError e = false.
Proof.
  unfold validationErrors. rewrite !elem_of_cons, elem_of_nil.
  intros [->|[->|[->|[]]]]; reflexivity.
Qed.

Lemma find_inlineData (ps : list Part) :
  Forall (fun p => inlineData p = None) ps ->
  List.find (fun p => bool_decide (is_Some (inlineData p))) ps = None.
Proof.
  induction 1 as [|p ps Hp _ IH]; [done|]. simpl. rewrite Hp, IH.
  rewrite bool_decide_eq_false_2; [done|]. by intros [? ?].
Qed.

Lemma imageOfResponse_lacksImage (response : GenerateContentResponse) :
  lacksImage response ->
  exists e, e ∈ validationErrors /\ imageOfResponse response = Rejected e.
Proof.
  unfold lacksImage, firstCandidateParts, imageOfResponse, validationErrors.
  destruct (candidates response) as [[|first rest]|].
  1,3: intros _; eexists; split; [|reflexivity]; repeat constructor.
  destruct (content first) as [[[[|p ps]|]]|]; cbn -[List.find].
  1,3,4: intros _; eexists; split; [|reflexivity]; repeat constructor.
  intros [[H|H]|[H|H]]; try discriminate.
  rewrite (find_inlineData _ H).
  eexists; split; [|reflexivity]; repeat constructor.
Qed.

Lemma imageOfResponse_consistent (response : GenerateContentResponse) img :
  imageOfResponse response = Fulfilled img -> consistent img.
Proof.
  unfold imageOfResponse, consistent.
  destruct (candidates response) as [[|first rest]|]; try discriminate.
  destruct (match content first with Some c => parts c | None => None end)
    as [[|p ps]|]; try discriminate.
  destruct (List.find _ _) as [[[blob|] ?]|]; try discriminate.
  intros [= <-]. reflexivity.
Qed.

End Validation.

(* ===================================================================== *)
(** ** The fan-out and its reduction                                      *)
(* ===================================================================== *)

Section Fanout.

Import GeminiService.

Lemma omap_value_filter {A} (l : list (Settled A)) :
  omap value (List.filter isFulfilled l) = omap value l.
Proof.
  induction l as [|[v|e] l IH]; cbn; [done| |done].
  f_equal. exact IH.
Qed.

Lemma length_omap_value {A} (l : list (Settled A)) :
  length (omap value l) = length (List.filter isFulfilled l).
Proof.
  induction l as [|[v|e] l IH]; cbn; [done| |done].
  f_equal. exact IH.
Qed.

Lemma omap_value_rejected {A} (l : list (Settled A)) :
  Forall (fun r => isRejected r = true) l -> omap value l = [].
Proof.
  induction 1 as [|[v|e] l Hr _ IH]; cbn; [done|discriminate|done].
Qed.

Variable API_KEY : string.
Variable upstream :
  nat -> nat -> list Part -> Settled GenerateContentResponse * Z.

Lemma generateOrEditImage_no_key prompt img :
  JsString.isEmpty API_KEY = true ->
  generateOrEditImage API_KEY upstream
    prompt img
  = Some {| outcome :=
              Rejected (Error "API Key is missing in environment variables.");
            attempts := [] |}.
Proof. intros H. unfold generateOrEditImage. by rewrite H. Qed.

Lemma generateOrEditImage_run prompt img :
  JsString.isEmpty API_KEY = false ->
  let parts := requestParts prompt img in
  let results := (fun i => (attempt upstream parts i).1) <$> seq 0 4 in
  generateOrEditImage API_KEY upstream
    prompt img
  = Some {| outcome :=
              if (length (omap value results) =? 0)%nat then
                match List.find isRejected results with
                | Some (Rejected reason) => Rejected reason
                | _ => Rejected (Error "Generation failed.")
                end
              else Fulfilled (omap value results);
            attempts := attempt upstream parts <$> seq 0 4 |}.
Proof.
  intros H parts results. unfold generateOrEditImage. rewrite H.
  fold parts. rewrite allSettled_complete.
  - unfold mbind, option_bind. cbv beta iota zeta.
    rewrite omap_value_filter. reflexivity.
  - intros i Hi. apply completionOrder_complete.
    rewrite !length_fmap in *. exact Hi.
Qed.

End Fanout.

Section FanoutLatency.

Import GeminiService.

Variables upstream upstream' :
  nat -> nat -> list Part -> Settled GenerateContentResponse * Z.
Variable parts : list Part.
Variable i : nat.

(** The two services give the same answers to attempt [i]; the times they
    take may differ. *)
Hypothesis same_answers :
  forall n, (upstream i n parts).1 = (upstream' i n parts).1.

Lemma retry_same_answers m : forall d d' n,
  (retryOperation (generateSingleRequest (client upstream i) parts) m d n).1
  = (retryOperation (generateSingleRequest (client upstream' i) parts) m d' n).1.
Proof.
  induction m as [|m IH]; intros d d' n; simpl;
    unfold generateSingleRequest, client;
    pose proof (same_answers n) as Hn;
    destruct (upstream i n parts) as [r l], (upstream' i n parts) as [r' l'];
    simpl in Hn; subst r'; destruct r as [response|e]; simpl.
  - by destruct (imageOfResponse response) as [v|e]; [|destruct (isQuotaError e)].
  - by destruct (isQuotaError e).
  - destruct (imageOfResponse response) as [v|e]; [done|].
    destruct (isQuotaError e); [|done].
    specialize (IH (d * 2) (d' * 2) (S n)).
    unfold generateSingleRequest, client in IH.
    do 2 destruct (retryOperation _ _ _ _) as [[? ?] ?]. exact IH.
  - destruct (isQuotaError e); [|done].
    specialize (IH (d * 2) (d' * 2) (S n)).
    unfold generateSingleRequest, client in IH.
    do 2 destruct (retryOperation _ _ _ _) as [[? ?] ?]. exact IH.
Qed.

Lemma attempt_same_answers :
  (attempt upstream parts i).1 = (attempt upstream' parts i).1.
Proof.
  unfold attempt. simpl.
  exact (f_equal fst (retry_same_answers defaultMaxRetries _ _ 0%nat)).
Qed.

End FanoutLatency.

(* ===================================================================== *)
(** ** Properties of the generation orchestrator                          *)
(* ===================================================================== *)

(** C1 (as amended).  With an API key configured, a generation action issues
    exactly the four attempts 0, 1, 2, 3, each of which depends on the
    upstream's answers to it alone.  If [k >= 1] of them succeed, the
    promise resolves with exactly [k] images: the values of the successful
    attempts in index order.  The times the upstream takes, hence the order
    in which the attempts complete, have no influence on the result. *)
Theorem fanout_submission_order
    (API_KEY : string)
    (upstream : nat -> nat -> list GeminiService.Part ->
                Settled GeminiService.GenerateContentResponse * Z)
    (prompt : string) (originalImage : option ImageData) :
  JsString.isEmpty API_KEY = false ->
  exists run,
    GeminiService.generateOrEditImage API_KEY upstream prompt originalImage = Some run /\
    GeminiService.attempts run =
      attempt upstream
        (GeminiService.requestParts prompt originalImage) <$> [0; 1; 2; 3]%nat /\
    (succeeded run <= 4)%nat /\
    ((1 <= succeeded run)%nat ->
     exists images,
       GeminiService.outcome run = Fulfilled images /\
       length images = succeeded run /\
       images = omap value (fst <$> GeminiService.attempts run)) /\
    (forall upstream',
       (forall i n parts, (upstream' i n parts).1 = (upstream i n parts).1) ->
       GeminiService.outcome <$>
         GeminiService.generateOrEditImage API_KEY upstream' prompt originalImage
       = Some (GeminiService.outcome run)).
Proof.
  intros Hkey.
  pose proof (generateOrEditImage_run API_KEY upstream prompt originalImage Hkey) as Hrun.
  cbv zeta in Hrun.
  set (parts := GeminiService.requestParts _ _) in *.
  eexists. split; [exact Hrun|].
  assert (Hres : fst <$> (attempt upstream parts <$> seq 0 4)
                 = (fun i => (attempt upstream parts i).1) <$> seq 0 4)
    by (by rewrite <- list_fmap_compose).
  assert (Hk : succeeded
                 {| GeminiService.outcome := Rejected (Error "");
                    GeminiService.attempts := attempt upstream parts <$> seq 0 4 |}
               = length (omap value
                           ((fun i => (attempt upstream parts i).1) <$> seq 0 4))).
  { rewrite length_omap_value, <- Hres. unfold succeeded.
    cbn [GeminiService.attempts].
    generalize (attempt upstream parts <$> seq 0 4). intros l.
    induction l as [|a l IH]; [done|]. cbn. destruct (isFulfilled a.1); cbn; lia. }
  unfold succeeded in *. cbn [GeminiService.attempts GeminiService.outcome] in *.
  split; [reflexivity|]. split.
  { eapply Nat.le_trans; [apply List.filter_length_le|].
    by rewrite length_fmap. }
  split.
  - intros Hpos. rewrite Hk in Hpos. eexists. split; [|split].
    + destruct (Nat.eqb_spec (length (omap value
          ((fun i => (attempt upstream parts i).1) <$> seq 0 4))) 0); [lia|].
      reflexivity.
    + by rewrite Hk.
    + by rewrite Hres.
  - intros upstream' Hsame.
    rewrite (generateOrEditImage_run API_KEY upstream' prompt originalImage Hkey).
    cbv zeta. fold parts. cbn [fmap option_fmap option_map GeminiService.outcome].
    assert (Heq : (fun i => (attempt upstream' parts i).1) <$> seq 0 4
                  = (fun i => (attempt upstream parts i).1) <$> seq 0 4).
    { apply list_fmap_ext. intros _ i _.
      apply attempt_same_answers. intros n. apply Hsame. }
    by rewrite Heq.
Qed.

(** With the sample service and a key, the action is fulfilled with the
    images of attempts 1 and 3, in this order, although attempt 3 completes
    first. *)
Lemma fanout_submission_order_witness :
  JsString.isEmpty "key" = false /\
  exists run,
    GeminiService.generateOrEditImage "key" sampleUpstream "tea" None
      = Some run /\
    GeminiService.outcome run =
      Fulfilled
        [ {| data := "QUJD"; mimeType := "image/png";
             url := "data:image/png;base64,QUJD" |};
          {| data := "REVG"; mimeType := "image/png";
             url := "data:image/png;base64,REVG" |} ].
Proof.
  split; [reflexivity|].
  destruct (fanout_submission_order "key" sampleUpstream "tea" None
              eq_refl) as (run & Hrun & Hatt & _ & Hok & _).
  exists run. split; [exact Hrun|].
  destruct Hok as (images & Hout & _ & Himages).
  - unfold succeeded. rewrite Hatt. vm_compute. lia.
  - rewrite Hout, Himages, Hatt. reflexivity.
Defined.

(** C1 (as stated) fails without an API key: the action is rejected before
    any attempt is issued. *)
Lemma fanout_without_key :
  GeminiService.generateOrEditImage "" sampleUpstream "tea" None
    = Some {| GeminiService.outcome :=
                Rejected (Error "API Key is missing in environment variables.");
              GeminiService.attempts := [] |} /\
  ~ exists run,
      GeminiService.generateOrEditImage "" sampleUpstream "tea" None
        = Some run /\
      length (GeminiService.attempts run) = 4%nat.
Proof.
  split; [reflexivity|].
  intros (run & Hrun & Hlen). vm_compute in Hrun.
  injection Hrun as <-. discriminate Hlen.
Qed.

(** C3.  With an API key configured, so that the four attempts are issued:
    if the attempts 0, 1, 2 and 3 all fail, the action is rejected with the
    reason of attempt 0, whatever the times the upstream takes, hence
    whichever attempt fails last; if one of the four attempts succeeds, the
    action is fulfilled, with at least one image. *)
Theorem total_failure_surfaces_first
    (API_KEY : string)
    (upstream : nat -> nat -> list GeminiService.Part ->
                Settled GeminiService.GenerateContentResponse * Z)
    (prompt : string) (originalImage : option ImageData) :
  JsString.isEmpty API_KEY = false ->
  let parts := GeminiService.requestParts prompt originalImage in
  exists run,
    GeminiService.generateOrEditImage API_KEY upstream prompt originalImage
      = Some run /\
    GeminiService.attempts run
      = attempt upstream parts <$> [0; 1; 2; 3]%nat /\
    (forall e0,
       (attempt upstream parts 0).1 = Rejected e0 ->
       (forall i, (i < 4)%nat ->
                  isRejected (attempt upstream parts i).1 = true) ->
       GeminiService.outcome run = Rejected e0 /\
       (forall upstream',
          (forall i n ps, (upstream' i n ps).1 = (upstream i n ps).1) ->
          GeminiService.outcome <$>
            GeminiService.generateOrEditImage API_KEY upstream' prompt
              originalImage
          = Some (Rejected e0))) /\
    (forall i, (i < 4)%nat ->
       isFulfilled (attempt upstream parts i).1 = true ->
       exists images,
         GeminiService.outcome run = Fulfilled images /\ images <> []).
Proof.
  intros Hkey parts.
  pose proof (generateOrEditImage_run API_KEY upstream prompt originalImage
                Hkey) as Hrun.
  cbv zeta in Hrun. fold parts in Hrun.
  eexists. split; [exact Hrun|].
  cbn [GeminiService.attempts GeminiService.outcome].
  split; [reflexivity|]. split.
  - intros e0 H0 Hall.
    assert (Hout :
      (if (length (omap value
                     ((fun i => (attempt upstream parts i).1) <$> seq 0 4))
           =? 0)%nat
       then match List.find isRejected
                    ((fun i => (attempt upstream parts i).1) <$> seq 0 4) with
            | Some (Rejected reason) => Rejected reason
            | _ => Rejected (Error "Generation failed.")
            end
       else Fulfilled
              (omap value
                 ((fun i => (attempt upstream parts i).1) <$> seq 0 4)))
      = Rejected e0).
    { rewrite omap_value_rejected.
      - cbn [length Nat.eqb seq fmap list_fmap List.find].
        by rewrite H0.
      - apply Forall_fmap, Forall_forall. intros i Hi. cbn.
        apply Hall. apply elem_of_seq in Hi. lia. }
    split; [exact Hout|].
    intros upstream' Hsame.
    rewrite (generateOrEditImage_run API_KEY upstream' prompt originalImage
               Hkey).
    cbv zeta. fold parts.
    cbn [fmap option_fmap option_map GeminiService.outcome].
    assert (Heq : (fun i => (attempt upstream' parts i).1) <$> seq 0 4
                  = (fun i => (attempt upstream parts i).1) <$> seq 0 4).
    { apply list_fmap_ext. intros _ i _.
      apply attempt_same_answers. intros n. apply Hsame. }
    by rewrite Heq, Hout.
  - intros i Hi Hful.
    assert (Hpos : (0 < length (omap value
                      ((fun i => (attempt upstream parts i).1) <$> seq 0 4)))%nat).
    { cbn [seq fmap list_fmap].
      destruct i as [|[|[|[|i]]]]; [| | | |lia];
        destruct (attempt upstream parts 0).1,
                 (attempt upstream parts 1).1,
                 (attempt upstream parts 2).1,
                 (attempt upstream parts 3).1;
        try discriminate Hful; cbn; lia. }
    destruct (Nat.eqb_spec
                (length (omap value
                   ((fun i => (attempt upstream parts i).1) <$> seq 0 4))) 0);
      [lia|].
    eexists. split; [reflexivity|].
    intros E. rewrite E in Hpos. cbn in Hpos. lia.
Qed.

(** With the failing service the action is rejected with the validation
    error of attempt 0, the last attempt to fail. *)
Lemma total_failure_surfaces_first_witness :
  exists run,
    GeminiService.generateOrEditImage "key" failingUpstream "tea" None
      = Some run /\
    GeminiService.outcome run =
      Rejected (Error "No candidates returned from Gemini.").
Proof.
  destruct (total_failure_surfaces_first "key" failingUpstream "tea" None
              eq_refl) as (run & Hrun & _ & Hall & _).
  exists run. split; [exact Hrun|].
  apply (Hall (Error "No candidates returned from Gemini.")); [reflexivity|].
  intros i Hi. destruct i as [|[|[|[|i]]]]; [reflexivity..|lia].
Defined.

(** C8.  Whenever the upstream answers a call of a generation attempt with a
    response that has no candidates, or whose first candidate has no content
    parts, or none of whose parts carries inline image data, the request
    fails with one of the local validation errors; that error is not
    classified as a quota condition, so [retryOperation] does not retry and
    settles the attempt with it. *)
Theorem validation_failure_not_retried {W : Type}
    (ai : list GeminiService.Part ->
          Async UpstreamEvent W GeminiService.GenerateContentResponse)
    (parts : list GeminiService.Part) (maxRetries : nat) (delay : Z)
    (w w1 : W) (response : GeminiService.GenerateContentResponse)
    (t : list UpstreamEvent) :
  ai parts w = (Fulfilled response, w1, t) ->
  lacksImage response ->
  exists e,
    e ∈ validationErrors /\
    GeminiService.isQuotaError e = false /\
    GeminiService.generateSingleRequest ai parts w = (Rejected e, w1, t) /\
    GeminiService.retryOperation (GeminiService.generateSingleRequest ai parts)
      maxRetries delay w = (Rejected e, w1, [EvInvoke t]).
Proof.
  intros Hai Hlack.
  destruct (imageOfResponse_lacksImage response Hlack) as (e & He & Himg).
  pose proof (validationErrors_not_quota e He) as Hq.
  assert (Hreq : GeminiService.generateSingleRequest ai parts w
                 = (Rejected e, w1, t)).
  { unfold GeminiService.generateSingleRequest. by rewrite Hai, Himg. }
  exists e. split; [done|]. split; [done|]. split; [done|].
  by apply retry_not_quota.
Qed.

(** Attempt 0 of the sample service: one call, no retry. *)
Lemma validation_failure_not_retried_witness :
  GeminiService.client sampleUpstream 0 [] 0%nat
    = (Fulfilled emptyResponse, 1%nat, [EvCall 10]) /\
  lacksImage emptyResponse /\
  exists e,
    e ∈ validationErrors /\
    GeminiService.isQuotaError e = false /\
    GeminiService.generateSingleRequest (GeminiService.client sampleUpstream 0)
      [] 0%nat = (Rejected e, 1%nat, [EvCall 10]) /\
    GeminiService.retryOperation
      (GeminiService.generateSingleRequest (GeminiService.client sampleUpstream 0) [])
      GeminiService.defaultMaxRetries GeminiService.defaultDelay 0%nat
      = (Rejected e, 1%nat, [EvInvoke [EvCall 10]]).
Proof.
  assert (Hlack : lacksImage emptyResponse) by (left; right; reflexivity).
  split; [reflexivity|]. split; [exact Hlack|].
  exact (validation_failure_not_retried (GeminiService.client sampleUpstream 0)
           [] GeminiService.defaultMaxRetries GeminiService.defaultDelay
           0%nat 1%nat emptyResponse [EvCall 10] eq_refl Hlack).
Defined.

(** In a generation action, an attempt whose first call is answered with a
    response that fails the validation settles with the validation error
    after that one call. *)
Lemma validation_failure_settles_attempt
    (API_KEY : string)
    (upstream : nat -> nat -> list GeminiService.Part ->
                Settled GeminiService.GenerateContentResponse * Z)
    (prompt : string) (originalImage : option ImageData)
    (i : nat) (response : GeminiService.GenerateContentResponse) (latency : Z) :
  JsString.isEmpty API_KEY = false ->
  (i < 4)%nat ->
  upstream i 0%nat
    (GeminiService.requestParts prompt
       originalImage) = (Fulfilled response, latency) ->
  lacksImage response ->
  exists e run,
    e ∈ validationErrors /\
    GeminiService.generateOrEditImage API_KEY upstream prompt originalImage = Some run /\
    GeminiService.attempts run !! i
      = Some (Rejected e, [EvInvoke [EvCall latency]]).
Proof.
  intros Hkey Hi Hup Hlack.
  destruct (imageOfResponse_lacksImage response Hlack) as (e & He & Himg).
  exists e. eexists. split; [exact He|].
  split; [by apply generateOrEditImage_run|].
  cbn [GeminiService.attempts]. rewrite list_lookup_fmap, lookup_seq_lt by done.
  cbn [fmap option_fmap option_map Nat.add]. f_equal. unfold attempt.
  rewrite (retry_not_quota _ _ _ 0%nat e 1%nat [EvCall latency]); [done| |].
  - unfold GeminiService.generateSingleRequest, GeminiService.client.
    by rewrite Hup, Himg.
  - by apply validationErrors_not_quota.
Qed.

(* ===================================================================== *)
(** ** Topic suggestions                                                  *)
(* ===================================================================== *)

Section SuggestionLemmas.

Import GeminiService.

Context {W : Type}.
Variable JSON_parse : string -> option Json.
Variable ai : list Part -> Async UpstreamEvent W GenerateContentResponse.

(** The operation behind the suggestions catches whatever goes wrong: it
    is always fulfilled, with at most three entries, after one call. *)
Lemma suggestionOperation_fulfilled img w :
  exists l,
    suggestionOperation JSON_parse ai img w
    = (Fulfilled l, (ai (suggestionParts img) w).1.2,
       (ai (suggestionParts img) w).2) /\
    (length l <= 3)%nat.
Proof.
  unfold suggestionOperation. fold (suggestionParts img).
  destruct (ai (suggestionParts img) w) as [[[response|e] w1] t]; cbn [fst snd].
  2: { exists []. split; [done|]. cbn. lia. }
  destruct (response_text response) as [text|].
  2: { exists []. split; [done|]. cbn. lia. }
  destruct (JsString.isEmpty text).
  { exists []. split; [done|]. cbn. lia. }
  destruct (JSON_parse _) as [[| | | |items|]|];
    try (exists []; split; [done|]; cbn; lia).
  exists (take 3 items). split; [done|]. rewrite length_take. lia.
Qed.

Lemma suggestions_retry img w :
  exists l,
    retryOperation (suggestionOperation JSON_parse ai img) 1 1000 w
    = (Fulfilled l, (ai (suggestionParts img) w).1.2,
       [EvInvoke (ai (suggestionParts img) w).2]) /\
    (suggestionOperation JSON_parse ai img w).1.1 = Fulfilled l /\
    (length l <= 3)%nat.
Proof.
  destruct (suggestionOperation_fulfilled img w) as (l & Hop & Hlen).
  exists l. split; [|split; [by rewrite Hop | done]].
  by apply retry_fulfilled.
Qed.

End SuggestionLemmas.

(* ===================================================================== *)
(** ** Properties of the retry helper                                     *)
(* ===================================================================== *)

(** C2.  [isQuotaError] is the rate-limit classification (status, code or
    response status 429, or a message containing 429, RESOURCE_EXHAUSTED or
    quota).  Under the default policy an operation is run at most three
    times, every run after the first is preceded by its wait, and the waits
    are 2000 ms then 4000 ms.  A rate-limited failure is retried while
    retries remain; three rate-limited failures in a row end in the
    distinguished usage-limit error.  A failure that is not rate limited is
    not retried: it is the outcome, at its first occurrence, whatever the
    retry budget.  The only other wrapped operation, the one behind the
    suggestions (one retry, 1000 ms), never fails, so it is never retried. *)
Theorem retry_policy {E W T : Type} (operation : Async E W T) :
  (forall e, GeminiService.isQuotaError e = true <-> rateLimited e) /\
  (forall w,
     let tr := (GeminiService.retryOperation operation
                  GeminiService.defaultMaxRetries GeminiService.defaultDelay w).2 in
     (invocations tr <= 3)%nat /\
     invocations tr = S (length (sleeps tr)) /\
     sleeps tr `prefix_of` [2000; 4000]) /\
  (forall w e1 w1 t1,
     operation w = (Rejected e1, w1, t1) -> rateLimited e1 ->
     exists r w2 tr,
       GeminiService.retryOperation operation 1 4000 w1 = (r, w2, tr) /\
       GeminiService.retryOperation operation
         GeminiService.defaultMaxRetries GeminiService.defaultDelay w
       = (r, w2, EvInvoke t1 :: EvWarn 2000 2 :: EvSleep 2000 :: tr)) /\
  (forall w e1 w1 t1 e2 w2 t2 e3 w3 t3,
     operation w = (Rejected e1, w1, t1) -> rateLimited e1 ->
     operation w1 = (Rejected e2, w2, t2) -> rateLimited e2 ->
     operation w2 = (Rejected e3, w3, t3) -> rateLimited e3 ->
     GeminiService.retryOperation operation
       GeminiService.defaultMaxRetries GeminiService.defaultDelay w
     = (Rejected GeminiService.usageLimitError, w3,
        [ EvInvoke t1; EvWarn 2000 2; EvSleep 2000;
          EvInvoke t2; EvWarn 4000 1; EvSleep 4000;
          EvInvoke t3 ])) /\
  (forall maxRetries delay w e w1 t,
     operation w = (Rejected e, w1, t) -> ~ rateLimited e ->
     GeminiService.retryOperation operation maxRetries delay w
     = (Rejected e, w1, [EvInvoke t])) /\
  (forall (W' : Type) JSON_parse
          (ai : list GeminiService.Part ->
                Async UpstreamEvent W' GeminiService.GenerateContentResponse)
          img w,
     let tr := (GeminiService.retryOperation
                  (GeminiService.suggestionOperation JSON_parse ai img)
                  1 1000 w).2 in
     invocations tr = 1%nat /\ sleeps tr = []).
Proof.
  split; [apply isQuotaError_spec|].
  split; [intros w; apply (retry_shape operation 2 2000 w)|].
  split.
  { intros w e1 w1 t1 H1 Hq1. apply isQuotaError_spec in Hq1.
    destruct (GeminiService.retryOperation operation 1 4000 w1)
      as [[r w2] tr] eqn:Hrec.
    exists r, w2, tr. split; [done|].
    unfold GeminiService.defaultMaxRetries, GeminiService.defaultDelay.
    rewrite (retry_quota_again operation 1 2000 w e1 w1 t1 H1 Hq1).
    change (2000 * 2) with 4000. by rewrite Hrec. }
  split.
  { intros w e1 w1 t1 e2 w2 t2 e3 w3 t3 H1 Hq1 H2 Hq2 H3 Hq3.
    apply isQuotaError_spec in Hq1, Hq2, Hq3.
    unfold GeminiService.defaultMaxRetries, GeminiService.defaultDelay.
    rewrite (retry_quota_again operation 1 2000 w e1 w1 t1 H1 Hq1).
    rewrite (retry_quota_again operation 0 (2000 * 2) w1 e2 w2 t2 H2 Hq2).
    rewrite (retry_quota_exhausted operation (2000 * 2 * 2) w2 e3 w3 t3 H3 Hq3).
    reflexivity. }
  split.
  { intros m d w e w1 t H Hq. apply retry_not_quota; [done|].
    destruct (GeminiService.isQuotaError e) eqn:Hc; [|done].
    exfalso. apply Hq. by apply isQuotaError_spec. }
  intros W' JSON_parse ai img w.
  destruct (suggestions_retry JSON_parse ai img w) as (l & -> & _).
  by split.
Qed.

(** An operation that is rate limited at every run is run three times,
    with waits of 2000 ms and 4000 ms, and ends in the usage-limit error. *)
Lemma retry_policy_witness :
  alwaysRateLimited 0%nat = (Rejected tooManyRequests, 1%nat, [0%nat]) /\
  rateLimited tooManyRequests /\
  GeminiService.retryOperation alwaysRateLimited
    GeminiService.defaultMaxRetries GeminiService.defaultDelay 0%nat
  = (Rejected GeminiService.usageLimitError, 3%nat,
     [ EvInvoke [0%nat]; EvWarn 2000 2; EvSleep 2000;
       EvInvoke [1%nat]; EvWarn 4000 1; EvSleep 4000;
       EvInvoke [2%nat] ]).
Proof.
  assert (Hq : rateLimited tooManyRequests) by (left; reflexivity).
  split; [reflexivity|]. split; [exact Hq|].
  destruct (retry_policy alwaysRateLimited) as (_ & _ & _ & Hexhausted & _).
  exact (Hexhausted 0%nat tooManyRequests 1%nat [0%nat]
           tooManyRequests 2%nat [1%nat] tooManyRequests 3%nat [2%nat]
           eq_refl Hq eq_refl Hq eq_refl Hq).
Defined.

(* ===================================================================== *)
(** ** The paint history                                                  *)
(* ===================================================================== *)

Section PaintHistory.

Import ImageEditor.

Lemma slice0_take {A} (l : list A) (k : Z) :
  0 <= k -> slice0 l k = take (Z.to_nat k) l.
Proof.
  intros Hk. unfold slice0.
  destruct (Z.ltb_spec k 0) as [?|_]; [lia|].
  destruct (Z.le_ge_cases k (Z.of_nat (length l))) as [Hle|Hge].
  - by rewrite Z.min_l.
  - rewrite Z.min_r by lia. rewrite Nat2Z.id.
    rewrite !take_ge; [done|lia|lia].
Qed.

Lemma length_slice0 {A} (l : list A) (e : Z) :
  (length (slice0 l e) <= length l)%nat.
Proof. unfold slice0. rewrite length_take. lia. Qed.

Lemma setPaint_setPaint s a h k d a' h' k' d' :
  setPaint (setPaint s a h k d) a' h' k' d' = setPaint s a' h' k' d'.
Proof. reflexivity. Qed.

(** A paint session on [s]: painting, not cropping, with history [h],
    pointer [k] and drawing flag [d]. *)
Lemma canvasMounted_session s h k d :
  isCropping s = false -> h <> [] ->
  canvasMounted (setPaint s true h k d) = true.
Proof.
  intros Hc Hh. unfold canvasMounted. cbn. rewrite Hc. cbn.
  destruct h; [done|]. cbn. by rewrite orb_true_r.
Qed.

Lemma commitStroke_session s h k d u :
  isCropping s = false -> h <> [] -> 0 <= k ->
  commitStroke u (setPaint s true h k d)
  = setPaint s true (take (Z.to_nat (k + 1)) h ++ [u])
      (Z.of_nat (length (take (Z.to_nat (k + 1)) h ++ [u])) - 1) false.
Proof.
  intros Hc Hh Hk. unfold commitStroke, onPaintStart, onPaintEnd.
  cbn [isPainting setPaint negb paintHistory historyStep isDrawing orb].
  rewrite !setPaint_setPaint.
  rewrite (canvasMounted_session s h k true Hc Hh).
  cbn [negb isPainting setPaint paintHistory historyStep].
  by rewrite slice0_take by lia.
Qed.

Lemma commitStrokes_session s strokes : forall h d,
  isCropping s = false -> h <> [] ->
  exists d',
    commitStrokes strokes (setPaint s true h (Z.of_nat (length h) - 1) d)
    = setPaint s true (h ++ strokes)
        (Z.of_nat (length (h ++ strokes)) - 1) d'.
Proof.
  induction strokes as [|u strokes IH]; intros h d Hc Hh.
  - exists d. by rewrite app_nil_r.
  - unfold commitStrokes. cbn [foldl].
    rewrite commitStroke_session
      by first [done | destruct h; [done | cbn; lia]].
    replace (Z.to_nat (Z.of_nat (length h) - 1 + 1)) with (length h) by lia.
    rewrite firstn_all.
    destruct (IH (h ++ [u]) false Hc) as (d' & IH').
    { by destruct h. }
    exists d'. unfold commitStrokes in IH'. rewrite IH'.
    by rewrite <- app_assoc.
Qed.

Lemma undoPaint_session s h k d :
  undoPaint (setPaint s true h k d)
  = setPaint s true h (if 0 <? k then k - 1 else k) d.
Proof. unfold undoPaint. cbn. by destruct (0 <? k). Qed.

Lemma redoPaint_session s h k d :
  redoPaint (setPaint s true h k d)
  = setPaint s true h (if k <? Z.of_nat (length h) - 1 then k + 1 else k) d.
Proof. unfold redoPaint. cbn. by destruct (k <? _). Qed.

Lemma undoPaint_iter s h d (n : nat) : forall k,
  0 <= k ->
  Nat.iter n undoPaint (setPaint s true h k d)
  = setPaint s true h (Z.max 0 (k - Z.of_nat n)) d.
Proof.
  induction n as [|n IH]; intros k Hk.
  - cbn. f_equal. lia.
  - rewrite Nat.iter_succ_r, undoPaint_session.
    destruct (Z.ltb_spec 0 k); rewrite IH by lia; f_equal; lia.
Qed.

Lemma redoPaint_iter s h d (n : nat) : forall k,
  k < Z.of_nat (length h) ->
  Nat.iter n redoPaint (setPaint s true h k d)
  = setPaint s true h (Z.min (Z.of_nat (length h) - 1) (k + Z.of_nat n)) d.
Proof.
  induction n as [|n IH]; intros k Hk.
  - cbn. f_equal. lia.
  - rewrite Nat.iter_succ_r, redoPaint_session.
    destruct (Z.ltb_spec k (Z.of_nat (length h) - 1));
      rewrite IH by lia; f_equal; lia.
Qed.

End PaintHistory.

Section PaintHistoryInvariant.

Import ImageEditor.

Lemma historyInvariant_step s s' :
  paintStep s s' -> historyInvariant s -> historyInvariant s'.
Proof.
  unfold historyInvariant.
  destruct 1 as [s|s|u s|s|s|f s|s]; intros Hinv.
  - unfold startPainting. destruct (originalImage s) as [img|]; [|done].
    destruct (Nat.eqb_spec (length (paintHistory s)) 0); cbn; [lia|done].
  - unfold onPaintStart. by destruct (negb (isPainting s)).
  - unfold onPaintEnd.
    destruct (negb (isDrawing s) || negb (canvasMounted s)); [done|].
    cbn. intros _. rewrite length_app. cbn. lia.
  - unfold undoPaint. destruct (Z.ltb_spec 0 (historyStep s)); [|done].
    cbn. intros Hne. specialize (Hinv Hne). lia.
  - unfold redoPaint.
    destruct (Z.ltb_spec (historyStep s) (Z.of_nat (length (paintHistory s)) - 1));
      [|done].
    cbn. intros Hne. specialize (Hinv Hne). lia.
  - unfold handleSavePaint. destruct (canvasMounted s); [|done].
    destruct (originalImage s) as [img|]; [|done].
    by destruct (ImageUtils.imageDataOfUrl _).
  - done.
Qed.

Lemma historyInvariant_reachable s0 s :
  historyInvariant s0 -> reachableFrom s0 s -> historyInvariant s.
Proof.
  intros H0. induction 1 as [|s s' _ IH Hstep]; [done|].
  by eapply historyInvariant_step.
Qed.

End PaintHistoryInvariant.

(** C5.  The invariant [0 <= historyStep < paintHistory.length] whenever the
    history is non-empty is preserved by every operation on the history:
    starting a session, pointer down, stroke commit, undo, redo, save and
    cancel; hence it holds in every state reached from an editor without a
    paint session.  Undo does nothing at the earliest entry and redo nothing
    at the latest; starting a session on an empty history seeds it with the
    base image, pointer at 0; cancel clears the history, and save either
    clears it or changes nothing. *)
Theorem history_invariant_preserved :
  (forall s s', paintStep s s' -> historyInvariant s -> historyInvariant s') /\
  (forall img s, reachableFrom (freshEditor img) s -> historyInvariant s) /\
  (forall s, ImageEditor.historyStep s <= 0 -> ImageEditor.undoPaint s = s) /\
  (forall s,
     Z.of_nat (length (ImageEditor.paintHistory s)) - 1
       <= ImageEditor.historyStep s ->
     ImageEditor.redoPaint s = s) /\
  (forall s img,
     ImageEditor.originalImage s = Some img ->
     ImageEditor.paintHistory s = [] ->
     ImageEditor.paintHistory (ImageEditor.startPainting s) = [url img] /\
     ImageEditor.historyStep (ImageEditor.startPainting s) = 0) /\
  (forall s,
     ImageEditor.paintHistory (ImageEditor.handleCancelPaint s).1 = [] /\
     ImageEditor.historyStep (ImageEditor.handleCancelPaint s).1 = 0) /\
  (forall toDataURL s,
     (ImageEditor.handleSavePaint toDataURL s).1 = s \/
     ImageEditor.paintHistory (ImageEditor.handleSavePaint toDataURL s).1 = [] /\
     ImageEditor.historyStep (ImageEditor.handleSavePaint toDataURL s).1 = 0).
Proof.
  split; [exact historyInvariant_step|].
  split.
  { intros img s. apply historyInvariant_reachable. by intros []. }
  split.
  { intros s Hs. unfold ImageEditor.undoPaint.
    destruct (Z.ltb_spec 0 (ImageEditor.historyStep s)); [lia|done]. }
  split.
  { intros s Hs. unfold ImageEditor.redoPaint.
    destruct (Z.ltb_spec (ImageEditor.historyStep s)
                (Z.of_nat (length (ImageEditor.paintHistory s)) - 1)); [lia|done]. }
  split.
  { intros s img Himg Hh. unfold ImageEditor.startPainting.
    by rewrite Himg, Hh. }
  split; [done|].
  intros f s. unfold ImageEditor.handleSavePaint.
  destruct (ImageEditor.canvasMounted s); [|by left].
  destruct (ImageEditor.originalImage s) as [img|]; [|by left].
  destruct (ImageUtils.imageDataOfUrl _); [by right|by left].
Qed.

(** Undo right after the start of a session keeps the invariant. *)
Lemma history_invariant_preserved_witness :
  paintStep (ImageEditor.startPainting (freshEditor (Some sampleImage)))
    (ImageEditor.undoPaint
       (ImageEditor.startPainting (freshEditor (Some sampleImage)))) /\
  historyInvariant (ImageEditor.startPainting (freshEditor (Some sampleImage))) /\
  historyInvariant
    (ImageEditor.undoPaint
       (ImageEditor.startPainting (freshEditor (Some sampleImage)))).
Proof.
  assert (Hinv : historyInvariant
                   (ImageEditor.startPainting (freshEditor (Some sampleImage))))
    by (intros _; vm_compute; split; [discriminate | reflexivity]).
  split; [apply StepUndo|]. split; [exact Hinv|].
  exact (proj1 history_invariant_preserved _ _ (StepUndo _) Hinv).
Defined.

(** C4.  In a paint session seeded with one snapshot (the base image),
    after the strokes [strokes] have been committed one after the other
    ([N] of them): the history is the seed followed by the strokes, with the
    pointer on the last; [N] undos make the seed the current snapshot and
    delete nothing; [N] redos from there give back the state after the last
    commit, whose current snapshot is the final one; and a commit after
    [M <= N] undos keeps the entries up to the pointer ([historyStep + 1] of
    them), drops the [M] entries after it, appends the new snapshot, and
    moves the pointer to this new last entry. *)
Theorem undo_redo_history
    (s0 : ImageEditor.EditorState) (img : ImageData) (strokes : list string) :
  ImageEditor.originalImage s0 = Some img ->
  ImageEditor.paintHistory s0 = [] ->
  ImageEditor.isCropping s0 = false ->
  let seeded := ImageEditor.startPainting s0 in
  let painted := commitStrokes strokes seeded in
  let N := length strokes in
  (ImageEditor.paintHistory seeded = [url img] /\
   ImageEditor.historyStep seeded = 0) /\
  (ImageEditor.paintHistory painted = url img :: strokes /\
   ImageEditor.historyStep painted = Z.of_nat N /\
   ImageEditor.currentSnapshot painted = last (url img :: strokes)) /\
  (ImageEditor.currentSnapshot (Nat.iter N ImageEditor.undoPaint painted)
     = Some (url img) /\
   ImageEditor.paintHistory (Nat.iter N ImageEditor.undoPaint painted)
     = url img :: strokes) /\
  Nat.iter N ImageEditor.redoPaint (Nat.iter N ImageEditor.undoPaint painted)
    = painted /\
  (forall (M : nat) (u : string),
     (M <= N)%nat ->
     let undone := Nat.iter M ImageEditor.undoPaint painted in
     let s' := ImageEditor.commitStroke u undone in
     ImageEditor.historyStep undone = Z.of_nat (N - M) /\
     ImageEditor.paintHistory s' = take (N - M + 1) (url img :: strokes) ++ [u] /\
     Z.of_nat (length (ImageEditor.paintHistory s'))
       = ImageEditor.historyStep undone + 1 + 1 /\
     ImageEditor.historyStep s'
       = Z.of_nat (length (ImageEditor.paintHistory s')) - 1 /\
     ImageEditor.currentSnapshot s' = Some u).
Proof.
  intros Himg Hh Hc seeded painted N.
  assert (Hseed : seeded = ImageEditor.setPaint s0 true [url img] 0
                             (ImageEditor.isDrawing s0)).
  { unfold seeded, ImageEditor.startPainting. by rewrite Himg, Hh. }
  destruct (commitStrokes_session s0 strokes [url img]
              (ImageEditor.isDrawing s0) Hc) as (d & Hpainted); [done|].
  change (Z.of_nat (length [url img]) - 1) with 0 in Hpainted.
  rewrite <- Hseed in Hpainted. fold painted in Hpainted.
  cbn [app length] in Hpainted.
  replace (Z.of_nat (S (length strokes)) - 1) with (Z.of_nat N) in Hpainted
    by (unfold N; lia).
  split; [by rewrite Hseed|].
  split.
  { rewrite Hpainted. cbn. split; [done|]. split; [done|].
    unfold ImageEditor.currentSnapshot. cbn.
    destruct (Z.ltb_spec (Z.of_nat N) 0); [lia|]. rewrite Nat2Z.id.
    by rewrite last_lookup. }
  assert (Hundo : Nat.iter N ImageEditor.undoPaint painted
                  = ImageEditor.setPaint s0 true (url img :: strokes) 0 d).
  { rewrite Hpainted, undoPaint_iter by lia. f_equal. lia. }
  split; [by rewrite Hundo|].
  split.
  { rewrite Hundo, redoPaint_iter by (cbn; lia).
    rewrite Hpainted. f_equal. cbn [length]. unfold N. lia. }
  intros M u HM undone s'.
  assert (Hundone : undone = ImageEditor.setPaint s0 true (url img :: strokes)
                               (Z.of_nat (N - M)) d).
  { unfold undone. rewrite Hpainted, undoPaint_iter by lia. f_equal. lia. }
  assert (Hs' : ImageEditor.paintHistory s'
                = take (N - M + 1) (url img :: strokes) ++ [u] /\
                ImageEditor.historyStep s'
                = Z.of_nat (length (ImageEditor.paintHistory s')) - 1).
  { unfold s'. rewrite Hundone, commitStroke_session by (done || lia).
    cbn [ImageEditor.paintHistory ImageEditor.historyStep ImageEditor.setPaint].
    replace (Z.to_nat (Z.of_nat (N - M) + 1)) with (N - M + 1)%nat by lia.
    done. }
  destruct Hs' as [Hhist Hstep].
  assert (Hlen : length (ImageEditor.paintHistory s') = (N - M + 1 + 1)%nat).
  { rewrite Hhist, length_app, length_take. cbn [length]. unfold N. lia. }
  split; [by rewrite Hundone|]. split; [done|].
  split; [rewrite Hundone, Hlen; cbn; lia|]. split; [done|].
  unfold ImageEditor.currentSnapshot. rewrite Hstep, Hlen.
  destruct (Z.ltb_spec (Z.of_nat (N - M + 1 + 1) - 1) 0); [lia|].
  rewrite Hhist.
  replace (Z.to_nat (Z.of_nat (N - M + 1 + 1) - 1)) with (N - M + 1)%nat by lia.
  rewrite lookup_app_r by (rewrite length_take; cbn [length]; unfold N; lia).
  rewrite length_take. cbn [length].
  replace (N - M + 1 - (N - M + 1) `min` S (length strokes))%nat with 0%nat
    by (unfold N; lia).
  done.
Qed.

(** Three strokes, three undos, three redos; and a commit after two undos
    leaves the seed, the first stroke and the new one. *)
Lemma undo_redo_history_witness :
  let s0 := freshEditor (Some sampleImage) in
  let painted :=
    commitStrokes ["u1"; "u2"; "u3"] (ImageEditor.startPainting s0) in
  ImageEditor.originalImage s0 = Some sampleImage /\
  ImageEditor.paintHistory s0 = [] /\
  ImageEditor.isCropping s0 = false /\
  ImageEditor.currentSnapshot (Nat.iter 3 ImageEditor.undoPaint painted)
    = Some (url sampleImage) /\
  Nat.iter 3 ImageEditor.redoPaint (Nat.iter 3 ImageEditor.undoPaint painted)
    = painted /\
  ImageEditor.paintHistory
    (ImageEditor.commitStroke "u4" (Nat.iter 2 ImageEditor.undoPaint painted))
    = [url sampleImage; "u1"; "u4"].
Proof.
  intros s0 painted.
  destruct (undo_redo_history s0 sampleImage ["u1"; "u2"; "u3"]
              eq_refl eq_refl eq_refl)
    as (_ & _ & (Hundo & _) & Hredo & Hcommit).
  split; [reflexivity|]. split; [reflexivity|]. split; [reflexivity|].
  split; [exact Hundo|]. split; [exact Hredo|].
  destruct (Hcommit 2%nat "u4") as (_ & Hhist & _); [cbn; lia|].
  exact Hhist.
Defined.

(* ===================================================================== *)
(** ** Strings                                                            *)
(* ===================================================================== *)

Section Strings.

Import JsString.

Lemma trimStart_allWhiteSpace s :
  allWhiteSpace s = true -> trimStart s = EmptyString.
Proof.
  induction s as [|c s IH]; [done|]. cbn.
  destruct (isWhiteSpace c); [exact IH|discriminate].
Qed.

(** [trim] gives the empty string exactly on the strings made of white
    space only. *)
Lemma isEmpty_trim s : isEmpty (trim s) = allWhiteSpace s.
Proof.
  unfold trim. induction s as [|c s IH]; [done|]. cbn [trimStart allWhiteSpace].
  destruct (isWhiteSpace c) eqn:Hc; [exact IH|].
  cbn [trimEnd]. rewrite Hc. reflexivity.
Qed.

Lemma stripPrefix_sound p : forall s r, stripPrefix p s = Some r -> s = p +:+ r.
Proof.
  induction p as [|a p IH]; intros [|b s] r; cbn [stripPrefix];
    try discriminate; try (intros [= <-]; reflexivity).
  destruct (Ascii.eqb_spec a b) as [->|]; [|discriminate].
  intros H. rewrite (IH _ _ H). reflexivity.
Qed.

Lemma matchGroups_sound s : forall g1 g2,
  matchGroups s = Some (g1, g2) -> s = g1 +:+ ";base64," +:+ g2.
Proof.
  induction s as [|c s IH]; intros g1 g2; [discriminate|].
  cbn [matchGroups]. destruct (isLineTerminator c); [discriminate|].
  destruct (matchGroups s) as [[h1 h2]|].
  - intros [= <- <-]. rewrite (IH _ _ eq_refl). reflexivity.
  - destruct (stripPrefix ";base64," s) as [r|] eqn:Hr; [|discriminate].
    destruct (negb (isEmpty r) && noLineTerminator r); [|discriminate].
    intros [= <- <-]. rewrite (stripPrefix_sound _ _ _ Hr). reflexivity.
Qed.

(** A string accepted by [/^data:(.+);base64,(.+)$/] is made of its two
    groups. *)
Lemma matchDataUrl_sound s g1 g2 :
  matchDataUrl s = Some (g1, g2) -> s = "data:" +:+ g1 +:+ ";base64," +:+ g2.
Proof.
  unfold matchDataUrl. destruct (stripPrefix "data:" s) as [rest|] eqn:Hs;
    [|discriminate].
  intros H. apply matchGroups_sound in H. apply stripPrefix_sound in Hs.
  rewrite Hs, H. reflexivity.
Qed.

End Strings.

Lemma imageDataOfUrl_consistent (dataUrl : string) (img : ImageData) :
  ImageUtils.imageDataOfUrl dataUrl = Some img -> consistent img.
Proof.
  unfold ImageUtils.imageDataOfUrl, consistent.
  destruct (JsString.matchDataUrl dataUrl) as [[g1 g2]|] eqn:Hm; [|discriminate].
  intros [= <-]. cbn. by apply matchDataUrl_sound.
Qed.

(* ===================================================================== *)
(** ** Properties of the editor and of the image constructors            *)
(* ===================================================================== *)

(** C9.  When the prompt is empty or made of white space only, the
    generation handler leaves the state as it is and does nothing but show
    the error toast: [generateOrEditImage] is not called.  For any other
    prompt the handler starts by calling it. *)
Theorem blank_prompt_not_generated
    (API_KEY : string)
    (upstream : nat -> nat -> list GeminiService.Part ->
                Settled GeminiService.GenerateContentResponse * Z)
    (s : ImageEditor.EditorState) :
  (JsString.allWhiteSpace (ImageEditor.prompt s) = true ->
   ImageEditor.handleGenerate API_KEY upstream s
   = (s, [ImageEditor.ToastError "Please enter a topic for your blog image"]) /\
   forall p img,
     ImageEditor.CallGenerateOrEditImage p img
       ∉ (ImageEditor.handleGenerate API_KEY upstream s).2) /\
  (JsString.allWhiteSpace (ImageEditor.prompt s) = false ->
   head (ImageEditor.handleGenerate API_KEY upstream s).2
   = Some (ImageEditor.CallGenerateOrEditImage (ImageEditor.prompt s)
             (ImageEditor.originalImage s))).
Proof.
  unfold ImageEditor.handleGenerate. rewrite isEmpty_trim.
  split; intros ->.
  - split; [done|]. intros p img Hin.
    apply list_elem_of_singleton in Hin. discriminate.
  - destruct (GeminiService.generateOrEditImage _ _ _ _) as [run|]; [|done].
    by destruct (GeminiService.outcome run).
Qed.

(** A prompt of three spaces. *)
Lemma blank_prompt_not_generated_witness :
  let s := ImageEditor.setPrompt (freshEditor (Some sampleImage)) "   " in
  JsString.allWhiteSpace (ImageEditor.prompt s) = true /\
  ImageEditor.handleGenerate "key" sampleUpstream s
  = (s, [ImageEditor.ToastError "Please enter a topic for your blog image"]).
Proof.
  intros s. split; [reflexivity|].
  exact (proj1 (proj1 (blank_prompt_not_generated "key" sampleUpstream s)
                  eq_refl)).
Defined.

(** C10.  Every image built by [generateSingleRequest], [fileToImageData]
    and [getCroppedImg] (and by the save of a paint session) is consistent:
    its [url] is ["data:" + mimeType + ";base64," + data].  The image of a
    response takes its payload from the first part with inline data, and
    its media type too, with [image/png] when that part has none. *)
Theorem image_data_consistent :
  (forall (W : Type)
          (ai : list GeminiService.Part ->
                Async UpstreamEvent W GeminiService.GenerateContentResponse)
          parts w img w1 t,
     GeminiService.generateSingleRequest ai parts w = (Fulfilled img, w1, t) ->
     consistent img) /\
  (forall read img,
     ImageUtils.fileToImageData read = Fulfilled img -> consistent img) /\
  (forall image hasContext toDataURL pixelCrop img,
     ImageUtils.getCroppedImg image hasContext toDataURL pixelCrop
       = Fulfilled img ->
     consistent img) /\
  (forall toDataURL s img,
     ImageEditor.originalImage (ImageEditor.handleSavePaint toDataURL s).1
       = Some img ->
     ImageEditor.originalImage s = Some img \/ consistent img) /\
  (forall response img,
     GeminiService.imageOfResponse response = Fulfilled img ->
     exists p blob,
       List.find (fun p => bool_decide (is_Some (GeminiService.inlineData p)))
         (firstCandidateParts response) = Some p /\
       GeminiService.inlineData p = Some blob /\
       data img = GeminiService.blob_data blob /\
       (GeminiService.blob_mimeType blob = None -> mimeType img = "image/png") /\
       (forall m, GeminiService.blob_mimeType blob = Some m ->
                  m <> EmptyString -> mimeType img = m)).
Proof.
  split.
  { intros W ai parts w img w1 t. unfold GeminiService.generateSingleRequest.
    destruct (ai parts w) as [[[response|e] w'] t']; [|discriminate].
    intros [= H _ _]. by eapply imageOfResponse_consistent. }
  split.
  { intros [result|e] img; cbn; [|discriminate].
    destruct (ImageUtils.imageDataOfUrl result) as [img'|] eqn:Hu; [|discriminate].
    intros [= <-]. by eapply imageDataOfUrl_consistent. }
  split.
  { intros [[]|e] hasContext toDataURL pixelCrop img; cbn; [|discriminate].
    destruct hasContext; cbn; [|discriminate].
    destruct (ImageUtils.imageDataOfUrl _) as [img'|] eqn:Hu; [|discriminate].
    intros [= <-]. by eapply imageDataOfUrl_consistent. }
  split.
  { intros toDataURL s img. unfold ImageEditor.handleSavePaint.
    destruct (ImageEditor.canvasMounted s); [|by left].
    destruct (ImageEditor.originalImage s) as [old|] eqn:Hold;
      [|cbn; rewrite Hold; by left].
    destruct (ImageUtils.imageDataOfUrl _) as [img'|] eqn:Hu; cbn.
    - intros [= <-]. right. by eapply imageDataOfUrl_consistent.
    - rewrite Hold. by left. }
  intros response img.
  unfold GeminiService.imageOfResponse, firstCandidateParts.
  destruct (GeminiService.candidates response) as [[|first rest]|];
    try discriminate.
  destruct (GeminiService.content first) as [[[[|p0 ps]|]]|];
    cbn -[List.find]; try discriminate.
  destruct (List.find _ _) as [[[blob|] ?]|]; try discriminate.
  intros [= <-]. eexists _, blob. split; [reflexivity|]. split; [reflexivity|].
  split; [reflexivity|]. cbn. split.
  - by intros ->.
  - intros m -> Hm. cbn. by destruct m.
Qed.

(** The image of attempt 1 of the sample service, and the image of a
    file read as a data URL. *)
Lemma image_data_consistent_witness :
  GeminiService.generateSingleRequest (GeminiService.client sampleUpstream 1)
    [] 0%nat
  = (Fulfilled sampleImage, 1%nat, [EvCall 900]) /\
  consistent sampleImage /\
  ImageUtils.fileToImageData (Fulfilled "data:text/plain;base64,aGk=")
  = Fulfilled {| data := "aGk="; mimeType := "text/plain";
                 url := "data:text/plain;base64,aGk=" |} /\
  consistent {| data := "aGk="; mimeType := "text/plain";
                url := "data:text/plain;base64,aGk=" |}.
Proof.
  destruct image_data_consistent as (Hgen & Hfile & _).
  split; [reflexivity|]. split.
  - exact (Hgen nat (GeminiService.client sampleUpstream 1) [] 0%nat
             sampleImage 1%nat [EvCall 900] eq_refl).
  - split; [reflexivity|].
    exact (Hfile (Fulfilled "data:text/plain;base64,aGk=") _ eq_refl).
Defined.

(* ===================================================================== *)
(** ** Properties of the suggestions                                      *)
(* ===================================================================== *)

(** C7 (as amended).  [generateEditSuggestions] is always fulfilled.
    Without an API key it gives the empty list and makes no upstream call.
    With a key and no source image it gives the fixed list of 5 suggestions
    and makes no upstream call.  With a key and a source image it makes one
    upstream call, is not retried, and gives at most 3 entries: the empty
    list when the call fails, when the response has no text, when the text
    stripped of its code-fence markers and trimmed does not parse, or when
    it parses to something other than an array; otherwise the first three
    entries of the parsed array, which are strings when the array is made
    of strings. *)
Theorem suggestions_never_fail {W : Type}
    (API_KEY : string) (JSON_parse : string -> option Json)
    (ai : list GeminiService.Part ->
          Async UpstreamEvent W GeminiService.GenerateContentResponse)
    (originalImage : option ImageData) (w : W) :
  exists l,
    (GeminiService.generateEditSuggestions API_KEY JSON_parse ai
       originalImage w).1.1 = Fulfilled l /\
    (JsString.isEmpty API_KEY = true ->
     GeminiService.generateEditSuggestions API_KEY JSON_parse ai
       originalImage w = (Fulfilled [], w, [])) /\
    (JsString.isEmpty API_KEY = false -> originalImage = None ->
     GeminiService.generateEditSuggestions API_KEY JSON_parse ai
       originalImage w = (Fulfilled GeminiService.staticSuggestions, w, []) /\
     length GeminiService.staticSuggestions = 5%nat) /\
    (JsString.isEmpty API_KEY = false ->
     forall img r w1 t,
       originalImage = Some img ->
       ai (GeminiService.suggestionParts img) w = (r, w1, t) ->
       GeminiService.generateEditSuggestions API_KEY JSON_parse ai
         originalImage w = (Fulfilled l, w1, [EvInvoke t]) /\
       (length l <= 3)%nat /\
       (isRejected r = true -> l = []) /\
       (forall response,
          r = Fulfilled response ->
          GeminiService.response_text response = None \/
          GeminiService.response_text response = Some EmptyString ->
          l = []) /\
       (forall response text,
          r = Fulfilled response ->
          GeminiService.response_text response = Some text ->
          text <> EmptyString ->
          match JSON_parse (JsString.trim (JsString.removeFences 0 text)) with
          | Some (JArray items) =>
              l = take 3 items /\ (Forall isJString items -> Forall isJString l)
          | _ => l = []
          end)).
Proof.
  unfold GeminiService.generateEditSuggestions.
  destruct (JsString.isEmpty API_KEY) eqn:Hkey.
  { exists []. repeat split; done. }
  destruct originalImage as [img|].
  2: { exists GeminiService.staticSuggestions. repeat split; done. }
  destruct (suggestions_retry JSON_parse ai img w) as (l & Hretry & Hop & Hlen).
  exists l. split; [by rewrite Hretry|]. split; [done|]. split; [done|].
  intros _ img' r w1 t [= <-] Hai.
  rewrite Hretry, Hai. cbn [fst snd]. split; [done|]. split; [done|].
  unfold GeminiService.suggestionOperation in Hop. rewrite Hai in Hop.
  split; [|split].
  - intros Hr. destruct r; [discriminate|]. cbn in Hop. congruence.
  - intros response -> [Ht|Ht]; rewrite Ht in Hop; cbn in Hop; congruence.
  - intros response text -> Ht Hne. rewrite Ht in Hop.
    destruct text; [done|]. cbn [JsString.isEmpty] in Hop.
    destruct (JSON_parse _) as [[| | | |items|]|]; cbn in Hop; try congruence.
    injection Hop as <-. split; [done|]. apply Forall_take.
Qed.

(** A fenced answer holding four topics gives the first three. *)
Lemma suggestions_never_fail_witness :
  JsString.isEmpty "key" = false /\
  GeminiService.generateEditSuggestions "key" sampleJsonParse sampleTextClient
    (Some sampleImage) tt
  = (Fulfilled [JString "Tea"; JString "Coffee"; JString "Cocoa"], tt,
     [EvInvoke [EvCall 120]]).
Proof.
  split; [reflexivity|].
  destruct (suggestions_never_fail "key" sampleJsonParse sampleTextClient
              (Some sampleImage) tt) as (l & _ & _ & _ & Himg).
  destruct (Himg eq_refl sampleImage _ _ _ eq_refl eq_refl)
    as (Hrun & _ & _ & _ & Hparsed).
  rewrite Hrun.
  specialize (Hparsed _ _ eq_refl eq_refl ltac:(discriminate)).
  cbn in Hparsed. destruct Hparsed as [-> _]. reflexivity.
Defined.

(** C7 (as stated) fails without an API key: with no source image the
    result is the empty list, not the list of 5 suggestions. *)
Lemma suggestions_without_key :
  GeminiService.generateEditSuggestions "" sampleJsonParse sampleTextClient
    None tt
  = (Fulfilled [], tt, []) /\
  (GeminiService.generateEditSuggestions "" sampleJsonParse sampleTextClient
     None tt).1.1
  <> Fulfilled GeminiService.staticSuggestions.
Proof. split; [reflexivity|discriminate]. Qed.

(* ===================================================================== *)
(** ** Resize geometry                                                    *)
(* ===================================================================== *)

(** *** Rounding to binary64 *)

Section Rounding.

Import Binary64.
Local Open Scope Q_scope.

Lemma pow2_pos (e : Z) : 0 < 2 ^ e.
Proof. apply Qpower_0_lt. reflexivity. Qed.

Lemma pow2_succ (e : Z) : 2 ^ (e + 1) == 2 * 2 ^ e.
Proof. rewrite Qpower_plus by discriminate. rewrite Qpower_1_r. ring. Qed.

Lemma pow2_pred (e : Z) : 2 ^ (e - 1) == 2 ^ e / 2.
Proof. rewrite Qpower_minus by discriminate. by rewrite Qpower_1_r. Qed.

Lemma pow2_inject (n : Z) : (0 <= n)%Z -> inject_Z (2 ^ n) == 2 ^ n.
Proof. intros H. by rewrite Zpower_Qpower. Qed.

(** A positive integer lies between the powers of two around its
    logarithm. *)
Lemma log2_bounds (n : Z) :
  (0 < n)%Z ->
  2 ^ Z.log2 n <= inject_Z n /\ inject_Z n < 2 * 2 ^ Z.log2 n.
Proof.
  intros Hn. destruct (Z.log2_spec n Hn) as [Hlo Hhi].
  pose proof (Z.log2_nonneg n) as Hnn.
  rewrite <- pow2_succ.
  rewrite <- !pow2_inject by lia. rewrite <- Zle_Qle, <- Zlt_Qlt.
  split; [exact Hlo|]. by rewrite <- Z.add_1_r in Hhi.
Qed.

Lemma exponent_spec (x : Q) :
  0 < x -> 2 ^ exponent x <= x /\ x < 2 * 2 ^ exponent x.
Proof.
  intros Hx. unfold exponent.
  destruct x as [n d]. cbn [Qnum Qden].
  assert (Hn : (0 < n)%Z).
  { unfold Qlt in Hx. cbn in Hx. lia. }
  destruct (log2_bounds n Hn) as [Hnlo Hnhi].
  destruct (log2_bounds (Z.pos d) eq_refl) as [Hdlo Hdhi].
  set (ln := Z.log2 n) in *. set (ld := Z.log2 (Z.pos d)) in *.
  pose proof (pow2_pos ln) as Pn. pose proof (pow2_pos ld) as Pd.
  assert (Hk : 2 ^ (ln - ld) == 2 ^ ln / 2 ^ ld)
    by (by rewrite Qpower_minus).
  assert (Hx' : n # d == inject_Z n / inject_Z (Z.pos d)).
  { rewrite Qmake_Qdiv. reflexivity. }
  assert (Hd0 : 0 < inject_Z (Z.pos d)) by reflexivity.
  assert (Hn0 : 0 < inject_Z n) by (by rewrite <- (Zlt_Qlt 0)).
  set (x := n # d) in *. clearbody x.
  pose proof (pow2_pred (ln - ld)) as Hpred.
  destruct (Qlt_le_dec x (2 ^ (ln - ld))) as [Hlt|Hle].
  2: clear Hpred.
  all: revert Hx'.
  1: revert Hlt Hpred. 2: revert Hle.
  1: generalize (2 ^ (ln - ld - 1)).
  all: generalize dependent (inject_Z n).
  all: generalize dependent (inject_Z (Z.pos d)).
  all: generalize dependent (2 ^ ln); generalize dependent (2 ^ ld).
  all: generalize dependent (2 ^ (ln - ld)).
  all: intros k b Pd a Pn Hk dd Hdlo Hdhi Hd0 nn Hnlo Hnhi Hn0.
  1: intros kp Hlt Hpred Hx'. 2: intros Hle Hx'.
  all: assert (Hxd : x * dd == nn) by (rewrite Hx'; field; lra).
  all: assert (Hkb : k * b == a) by (rewrite Hk; field; lra).
  all: clear Hk Hx'.
  all: assert (Hk0 : 0 < k) by (apply (Qmult_lt_r _ _ b Pd); lra).
  - assert (H1 : x * dd < x * (2 * b)) by (apply Qmult_lt_l; lra).
    assert (H2 : k * b < 2 * x * b) by lra.
    apply (proj1 (Qmult_lt_r _ _ b Pd)) in H2.
    rewrite Hpred. split; [apply Qle_shift_div_r; lra|].
    setoid_replace (2 * (k / 2)) with k using relation Qeq by field. exact Hlt.
  - split; [exact Hle|].
    assert (H1 : 2 * k * b <= 2 * k * dd) by (apply Qmult_le_l; lra).
    assert (H2 : x * dd < 2 * k * dd) by lra.
    by apply (proj1 (Qmult_lt_r _ _ dd Hd0)) in H2.
Qed.

Lemma nearestEven_spec (s : Q) :
  Qabs (inject_Z (nearestEven s) - s) <= 1 # 2.
Proof.
  unfold nearestEven.
  pose proof (Qfloor_le s) as Hlo. pose proof (Qlt_floor s) as Hhi.
  rewrite inject_Z_plus in Hhi. change (inject_Z 1) with 1 in Hhi.
  set (f := Qfloor s) in *.
  apply Qabs_Qle_condition.
  destruct (Qcompare_spec (s - inject_Z f) (1 # 2)) as [E|L|G].
  - destruct (Z.even f); [|rewrite inject_Z_plus; change (inject_Z 1) with 1];
      lra.
  - lra.
  - rewrite inject_Z_plus. change (inject_Z 1) with 1. lra.
Qed.

Lemma roundPositive_error (x : Q) :
  0 < x -> Qabs (roundPositive x - x) <= x * unitRoundoff.
Proof.
  intros Hx. unfold roundPositive. rewrite Qred_correct.
  destruct (exponent_spec x Hx) as [Hlo _].
  set (e := exponent x) in *.
  pose proof (nearestEven_spec (x * 2 ^ (52 - e))) as Hm.
  set (m := inject_Z (nearestEven (x * 2 ^ (52 - e)))) in *.
  pose proof (pow2_pos (e - 52)) as Pe.
  assert (Einv : 2 ^ (52 - e) * 2 ^ (e - 52) == 1).
  { rewrite <- Qpower_plus by discriminate.
    replace (52 - e + (e - 52))%Z with 0%Z by lia. reflexivity. }
  assert (E : m * 2 ^ (e - 52) - x == (m - x * 2 ^ (52 - e)) * 2 ^ (e - 52)).
  { transitivity (m * 2 ^ (e - 52) - x * (2 ^ (52 - e) * 2 ^ (e - 52)));
      [rewrite Einv|]; ring. }
  rewrite E, Qabs_Qmult, (Qabs_pos (2 ^ (e - 52))) by lra.
  apply Qle_trans with ((1 # 2) * 2 ^ (e - 52)).
  { apply Qmult_le_compat_r; [exact Hm|lra]. }
  assert (E53 : 2 ^ (e - 52) == 2 ^ e * (1 # 4503599627370496)).
  { rewrite Qpower_minus by discriminate. reflexivity. }
  rewrite E53. unfold unitRoundoff.
  setoid_replace ((1 # 2) * (2 ^ e * (1 # 4503599627370496)))
    with (2 ^ e * (1 # 9007199254740992)) using relation Qeq by ring.
  apply Qmult_le_compat_r; [exact Hlo|discriminate].
Qed.

Lemma round_error (x : Q) : Qabs (round x - x) <= Qabs x * unitRoundoff.
Proof.
  unfold round. destruct (Qcompare_spec x 0) as [E|L|G].
  - rewrite E. cbn. discriminate.
  - assert (Hn : 0 < - x) by lra.
    pose proof (roundPositive_error (- x) Hn) as H.
    rewrite (Qabs_neg x) by lra.
    setoid_replace (- roundPositive (- x) - x)
      with (- (roundPositive (- x) - - x)) using relation Qeq by ring.
    by rewrite Qabs_opp.
  - rewrite (Qabs_pos x) by lra. by apply roundPositive_error.
Qed.

End Rounding.

Section RoundingBounds.

Import Binary64.
Local Open Scope Q_scope.

Lemma round_zero (x : Q) : x == 0 -> round x = 0.
Proof. intros E. unfold round. apply Qeq_alt in E. by rewrite E. Qed.

Lemma round_nonneg (x : Q) :
  0 <= x -> x * (1 - unitRoundoff) <= round x /\ round x <= x * (1 + unitRoundoff).
Proof.
  intros Hx. pose proof (round_error x) as H.
  rewrite (Qabs_pos x) in H by done.
  apply Qabs_Qle_condition in H. unfold unitRoundoff in *.
  generalize dependent (round x). intros y H. split; lra.
Qed.

Lemma round_nonpos (x : Q) :
  x <= 0 -> x * (1 + unitRoundoff) <= round x /\ round x <= x * (1 - unitRoundoff).
Proof.
  intros Hx. pose proof (round_error x) as H.
  rewrite (Qabs_neg x) in H by done.
  apply Qabs_Qle_condition in H. unfold unitRoundoff in *.
  generalize dependent (round x). intros y H. split; lra.
Qed.

Lemma round_pos (x : Q) : 0 < x -> 0 < round x.
Proof.
  intros Hx. destruct (round_nonneg x) as [H _]; [lra|].
  unfold unitRoundoff in H. generalize dependent (round x). intros y H. lra.
Qed.

Lemma round_neg (x : Q) : x < 0 -> round x < 0.
Proof.
  intros Hx. destruct (round_nonpos x) as [_ H]; [lra|].
  unfold unitRoundoff in H. generalize dependent (round x). intros y H. lra.
Qed.

(** The quotient, stated without division: [div a b * b] is [a] up to one
    rounding. *)
Lemma div_bounds (a b : Q) :
  0 <= a -> 0 < b ->
  a * (1 - unitRoundoff) <= div a b * b /\ div a b * b <= a * (1 + unitRoundoff).
Proof.
  intros Ha Hb. unfold div.
  assert (Hq : 0 <= a / b) by (apply Qle_shift_div_l; lra).
  destruct (round_nonneg (a / b) Hq) as [Hlo Hhi].
  assert (E : a / b * b == a) by (field; lra).
  generalize dependent (round (a / b)). intros y Hlo Hhi.
  apply (Qmult_le_compat_r _ _ b) in Hlo; [|lra].
  apply (Qmult_le_compat_r _ _ b) in Hhi; [|lra].
  assert (E1 : a / b * (1 - unitRoundoff) * b == a * (1 - unitRoundoff))
    by (field; lra).
  assert (E2 : a / b * (1 + unitRoundoff) * b == a * (1 + unitRoundoff))
    by (field; lra).
  rewrite E1 in Hlo. rewrite E2 in Hhi. by split.
Qed.

Lemma div_pos (a b : Q) : 0 < a -> 0 < b -> 0 < div a b.
Proof.
  intros Ha Hb. apply round_pos. apply Qlt_shift_div_l; lra.
Qed.

End RoundingBounds.


Section ResizeBinary64.

Import Binary64.
Local Open Scope Q_scope.

Variables iw ih tw th : Q.
Hypothesis Hiw : 0 < iw.
Hypothesis Hih : 0 < ih.
Hypothesis Htw : 0 < tw.
Hypothesis Hth : 0 < th.

Local Abbreviation ia := (div iw ih).
Local Abbreviation ta := (div tw th).
Local Abbreviation X := (mul th (div iw ih)).
Local Abbreviation Y := (div tw (div iw ih)).

Lemma imgAspect_pos : 0 < ia.
Proof. by apply div_pos. Qed.

(** The width computed from the height, against the source. *)
Lemma scaledWidth_bounds :
  th * iw * ((1 - unitRoundoff) * (1 - unitRoundoff)) <= X * ih /\
  X * ih <= th * iw * ((1 + unitRoundoff) * (1 + unitRoundoff)) /\
  0 < X.
Proof.
  pose proof imgAspect_pos as Ha.
  destruct (div_bounds iw ih) as [Hlo Hhi]; [lra|done|].
  assert (Hp : 0 <= th * ia) by (apply Qmult_le_0_compat; lra).
  destruct (round_nonneg (th * ia) Hp) as [Xlo Xhi].
  assert (Xpos : 0 < X).
  { apply round_pos. apply Qmult_lt_0_compat; lra. }
  fold (mul th ia) in Xlo, Xhi.
  generalize dependent X. intros x Xlo Xhi Xpos.
  apply (Qmult_le_compat_r _ _ ih) in Xlo; [|lra].
  apply (Qmult_le_compat_r _ _ ih) in Xhi; [|lra].
  apply (Qmult_le_compat_r _ _ th) in Hlo; [|lra].
  apply (Qmult_le_compat_r _ _ th) in Hhi; [|lra].
  generalize dependent ia. intros a Ha Hlo Hhi _ Xlo Xhi.
  unfold unitRoundoff in *.
  repeat split; [| |done].
  - clear Xhi Hhi. lra.
  - clear Xlo Hlo. lra.
Qed.

(** The height computed from the width, against the source. *)
Lemma scaledHeight_bounds :
  tw * ih * (1 - unitRoundoff) <= Y * iw * (1 + unitRoundoff) /\
  Y * iw * (1 - unitRoundoff) <= tw * ih * (1 + unitRoundoff) /\
  0 < Y.
Proof.
  pose proof imgAspect_pos as Ha.
  destruct (div_bounds iw ih) as [Hlo Hhi]; [lra|done|].
  destruct (div_bounds tw ia) as [Ylo Yhi]; [lra|done|].
  assert (Ypos : 0 < Y) by (by apply div_pos).
  generalize dependent Y. intros y Ylo Yhi Ypos.
  apply (Qmult_le_compat_r _ _ ih) in Ylo; [|lra].
  apply (Qmult_le_compat_r _ _ ih) in Yhi; [|lra].
  apply (Qmult_le_compat_r _ _ y) in Hlo; [|lra].
  apply (Qmult_le_compat_r _ _ y) in Hhi; [|lra].
  generalize dependent ia. intros a Ha Hlo Hhi Ylo Yhi.
  unfold unitRoundoff in *.
  repeat split; [| |done].
  - clear Yhi Hlo. lra.
  - clear Ylo Hhi. lra.
Qed.

(** The comparison of the computed aspect ratios, against the sources. *)
Lemma aspects_compared :
  (ta < ia -> tw * ih * (1 - unitRoundoff) < iw * th * (1 + unitRoundoff)) /\
  (ia <= ta -> iw * th * (1 - unitRoundoff) <= tw * ih * (1 + unitRoundoff)).
Proof.
  pose proof imgAspect_pos as Ha.
  destruct (div_bounds iw ih) as [Ilo Ihi]; [lra|done|].
  destruct (div_bounds tw th) as [Tlo Thi]; [lra|done|].
  generalize dependent ia. generalize dependent ta.
  intros t Tlo Thi a Ha Ilo Ihi.
  apply (Qmult_le_compat_r _ _ th) in Ilo; [|lra].
  apply (Qmult_le_compat_r _ _ th) in Ihi; [|lra].
  apply (Qmult_le_compat_r _ _ ih) in Tlo; [|lra].
  apply (Qmult_le_compat_r _ _ ih) in Thi; [|lra].
  assert (Hp : 0 < th * ih) by (apply Qmult_lt_0_compat; lra).
  unfold unitRoundoff in *. split; intros Hc.
  - apply (Qmult_lt_compat_r _ _ (th * ih) Hp) in Hc.
    clear Ilo Thi. lra.
  - apply (Qmult_le_compat_r _ _ (th * ih)) in Hc; [|lra].
    clear Ihi Tlo. lra.
Qed.

Section Wider.

(** The source is wider than the target: its aspect ratio is larger, by
    at least one part in [2 ^ 48]. *)
Hypothesis Hgap : tw * ih + 1 <= iw * th.
Hypothesis Hbound : tw * ih <= 281474976710656.

Lemma wider_branch : ta < ia.
Proof.
  destruct (Qlt_le_dec ta ia) as [H|H]; [done|exfalso].
  apply (proj2 aspects_compared) in H.
  unfold unitRoundoff in *. lra.
Qed.

Lemma wider_width : tw < X.
Proof.
  destruct scaledWidth_bounds as (Hlo & _ & _).
  apply (Qmult_lt_r _ _ ih Hih). unfold unitRoundoff in *. lra.
Qed.

Lemma wider_height : Y < th.
Proof.
  destruct scaledHeight_bounds as (_ & Hhi & _).
  apply (Qmult_lt_r _ _ iw Hiw). unfold unitRoundoff in *. lra.
Qed.

End Wider.

Section Narrower.

Hypothesis Hgap : iw * th + 1 <= tw * ih.
Hypothesis Hbound : tw * ih <= 281474976710656.

Lemma narrower_branch : ia <= ta.
Proof.
  destruct (Qlt_le_dec ta ia) as [H|H]; [exfalso|done].
  apply (proj1 aspects_compared) in H.
  unfold unitRoundoff in *. lra.
Qed.

Lemma narrower_width : X < tw.
Proof.
  destruct scaledWidth_bounds as (_ & Hhi & _).
  apply (Qmult_lt_r _ _ ih Hih). unfold unitRoundoff in *. lra.
Qed.

Lemma narrower_height : th < Y.
Proof.
  destruct scaledHeight_bounds as (Hlo & _ & _).
  apply (Qmult_lt_r _ _ iw Hiw). unfold unitRoundoff in *. lra.
Qed.

End Narrower.

(** Whatever the aspect ratios, the branch taken makes the free axis of
    [cover] reach the canvas, and that of [contain] stay within it, up to
    rounding. *)
Lemma wider_branch_approx :
  ta < ia ->
  tw * (1 - roundingTolerance) <= X /\ Y <= th * (1 + roundingTolerance).
Proof.
  intros Hc. apply (proj1 aspects_compared) in Hc.
  destruct scaledWidth_bounds as (Xlo & _ & _).
  destruct scaledHeight_bounds as (_ & Yhi & _).
  assert (P : 0 < tw * ih) by (apply Qmult_lt_0_compat; lra).
  assert (P' : 0 < th * iw) by (apply Qmult_lt_0_compat; lra).
  split.
  - apply (Qmult_le_r _ _ ih Hih).
    unfold unitRoundoff, roundingTolerance in *. clear Yhi. lra.
  - apply (Qmult_le_r _ _ iw Hiw).
    unfold unitRoundoff, roundingTolerance in *. clear Xlo. lra.
Qed.

Lemma narrower_branch_approx :
  ia <= ta ->
  th * (1 - roundingTolerance) <= Y /\ X <= tw * (1 + roundingTolerance).
Proof.
  intros Hc. apply (proj2 aspects_compared) in Hc.
  destruct scaledWidth_bounds as (_ & Xhi & _).
  destruct scaledHeight_bounds as (Ylo & _ & _).
  assert (P : 0 < tw * ih) by (apply Qmult_lt_0_compat; lra).
  assert (P' : 0 < th * iw) by (apply Qmult_lt_0_compat; lra).
  split.
  - apply (Qmult_le_r _ _ iw Hiw).
    unfold unitRoundoff, roundingTolerance in *. clear Xhi. lra.
  - apply (Qmult_le_r _ _ ih Hih).
    unfold unitRoundoff, roundingTolerance in *. clear Ylo. lra.
Qed.

(** With equal aspect ratios both computed sizes are the target's, up to
    rounding. *)
Lemma equal_aspect_approx :
  iw * th == tw * ih ->
  Qabs (X - tw) <= roundingTolerance * tw /\
  Qabs (Y - th) <= roundingTolerance * th.
Proof.
  intros E.
  destruct scaledWidth_bounds as (Xlo & Xhi & _).
  destruct scaledHeight_bounds as (Ylo & Yhi & _).
  assert (P : 0 < tw * ih) by (apply Qmult_lt_0_compat; lra).
  assert (P' : 0 < th * iw) by (apply Qmult_lt_0_compat; lra).
  split; apply Qabs_Qle_condition; split.
  - apply (Qmult_le_r _ _ ih Hih).
    unfold unitRoundoff, roundingTolerance in *. clear Ylo Yhi. lra.
  - apply (Qmult_le_r _ _ ih Hih).
    unfold unitRoundoff, roundingTolerance in *. clear Ylo Yhi. lra.
  - apply (Qmult_le_r _ _ iw Hiw).
    unfold unitRoundoff, roundingTolerance in *. clear Xlo Xhi. lra.
  - apply (Qmult_le_r _ _ iw Hiw).
    unfold unitRoundoff, roundingTolerance in *. clear Xlo Xhi. lra.
Qed.

End ResizeBinary64.

Section Offsets.

Import Binary64.
Local Open Scope Q_scope.

Lemma Qhalf (x : Q) : x / 2 == x * (1 # 2).
Proof. reflexivity. Qed.

(** The offset that centres a drawn size in a target size. *)
Lemma offset_bounds (target drawn : Q) :
  let o := div (sub target drawn) 2 in
  (drawn < target -> 0 < o /\ o + drawn < target) /\
  (target < drawn -> o < 0 /\ target < o + drawn) /\
  (drawn == target -> o = 0) /\
  Qabs (2 * o + drawn - target)
    <= roundingTolerance * Qabs (target - drawn).
Proof.
  cbv zeta. unfold div, sub.
  set (d := target - drawn).
  assert (Ed : forall o, 2 * o + drawn - target == 2 * o - d)
    by (intros o; unfold d; ring).
  setoid_rewrite Ed. clear Ed.
  assert (Hd : drawn < target <-> 0 < d) by (unfold d; split; lra).
  assert (Hd' : target < drawn <-> d < 0) by (unfold d; split; lra).
  assert (Hd0 : drawn == target <-> d == 0) by (unfold d; split; lra).
  rewrite Hd, Hd', Hd0. clear Hd Hd' Hd0.
  assert (Hdef : d == target - drawn) by reflexivity. clearbody d.
  destruct (Qlt_le_dec 0 d) as [Hpos|Hle];
    [|destruct (Qlt_le_dec d 0) as [Hneg|Hge]].
  - destruct (round_nonneg d) as [Slo Shi]; [lra|].
    pose proof (round_pos d Hpos) as Spos.
    generalize dependent (round d). intros s Slo Shi Spos.
    assert (Hh : 0 < s / 2) by (rewrite Qhalf; lra).
    destruct (round_nonneg (s / 2)) as [Olo Ohi]; [lra|].
    pose proof (round_pos (s / 2) Hh) as Opos.
    generalize dependent (round (s / 2)). intros o Olo Ohi Opos.
    rewrite Qhalf in Olo, Ohi. clear Hh.
    unfold unitRoundoff, roundingTolerance in *.
    split; [intros _; split; lra|]. split; [intros; lra|].
    split; [intros; lra|].
    rewrite (Qabs_pos d) by lra. apply Qabs_Qle_condition. split; lra.
  - destruct (round_nonpos d) as [Slo Shi]; [lra|].
    pose proof (round_neg d Hneg) as Sneg.
    generalize dependent (round d). intros s Slo Shi Sneg.
    assert (Hh : s / 2 < 0) by (rewrite Qhalf; lra).
    destruct (round_nonpos (s / 2)) as [Olo Ohi]; [lra|].
    pose proof (round_neg (s / 2) Hh) as Oneg.
    generalize dependent (round (s / 2)). intros o Olo Ohi Oneg.
    rewrite Qhalf in Olo, Ohi. clear Hh.
    unfold unitRoundoff, roundingTolerance in *.
    split; [intros; lra|]. split; [intros _; split; lra|].
    split; [intros; lra|].
    rewrite (Qabs_neg d) by lra. apply Qabs_Qle_condition. split; lra.
  - assert (E : d == 0) by lra.
    rewrite (round_zero d E).
    assert (E2 : (0 / 2) == 0) by reflexivity.
    rewrite (round_zero _ E2).
    split; [intros; lra|]. split; [intros; lra|]. split; [done|].
    rewrite E. vm_compute. discriminate.
Qed.

End Offsets.

Section DrawnRectangles.

Import Binary64 ImageUtils.
Local Open Scope Q_scope.

Variables iw ih tw th : Q.
Hypothesis Hiw : 0 < iw.
Hypothesis Hih : 0 < ih.
Hypothesis Htw : 0 < tw.
Hypothesis Hth : 0 < th.

(** The rectangle drawn when the height is pinned to the canvas. *)
Local Abbreviation heightPinned :=
  (mkRect (div (sub tw (mul th (div iw ih))) 2) 0 (mul th (div iw ih)) th).

(** The rectangle drawn when the width is pinned to the canvas. *)
Local Abbreviation widthPinned :=
  (mkRect 0 (div (sub th (div tw (div iw ih))) 2) tw (div tw (div iw ih))).

Lemma pinned_axis_centered (t : Q) :
  Qabs (2 * 0 + t - t) <= roundingTolerance * Qabs (t - t).
Proof.
  assert (E1 : 2 * 0 + t - t == 0) by ring.
  assert (E2 : t - t == 0) by ring.
  rewrite E1, E2. vm_compute. discriminate.
Qed.

Lemma heightPinned_geometry :
  let r := heightPinned in
  nearlyCentered r tw th /\ nearlyUniformScale r iw ih /\
  (0 < rw r /\ 0 < rh r) /\
  (tw < rw r ->
   coversCanvas r tw th /\ ~ backgroundOnX r tw /\ ~ backgroundOnY r th) /\
  (rw r < tw ->
   insideCanvas r tw th /\ backgroundOnX r tw /\ ~ backgroundOnY r th).
Proof.
  cbv zeta. unfold nearlyCentered, nearlyUniformScale, coversCanvas,
    insideCanvas, backgroundOnX, backgroundOnY. cbn [rx ry rw rh].
  destruct (scaledWidth_bounds iw ih th Hiw Hih Hth) as (Xlo & Xhi & Xpos).
  destruct (offset_bounds tw (mul th (div iw ih))) as (Olt & Ogt & _ & Oc).
  generalize dependent (div (sub tw (mul th (div iw ih))) 2).
  generalize dependent (mul th (div iw ih)). intros x Xlo Xhi Xpos o Olt Ogt Oc.
  split; [split; [exact Oc|apply pinned_axis_centered]|].
  assert (P : 0 <= th * iw) by (apply Qmult_le_0_compat; lra).
  split.
  { apply Qabs_Qle_condition. unfold unitRoundoff, roundingTolerance in *.
    clear Olt Ogt Oc. split; lra. }
  split; [split; lra|]. clear Xlo Xhi Oc P. split.
  - intros H. destruct (Ogt H).
    repeat split; first [lra | intros [?|?]; lra].
  - intros H. destruct (Olt H).
    repeat split; first [lra | intros [?|?]; lra].
Qed.

Lemma widthPinned_geometry :
  let r := widthPinned in
  nearlyCentered r tw th /\ nearlyUniformScale r iw ih /\
  (0 < rw r /\ 0 < rh r) /\
  (th < rh r ->
   coversCanvas r tw th /\ ~ backgroundOnX r tw /\ ~ backgroundOnY r th) /\
  (rh r < th ->
   insideCanvas r tw th /\ backgroundOnY r th /\ ~ backgroundOnX r tw).
Proof.
  cbv zeta. unfold nearlyCentered, nearlyUniformScale, coversCanvas,
    insideCanvas, backgroundOnX, backgroundOnY. cbn [rx ry rw rh].
  destruct (scaledHeight_bounds iw ih tw Hiw Hih Htw) as (Ylo & Yhi & Ypos).
  destruct (offset_bounds th (div tw (div iw ih))) as (Olt & Ogt & _ & Oc).
  generalize dependent (div (sub th (div tw (div iw ih))) 2).
  generalize dependent (div tw (div iw ih)). intros y Ylo Yhi Ypos o Olt Ogt Oc.
  split; [split; [apply pinned_axis_centered|exact Oc]|].
  assert (P : 0 <= y * iw) by (apply Qmult_le_0_compat; lra).
  split.
  { apply Qabs_Qle_condition. unfold unitRoundoff, roundingTolerance in *.
    clear Olt Ogt Oc. split; lra. }
  split; [split; lra|]. clear Ylo Yhi Oc P. split.
  - intros H. destruct (Ogt H).
    repeat split; first [lra | intros [?|?]; lra].
  - intros H. destruct (Olt H).
    repeat split; first [lra | intros [?|?]; lra].
Qed.

(** Which rectangle each mode draws. *)
Lemma drawRect_pinned :
  (div tw th < div iw ih ->
   drawRect iw ih tw th cover = heightPinned /\
   drawRect iw ih tw th contain = widthPinned) /\
  (div iw ih <= div tw th ->
   drawRect iw ih tw th cover = widthPinned /\
   drawRect iw ih tw th contain = heightPinned).
Proof.
  unfold drawRect. cbv zeta.
  destruct (Qlt_le_dec (div tw th) (div iw ih)) as [H|H]; split; try done.
  - intros H'. lra.
  - intros H'. lra.
Qed.

End DrawnRectangles.

Section PixelDimensions.

Local Open Scope Q_scope.

Lemma pixels_pos (n : Z) : pixels n -> 0 < inject_Z n.
Proof. intros [H _]. rewrite <- (Zlt_Qlt 0). lia. Qed.

Lemma pixels_product (a b : Z) :
  pixels a -> pixels b -> inject_Z a * inject_Z b <= 281474976710656.
Proof.
  intros [Ha1 Ha2] [Hb1 Hb2]. rewrite <- inject_Z_mult.
  change 281474976710656 with (inject_Z 281474976710656).
  rewrite <- Zle_Qle. nia.
Qed.

(** Integers that differ differ by one at least. *)
Lemma pixels_gap (a b : Z) :
  (a < b)%Z -> inject_Z a + 1 <= inject_Z b.
Proof.
  intros H. change 1 with (inject_Z 1).
  rewrite <- inject_Z_plus, <- Zle_Qle. lia.
Qed.

End PixelDimensions.


(** C6 (as amended).  Numbers are binary64 values.  For a source image and
    a target rectangle whose widths and heights are whole numbers of
    pixels from 1 to [2 ^ 24], [resizeImage] fills the canvas with white
    and then draws the image once.  In [stretch] mode it draws it on
    exactly the target rectangle, whatever the dimensions of the source.
    When the aspect ratio of the source differs from that of the target, in
    [cover] mode it draws it over a rectangle that contains the canvas, so
    that no background is visible, and in [contain] mode within the canvas,
    with the white background visible on exactly one axis; in both modes
    the image is centred and drawn with one scale on both axes up to
    rounding, one part in [2 ^ 50]. *)
Theorem resize_fit_geometry (iw ih tw th : Z) :
  pixels iw -> pixels ih -> pixels tw -> pixels th ->
  let imgWidth := inject_Z iw in
  let imgHeight := inject_Z ih in
  let targetWidth := inject_Z tw in
  let targetHeight := inject_Z th in
  (forall fit,
     ImageUtils.resizeImage (Fulfilled (imgWidth, imgHeight)) true
       targetWidth targetHeight fit
     = Fulfilled
         [ ImageUtils.FillRectWhite
             (ImageUtils.mkRect 0 0 targetWidth targetHeight);
           ImageUtils.DrawImage
             (ImageUtils.drawRect imgWidth imgHeight targetWidth targetHeight
                fit) ]) /\
  (forall anyWidth anyHeight,
     ImageUtils.drawRect anyWidth anyHeight targetWidth targetHeight
       ImageUtils.stretch
     = ImageUtils.mkRect 0 0 targetWidth targetHeight) /\
  ((iw * th)%Z <> (tw * ih)%Z ->
   (let r := ImageUtils.drawRect imgWidth imgHeight targetWidth targetHeight
               ImageUtils.cover in
    coversCanvas r targetWidth targetHeight /\
    ~ backgroundOnX r targetWidth /\ ~ backgroundOnY r targetHeight /\
    nearlyCentered r targetWidth targetHeight /\
    nearlyUniformScale r imgWidth imgHeight) /\
   (let r := ImageUtils.drawRect imgWidth imgHeight targetWidth targetHeight
               ImageUtils.contain in
    insideCanvas r targetWidth targetHeight /\
    nearlyCentered r targetWidth targetHeight /\
    nearlyUniformScale r imgWidth imgHeight /\
    ((backgroundOnX r targetWidth /\ ~ backgroundOnY r targetHeight) \/
     (backgroundOnY r targetHeight /\ ~ backgroundOnX r targetWidth)))).
Proof.
  intros Piw Pih Ptw Pth. cbv zeta.
  pose proof (pixels_pos _ Piw) as Hiw. pose proof (pixels_pos _ Pih) as Hih.
  pose proof (pixels_pos _ Ptw) as Htw. pose proof (pixels_pos _ Pth) as Hth.
  pose proof (pixels_product _ _ Ptw Pih) as Hbound.
  split; [done|]. split; [done|]. intros Hne.
  destruct (drawRect_pinned (inject_Z iw) (inject_Z ih) (inject_Z tw)
              (inject_Z th)) as [Hwide Hnarrow].
  destruct (heightPinned_geometry _ _ (inject_Z tw) _ Hiw Hih Hth)
    as (Hc & Hu & _ & Hcover & Hinside).
  destruct (widthPinned_geometry _ _ _ (inject_Z th) Hiw Hih Htw)
    as (Wc & Wu & _ & Wcover & Winside).
  cbv zeta in *.
  destruct (Z.lt_total (iw * th) (tw * ih)) as [Hlt|[Heq|Hgt]]; [|done|].
  - assert (Hgap : (inject_Z iw * inject_Z th + 1
                    <= inject_Z tw * inject_Z ih)%Q).
    { rewrite <- !inject_Z_mult. by apply pixels_gap. }
    destruct Hnarrow as [-> ->];
      [by apply narrower_branch|].
    pose proof (narrower_width _ _ _ _ Hiw Hih Hth Hgap Hbound) as Hx.
    pose proof (narrower_height _ _ _ _ Hiw Hih Htw Hgap Hbound) as Hy.
    destruct (Wcover Hy) as (? & ? & ?). destruct (Hinside Hx) as (? & ? & ?).
    split; [done|]. split; [done|]. split; [done|]. split; [done|].
    by left.
  - assert (Hgap : (inject_Z tw * inject_Z ih + 1
                    <= inject_Z iw * inject_Z th)%Q).
    { rewrite <- !inject_Z_mult. by apply pixels_gap. }
    destruct Hwide as [-> ->];
      [by apply wider_branch|].
    pose proof (wider_width _ _ _ _ Hiw Hih Hth Hgap Hbound) as Hx.
    pose proof (wider_height _ _ _ _ Hiw Hih Htw Hgap Hbound) as Hy.
    destruct (Hcover Hx) as (? & ? & ?). destruct (Winside Hy) as (? & ? & ?).
    split; [done|]. split; [done|]. split; [done|]. split; [done|].
    by right.
Qed.

(** A 1920 by 1080 image onto a square of 1200. *)
Lemma resize_fit_geometry_witness :
  coversCanvas (ImageUtils.drawRect 1920 1080 1200 1200 ImageUtils.cover)
    1200 1200 /\
  insideCanvas (ImageUtils.drawRect 1920 1080 1200 1200 ImageUtils.contain)
    1200 1200 /\
  backgroundOnY (ImageUtils.drawRect 1920 1080 1200 1200 ImageUtils.contain)
    1200.
Proof.
  assert (P : forall n, (1 <=? n) && (n <=? 16777216) = true -> pixels n).
  { intros n [H1 H2]%andb_true_iff. unfold pixels. lia. }
  destruct (resize_fit_geometry 1920 1080 1200 1200
              (P 1920 eq_refl) (P 1080 eq_refl) (P 1200 eq_refl) (P 1200 eq_refl))
    as (_ & _ & H).
  destruct H as [(Hcover & _) (Hcontain & _ & _ & Hbg)]; [discriminate|].
  split; [exact Hcover|]. split; [exact Hcontain|].
  destruct Hbg as [[Hx Hy]|[Hy _]]; [|exact Hy].
  exfalso. vm_compute in Hx. destruct Hx as [Hx|Hx]; discriminate Hx.
Defined.

(** C6 (as stated) fails in [contain] mode when the source and the target
    have the same aspect ratio: a 100 by 100 image resized to 1200 by 1200
    is drawn on the whole canvas, so no background shows on any axis. *)
Lemma contain_same_aspect_no_background :
  let r := ImageUtils.drawRect 100 100 1200 1200 ImageUtils.contain in
  (ImageUtils.rx r == 0 /\ ImageUtils.ry r == 0 /\
   ImageUtils.rw r == 1200 /\ ImageUtils.rh r == 1200)%Q /\
  ~ (backgroundOnX r 1200 \/ backgroundOnY r 1200).
Proof.
  vm_compute. split; [repeat split|].
  intros [[H|H]|[H|H]]; discriminate H.
Qed.

(** With equal aspect ratios the rounding can leave [cover] short of the
    canvas: a 5 by 29 image resized to 5 by 29 is drawn from
    [y = 2 ^ -49], with a height below 29. *)
Example cover_same_aspect_rounding :
  let r := ImageUtils.drawRect 5 29 5 29 ImageUtils.cover in
  (ImageUtils.ry r == 1 # 562949953421312)%Q /\
  (ImageUtils.rh r < 29)%Q /\
  backgroundOnY r 29.
Proof. vm_compute. split; [reflexivity|]. split; [reflexivity|]. by left. Qed.

(** [Binary64] and the standard library's specification of binary64 give
    the same rectangles and the same coordinates. *)
Example drawRect_agrees_with_SpecFloat :
  forallb (fun '(iw, ih, tw, th) =>
             forallb (fun fit =>
                        sameRect
                          (ImageUtils.drawRect (inject_Z iw) (inject_Z ih)
                             (inject_Z tw) (inject_Z th) fit)
                          (drawRectSpec iw ih tw th fit))
               [ImageUtils.cover; ImageUtils.contain; ImageUtils.stretch])
    resizeProbes = true.
Proof. vm_compute. reflexivity. Qed.

Example coordinates_agree_with_SpecFloat :
  forallb (fun '(x, edge, size, bitmap) =>
             sameNumber
               (Binary64.mul (Binary64.sub (inject_Z x) (inject_Z edge))
                  (Binary64.div (inject_Z bitmap) (inject_Z size)))
               (coordinateSpec x edge size bitmap))
    coordinateProbes = true.
Proof. vm_compute. reflexivity. Qed.

(* ===================================================================== *)
(** * Further properties of the code                                     *)
(* ===================================================================== *)

(* ===================================================================== *)
(** ** Data URLs                                                          *)
(* ===================================================================== *)

Section DataUrls.

Import JsString.

Lemma append_cons c a b : String c a +:+ b = String c (a +:+ b).
Proof. reflexivity. Qed.

Lemma noLineTerminator_app a b :
  noLineTerminator (a +:+ b) = noLineTerminator a && noLineTerminator b.
Proof.
  induction a as [|c a IH]; [reflexivity|].
  rewrite append_cons. cbn [noLineTerminator]. rewrite IH.
  by rewrite andb_assoc.
Qed.

Lemma stripPrefix_app p s : stripPrefix p (p +:+ s) = Some s.
Proof.
  induction p as [|c p IH]; [reflexivity|].
  rewrite append_cons. cbn [stripPrefix].
  by rewrite Ascii.eqb_refl.
Qed.

(** The groups captured by the pattern are well formed. *)
Lemma matchGroups_wellFormed s : forall g1 g2,
  matchGroups s = Some (g1, g2) -> wellFormedGroup g1 /\ wellFormedGroup g2.
Proof.
  unfold wellFormedGroup.
  induction s as [|c s IH]; intros g1 g2; [discriminate|].
  cbn [matchGroups]. destruct (isLineTerminator c) eqn:Hc; [discriminate|].
  destruct (matchGroups s) as [[h1 h2]|].
  - intros [= <- <-]. destruct (IH _ _ eq_refl) as [[_ H1] H2].
    split; [|done]. split; [done|]. cbn. by rewrite Hc, H1.
  - destruct (stripPrefix ";base64," s) as [r|]; [|discriminate].
    destruct (isEmpty r) eqn:He; [discriminate|]. cbn [negb andb].
    destruct (noLineTerminator r) eqn:Hr; [|discriminate].
    intros [= <- <-]. split; split; try done.
    + cbn. by rewrite Hc.
    + by destruct r.
Qed.

(** Every string made of two well-formed groups around [;base64,] is
    matched. *)
Lemma matchGroups_complete m : forall d,
  wellFormedGroup m -> wellFormedGroup d ->
  matchGroups (m +:+ ";base64," +:+ d) <> None.
Proof.
  unfold wellFormedGroup.
  induction m as [|c m IH]; intros d [Hm Hmt] [Hd Hdt]; [done|].
  rewrite append_cons. cbn [matchGroups]. cbn [noLineTerminator] in Hmt.
  apply andb_prop in Hmt as [Hc Hmt]. apply negb_true_iff in Hc. rewrite Hc.
  destruct (matchGroups (m +:+ ";base64," +:+ d)) as [[h1 h2]|] eqn:Hrec;
    [done|].
  destruct m as [|c' m'].
  - change (EmptyString +:+ ";base64," +:+ d) with (";base64," +:+ d).
    rewrite stripPrefix_app, Hdt. destruct d; [done|]. done.
  - exfalso. by apply (IH d).
Qed.

Lemma matchGroups_cons c s :
  matchGroups (String c s) =
    if isLineTerminator c then None
    else
      match matchGroups s with
      | Some (g1, g2) => Some (String c g1, g2)
      | None =>
          match stripPrefix ";base64," s with
          | Some g2 =>
              if negb (isEmpty g2) && noLineTerminator g2
              then Some (String c EmptyString, g2)
              else None
          | None => None
          end
      end.
Proof. reflexivity. Qed.

Lemma stripPrefix_noSemicolon s :
  noSemicolon s = true -> stripPrefix ";base64," s = None.
Proof.
  destruct s as [|c s]; [done|]. cbn [noSemicolon stripPrefix].
  intros H. apply andb_prop in H as [Hc _]. apply negb_true_iff in Hc.
  rewrite Ascii.eqb_sym in Hc. by rewrite Hc.
Qed.

Lemma matchGroups_noSemicolon_nil s :
  noSemicolon s = true -> matchGroups s = None.
Proof.
  induction s as [|c s IH]; [done|]. intros Hs.
  pose proof Hs as Hs'. cbn [noSemicolon] in Hs'.
  apply andb_prop in Hs' as [_ Htail].
  rewrite matchGroups_cons, (IH Htail), (stripPrefix_noSemicolon _ Htail).
  by destruct (isLineTerminator c).
Qed.

Lemma matchGroups_noSemicolon s :
  noSemicolon s = true -> forall c, matchGroups (String c s) = None.
Proof.
  intros Hs c.
  rewrite matchGroups_cons, (matchGroups_noSemicolon_nil _ Hs),
    (stripPrefix_noSemicolon _ Hs).
  by destruct (isLineTerminator c).
Qed.

Lemma noSemicolon_app a b :
  noSemicolon (a +:+ b) = noSemicolon a && noSemicolon b.
Proof.
  induction a as [|c a IH]; [reflexivity|].
  rewrite append_cons. cbn [noSemicolon]. rewrite IH. by rewrite andb_assoc.
Qed.

(** With a payload free of semicolons the groups are the media type and the
    payload themselves. *)
Lemma matchGroups_exact m : forall d,
  wellFormedGroup m -> wellFormedGroup d -> noSemicolon d = true ->
  matchGroups (m +:+ ";base64," +:+ d) = Some (m, d).
Proof.
  unfold wellFormedGroup.
  induction m as [|c m IH]; intros d [Hm Hmt] [Hd Hdt] Hsemi; [done|].
  rewrite append_cons. cbn [matchGroups]. cbn [noLineTerminator] in Hmt.
  apply andb_prop in Hmt as [Hc Hmt]. apply negb_true_iff in Hc. rewrite Hc.
  destruct m as [|c' m'].
  - change (EmptyString +:+ ";base64," +:+ d) with (String ";" ("base64," +:+ d)).
    rewrite matchGroups_noSemicolon
      by (rewrite noSemicolon_app, Hsemi; reflexivity).
    change (String ";" ("base64," +:+ d)) with (";base64," +:+ d).
    rewrite stripPrefix_app, Hdt. by destruct d.
  - by rewrite (IH d).
Qed.

End DataUrls.

(** X1.  [fileToImageData] accepts exactly the results of the form
    ["data:" + m + ";base64," + d] with [m] and [d] non-empty and free of
    line terminators; it rejects every other result with "Invalid format",
    and passes a read error on unchanged. *)
Theorem fileToImageData_accepts (result : string) :
  ((exists img, ImageUtils.fileToImageData (Fulfilled result) = Fulfilled img)
   <->
   (exists m d,
      wellFormedGroup m /\ wellFormedGroup d /\
      result = "data:" +:+ m +:+ ";base64," +:+ d)) /\
  ((forall img, ImageUtils.fileToImageData (Fulfilled result) <> Fulfilled img) ->
   ImageUtils.fileToImageData (Fulfilled result)
     = Rejected (Error "Invalid format")) /\
  (forall e, ImageUtils.fileToImageData (Rejected e) = Rejected e).
Proof.
  unfold ImageUtils.fileToImageData, ImageUtils.imageDataOfUrl,
    JsString.matchDataUrl.
  split; [split|split].
  - intros [img Himg].
    destruct (JsString.stripPrefix "data:" result) as [rest|] eqn:Hp;
      [|discriminate].
    destruct (JsString.matchGroups rest) as [[g1 g2]|] eqn:Hg; [|discriminate].
    exists g1, g2. destruct (matchGroups_wellFormed _ _ _ Hg) as [H1 H2].
    split; [done|]. split; [done|].
    apply stripPrefix_sound in Hp. apply matchGroups_sound in Hg.
    rewrite Hp, Hg. reflexivity.
  - intros (m & d & Hm & Hd & ->).
    rewrite (stripPrefix_app "data:").
    pose proof (matchGroups_complete m d Hm Hd) as Hne.
    destruct (JsString.matchGroups _) as [[g1 g2]|]; [|done]. by eexists.
  - intros Hno.
    destruct (JsString.stripPrefix "data:" result) as [rest|]; [|done].
    destruct (JsString.matchGroups rest) as [[g1 g2]|]; [|done].
    by destruct (Hno {| mimeType := g1; data := g2; url := result |}).
  - done.
Qed.

Lemma fileToImageData_accepts_witness :
  ImageUtils.fileToImageData (Fulfilled "data:;base64,QUJD")
    = Rejected (Error "Invalid format") /\
  ImageUtils.fileToImageData (Fulfilled "image/png;base64,QUJD")
    = Rejected (Error "Invalid format").
Proof.
  split.
  - apply (proj1 (proj2 (fileToImageData_accepts "data:;base64,QUJD"))).
    intros img. discriminate.
  - apply (proj1 (proj2 (fileToImageData_accepts "image/png;base64,QUJD"))).
    intros img. discriminate.
Defined.

(** X2.  Reading back a data URL built from a media type and a payload
    gives exactly that media type and that payload, when both are non-empty
    and free of line terminators and the payload holds no semicolon (as a
    base64 payload does): an image that is consistent is recovered from its
    [url] alone. *)
Theorem data_url_round_trip (m d : string) :
  wellFormedGroup m -> wellFormedGroup d -> noSemicolon d = true ->
  ImageUtils.fileToImageData
    (Fulfilled ("data:" +:+ m +:+ ";base64," +:+ d))
  = Fulfilled {| data := d; mimeType := m;
                 url := "data:" +:+ m +:+ ";base64," +:+ d |} /\
  (forall img,
     consistent img -> mimeType img = m -> data img = d ->
     ImageUtils.imageDataOfUrl (url img) = Some img).
Proof.
  intros Hm Hd Hsemi.
  assert (Hmatch : JsString.matchDataUrl ("data:" +:+ m +:+ ";base64," +:+ d)
                   = Some (m, d)).
  { unfold JsString.matchDataUrl. rewrite (stripPrefix_app "data:").
    by apply matchGroups_exact. }
  split.
  - unfold ImageUtils.fileToImageData, ImageUtils.imageDataOfUrl.
    by rewrite Hmatch.
  - intros [d' m' u] Hcons Hm' Hd'. unfold consistent in Hcons.
    cbn in Hcons, Hm', Hd' |- *. subst m' d' u.
    unfold ImageUtils.imageDataOfUrl. by rewrite Hmatch.
Qed.

Lemma data_url_round_trip_witness :
  wellFormedGroup "image/png" /\ wellFormedGroup "QUJD" /\
  noSemicolon "QUJD" = true /\
  ImageUtils.fileToImageData (Fulfilled "data:image/png;base64,QUJD")
  = Fulfilled sampleImage.
Proof.
  assert (H1 : wellFormedGroup "image/png") by (split; [discriminate|reflexivity]).
  assert (H2 : wellFormedGroup "QUJD") by (split; [discriminate|reflexivity]).
  split; [exact H1|]. split; [exact H2|]. split; [reflexivity|].
  exact (proj1 (data_url_round_trip "image/png" "QUJD" H1 H2 eq_refl)).
Defined.

(* ===================================================================== *)
(** ** More on the retry helper                                           *)
(* ===================================================================== *)

Section RetryMore.

Import GeminiService.

Context {E W T : Type} (operation : Async E W T).

Lemma sum_backoff m : forall d,
  foldr Z.add 0 (backoff m d) = d * (2 ^ Z.of_nat m - 1).
Proof.
  induction m as [|m IH]; intros d; [cbn; lia|].
  cbn [backoff foldr]. rewrite IH.
  rewrite Nat2Z.inj_succ, Z.pow_succ_r by lia. lia.
Qed.

Lemma backoff_nonneg m : forall d, 0 <= d -> Forall (fun x => 0 <= x) (backoff m d).
Proof.
  induction m as [|m IH]; intros d Hd; [constructor|].
  cbn. constructor; [done|]. apply IH. lia.
Qed.

Lemma sum_nonneg (l : list Z) :
  Forall (fun x => 0 <= x) l -> 0 <= foldr Z.add 0 l.
Proof. induction 1 as [|x l Hx _ IH]; cbn; lia. Qed.

Lemma sum_prefix (l k : list Z) :
  l `prefix_of` k -> Forall (fun x => 0 <= x) k ->
  foldr Z.add 0 l <= foldr Z.add 0 k.
Proof.
  intros [t ->] Hk. apply Forall_app in Hk as [_ Ht].
  pose proof (sum_nonneg t Ht) as Hsum.
  induction l as [|x l IH]; cbn; lia.
Qed.

Lemma retry_never_quota m : forall d w e,
  (retryOperation operation m d w).1.1 = Rejected e -> isQuotaError e = false.
Proof.
  induction m as [|m IH]; intros d w e; simpl;
    destruct (operation w) as [[[v|e'] w1] t]; try discriminate;
    destruct (isQuotaError e') eqn:Hq; cbn.
  - by intros [= <-].
  - by intros [= <-].
  - specialize (IH (d * 2) w1 e).
    destruct (retryOperation operation m (d * 2) w1) as [[r w2] tr].
    exact IH.
  - by intros [= <-].
Qed.

Lemma retry_after_rate_limits k : forall m d w wk,
  afterRateLimits operation k w = Some wk ->
  exists tr,
    invocations tr = k /\ sleeps tr = backoff k d /\
    forall r w' tr',
      retryOperation operation m (d * 2 ^ Z.of_nat k) wk = (r, w', tr') ->
      retryOperation operation (k + m) d w = (r, w', tr ++ tr').
Proof.
  induction k as [|k IH]; intros m d w wk.
  - intros [= <-]. exists []. split; [done|]. split; [done|].
    intros r w' tr'. by rewrite Z.mul_1_r.
  - cbn [afterRateLimits].
    destruct (operation w) as [[[v|e] w1] t] eqn:Hop; [discriminate|].
    destruct (isQuotaError e) eqn:Hq; [|discriminate].
    intros Hk. destruct (IH m (d * 2) w1 wk Hk) as (tr & Hinv & Hsl & Hrun).
    exists (EvInvoke t :: EvWarn d (S (k + m)) :: EvSleep d :: tr).
    split; [cbn; by rewrite <- Hinv|].
    split; [cbn; by rewrite <- Hsl|].
    intros r w' tr' Hrest.
    rewrite Nat2Z.inj_succ, Z.pow_succ_r in Hrest by lia.
    replace (d * (2 * 2 ^ Z.of_nat k)) with (d * 2 * 2 ^ Z.of_nat k) in Hrest
      by lia.
    change (S k + m)%nat with (S (k + m)).
    rewrite (retry_quota_again operation (k + m) d w e w1 t Hop Hq).
    by rewrite (Hrun r w' tr' Hrest).
Qed.

End RetryMore.

(** X3.  Whatever the operation does and whatever the budget, with a
    non-negative base delay [retryOperation] runs the operation at most
    [maxRetries + 1] times, waits before every run but the first, and waits
    in total at most [delay * (2 ^ maxRetries - 1)] ms; with the default
    policy that is at most 3 runs and 6000 ms. *)
Theorem retry_bounded {E W T : Type} (operation : Async E W T)
    (maxRetries : nat) (delay : Z) (w : W) :
  0 <= delay ->
  let tr := (GeminiService.retryOperation operation maxRetries delay w).2 in
  (1 <= invocations tr <= S maxRetries)%nat /\
  length (sleeps tr) = (invocations tr - 1)%nat /\
  0 <= totalWait tr <= delay * (2 ^ Z.of_nat maxRetries - 1).
Proof.
  intros Hd tr.
  destruct (retry_shape operation maxRetries delay w) as (Hle & Heq & Hpre).
  fold tr in Hle, Heq, Hpre.
  split; [lia|]. split; [lia|].
  pose proof (backoff_nonneg maxRetries delay Hd) as Hnn.
  unfold totalWait. split.
  - destruct Hpre as [t Ht]. rewrite Ht in Hnn.
    apply Forall_app in Hnn as [Hs _]. by apply sum_nonneg.
  - rewrite <- sum_backoff. by apply sum_prefix.
Qed.

Lemma retry_bounded_witness :
  0 <= 2000 /\
  (1 <= invocations
          (GeminiService.retryOperation alwaysRateLimited 2 2000 0%nat).2
     <= 3)%nat /\
  0 <= totalWait (GeminiService.retryOperation alwaysRateLimited 2 2000 0%nat).2
    <= 6000.
Proof.
  destruct (retry_bounded alwaysRateLimited 2 2000 0%nat ltac:(lia))
    as (Hruns & _ & Hwait).
  split; [lia|]. split; [exact Hruns|exact Hwait].
Defined.

(** X4.  Rate limits that pass are absorbed: if the operation is rate
    limited [k] times in a row and [k] does not exceed the budget, the
    result is that of the next run, whether a value or a failure that is not
    rate limited, after [k + 1] runs and the waits [delay], [2 * delay],
    ..., [2 ^ (k - 1) * delay].  If it is rate limited once more than the
    budget allows, the result is the usage-limit error. *)
Theorem retry_absorbs_rate_limits {E W T : Type} (operation : Async E W T)
    (k maxRetries : nat) (delay : Z) (w wk : W) :
  afterRateLimits operation k w = Some wk ->
  (forall v w' t,
     (k <= maxRetries)%nat ->
     operation wk = (Fulfilled v, w', t) ->
     exists tr,
       GeminiService.retryOperation operation maxRetries delay w
         = (Fulfilled v, w', tr) /\
       invocations tr = S k /\ sleeps tr = backoff k delay) /\
  (forall e w' t,
     (k <= maxRetries)%nat ->
     operation wk = (Rejected e, w', t) ->
     GeminiService.isQuotaError e = false ->
     exists tr,
       GeminiService.retryOperation operation maxRetries delay w
         = (Rejected e, w', tr) /\
       invocations tr = S k /\ sleeps tr = backoff k delay) /\
  (forall e w' t,
     k = maxRetries ->
     operation wk = (Rejected e, w', t) ->
     GeminiService.isQuotaError e = true ->
     exists tr,
       GeminiService.retryOperation operation maxRetries delay w
         = (Rejected GeminiService.usageLimitError, w', tr) /\
       invocations tr = S k /\ sleeps tr = backoff k delay).
Proof.
  intros Hk.
  assert (Hlen : forall (tr : list (RetryEvent E)) t,
            invocations tr = k -> invocations (tr ++ [EvInvoke t]) = S k).
  { intros tr t <-. unfold invocations.
    rewrite List.filter_app, length_app. cbn. lia. }
  assert (Hsl : forall (tr : list (RetryEvent E)) t,
            sleeps (tr ++ [EvInvoke t]) = sleeps tr).
  { intros tr t. unfold sleeps. rewrite omap_app. cbn. by rewrite app_nil_r. }
  split; [|split].
  - intros v w' t Hle Hop.
    destruct (retry_after_rate_limits operation k (maxRetries - k) delay w wk Hk)
      as (tr & Hinv & Hsleeps & Hrun).
    exists (tr ++ [EvInvoke t]).
    replace (k + (maxRetries - k))%nat with maxRetries in Hrun by lia.
    split; [|split; [by apply Hlen | by rewrite Hsl]].
    apply Hrun. by apply retry_fulfilled.
  - intros e w' t Hle Hop Hq.
    destruct (retry_after_rate_limits operation k (maxRetries - k) delay w wk Hk)
      as (tr & Hinv & Hsleeps & Hrun).
    exists (tr ++ [EvInvoke t]).
    replace (k + (maxRetries - k))%nat with maxRetries in Hrun by lia.
    split; [|split; [by apply Hlen | by rewrite Hsl]].
    apply Hrun. by apply retry_not_quota.
  - intros e w' t Heq Hop Hq. subst maxRetries.
    destruct (retry_after_rate_limits operation k 0 delay w wk Hk)
      as (tr & Hinv & Hsleeps & Hrun).
    exists (tr ++ [EvInvoke t]).
    replace (k + 0)%nat with k in Hrun by lia.
    split; [|split; [by apply Hlen | by rewrite Hsl]].
    apply Hrun. by apply (retry_quota_exhausted operation _ wk e w' t).
Qed.

Lemma retry_absorbs_rate_limits_witness :
  afterRateLimits alwaysRateLimited 2 0%nat = Some 2%nat /\
  alwaysRateLimited 2%nat = (Rejected tooManyRequests, 3%nat, [2%nat]) /\
  exists tr,
    GeminiService.retryOperation alwaysRateLimited 2 2000 0%nat
      = (Rejected GeminiService.usageLimitError, 3%nat, tr) /\
    invocations tr = 3%nat /\ sleeps tr = [2000; 4000].
Proof.
  split; [reflexivity|]. split; [reflexivity|].
  destruct (retry_absorbs_rate_limits alwaysRateLimited 2 2 2000 0%nat 2%nat
              eq_refl) as (_ & _ & Hexhausted).
  exact (Hexhausted tooManyRequests 3%nat [2%nat] eq_refl eq_refl eq_refl).
Defined.

(** X5.  [retryOperation] never surfaces a failure that it classifies as a
    rate limit: a rejection is either the usage-limit error or the
    operation's own failure, and neither is a quota error. *)
Theorem retry_surfaces_no_quota_error {E W T : Type} (operation : Async E W T)
    (maxRetries : nat) (delay : Z) (w : W) (e : JsError) :
  (GeminiService.retryOperation operation maxRetries delay w).1.1 = Rejected e ->
  GeminiService.isQuotaError e = false /\
  ~ rateLimited e.
Proof.
  intros H. apply retry_never_quota in H. split; [done|].
  intros Hr. apply isQuotaError_spec in Hr. congruence.
Qed.

Lemma retry_surfaces_no_quota_error_witness :
  (GeminiService.retryOperation alwaysRateLimited 2 2000 0%nat).1.1
    = Rejected GeminiService.usageLimitError /\
  GeminiService.isQuotaError GeminiService.usageLimitError = false.
Proof.
  split; [reflexivity|].
  exact (proj1 (retry_surfaces_no_quota_error alwaysRateLimited 2 2000 0%nat
                  GeminiService.usageLimitError eq_refl)).
Defined.

(* ===================================================================== *)
(** ** More on the generation orchestrator                                *)
(* ===================================================================== *)

Section OrchestratorMore.

Import GeminiService.

Variable upstream :
  nat -> nat -> list Part -> Settled GenerateContentResponse * Z.
Variable parts : list Part.
Variable i : nat.

Lemma calls_retry (t : list UpstreamEvent) d k tr :
  calls (EvInvoke t :: EvWarn d k :: EvSleep d :: tr)
  = (length t + calls tr)%nat.
Proof. unfold calls, innerEvents. cbn. by rewrite length_app. Qed.

Lemma invocations_retry {E} (t : list E) d k tr :
  invocations (EvInvoke t :: EvWarn d k :: EvSleep d :: tr)
  = S (invocations tr).
Proof. reflexivity. Qed.

(** Every run of an attempt's operation is one upstream call. *)
Lemma attempt_calls_invocations m : forall d n,
  let tr := (retryOperation (generateSingleRequest (client upstream i) parts)
               m d n).2 in
  calls tr = invocations tr.
Proof.
  induction m as [|m IH]; intros d n; cbn zeta; simpl;
    unfold generateSingleRequest, client;
    destruct (upstream i n parts) as [[response|e] latency]; cbn [fst snd].
  - by destruct (imageOfResponse response) as [v|e]; [|destruct (isQuotaError e)].
  - by destruct (isQuotaError e).
  - destruct (imageOfResponse response) as [v|e]; [done|].
    destruct (isQuotaError e); [|done].
    specialize (IH (d * 2) (S n)). cbn zeta in IH.
    unfold generateSingleRequest, client in IH.
    destruct (retryOperation _ _ _ _) as [[? ?] tr]. cbn [snd] in IH |- *.
    by rewrite calls_retry, invocations_retry, IH.
  - destruct (isQuotaError e); [|done].
    specialize (IH (d * 2) (S n)). cbn zeta in IH.
    unfold generateSingleRequest, client in IH.
    destruct (retryOperation _ _ _ _) as [[? ?] tr]. cbn [snd] in IH |- *.
    by rewrite calls_retry, invocations_retry, IH.
Qed.

Lemma attempt_calls_bounds :
  (1 <= calls (attempt upstream parts i).2 <= 3)%nat.
Proof.
  unfold attempt. cbn [snd].
  pose proof (attempt_calls_invocations defaultMaxRetries defaultDelay 0%nat)
    as Hc. cbn zeta in Hc. rewrite Hc.
  destruct (retry_shape (generateSingleRequest (client upstream i) parts)
              defaultMaxRetries defaultDelay 0%nat) as (Hle & Heq & _).
  unfold defaultMaxRetries in *. lia.
Qed.

End OrchestratorMore.

(** X6.  A generation action without an API key makes no upstream call.
    With a key, each of its four attempts makes one call per run of its
    request, between 1 and 3 calls, so the action makes between 4 and 12
    calls. *)
Theorem upstream_call_budget
    (API_KEY : string)
    (upstream : nat -> nat -> list GeminiService.Part ->
                Settled GeminiService.GenerateContentResponse * Z)
    (prompt : string) (originalImage : option ImageData) :
  exists run,
    GeminiService.generateOrEditImage API_KEY upstream prompt originalImage
      = Some run /\
    (JsString.isEmpty API_KEY = true -> totalCalls run = 0%nat) /\
    (JsString.isEmpty API_KEY = false ->
     Forall (fun a => (1 <= calls a.2 <= 3)%nat /\ calls a.2 = invocations a.2)
       (GeminiService.attempts run) /\
     (4 <= totalCalls run <= 12)%nat).
Proof.
  destruct (JsString.isEmpty API_KEY) eqn:Hkey.
  - eexists. split; [by apply generateOrEditImage_no_key|]. by split.
  - eexists. split; [by apply generateOrEditImage_run|].
    split; [done|]. intros _.
    set (parts := GeminiService.requestParts prompt originalImage).
    unfold totalCalls. cbn [GeminiService.attempts fmap list_fmap seq foldr].
    pose proof (attempt_calls_bounds upstream parts 0) as H0.
    pose proof (attempt_calls_bounds upstream parts 1) as H1.
    pose proof (attempt_calls_bounds upstream parts 2) as H2.
    pose proof (attempt_calls_bounds upstream parts 3) as H3.
    split; [|lia].
    repeat (apply List.Forall_cons;
            [split;
             [lia
             |apply (attempt_calls_invocations upstream parts _
                       GeminiService.defaultMaxRetries
                       GeminiService.defaultDelay 0%nat)]|]).
    apply List.Forall_nil.
Qed.

Lemma upstream_call_budget_witness :
  exists run,
    GeminiService.generateOrEditImage "key" sampleUpstream "tea" None
      = Some run /\
    totalCalls run = 6%nat.
Proof.
  destruct (upstream_call_budget "key" sampleUpstream "tea" None)
    as (run & Hrun & _ & _).
  exists run. split; [exact Hrun|].
  vm_compute in Hrun. injection Hrun as <-. reflexivity.
Defined.

Section ValidationMore.

Import GeminiService.

Lemma find_inlineData_None (ps : list Part) :
  List.find (fun p => bool_decide (is_Some (inlineData p))) ps = None ->
  Forall (fun p => inlineData p = None) ps.
Proof.
  induction ps as [|p ps IH]; [constructor|]. cbn [List.find].
  destruct (inlineData p) as [blob|] eqn:Hp.
  - rewrite bool_decide_eq_true_2 by eauto. discriminate.
  - rewrite bool_decide_eq_false_2 by (by intros [? ?]).
    intros H. constructor; [done|by apply IH].
Qed.

Lemma imageOfResponse_rejected (response : GenerateContentResponse) e :
  imageOfResponse response = Rejected e -> lacksImage response.
Proof.
  unfold lacksImage, firstCandidateParts, imageOfResponse.
  destruct (candidates response) as [[|first rest]|]; [by left; right| |by left; left].
  destruct (content first) as [[[[|p0 ps]|]]|]; cbn -[List.find];
    try (intros _; right; by left).
  destruct (List.find _ _) as [[[blob|] ?]|] eqn:Hfind; [discriminate| |].
  - apply List.find_some in Hfind as [_ Hp]. cbn in Hp. discriminate.
  - intros _. right. right. by apply find_inlineData_None.
Qed.

End ValidationMore.

(** X7.  The validation of a response accepts exactly the responses whose
    first candidate has a content part with inline data: the image is built
    if and only if the response does not lack an image.  The candidates
    after the first, and the text of the response, play no role. *)
Theorem validation_accepts_exactly
    (response : GeminiService.GenerateContentResponse) :
  ((exists img, GeminiService.imageOfResponse response = Fulfilled img)
   <-> ~ lacksImage response) /\
  (forall first rest rest' t t',
     GeminiService.imageOfResponse
       {| GeminiService.candidates := Some (first :: rest);
          GeminiService.response_text := t |}
     = GeminiService.imageOfResponse
         {| GeminiService.candidates := Some (first :: rest');
            GeminiService.response_text := t' |}).
Proof.
  split; [|done]. split.
  - intros [img Himg] Hlack.
    destruct (imageOfResponse_lacksImage response Hlack) as (e & _ & He).
    congruence.
  - intros Hok.
    destruct (GeminiService.imageOfResponse response) as [img|e] eqn:Himg;
      [by eexists|].
    destruct Hok. by eapply imageOfResponse_rejected.
Qed.

Lemma validation_accepts_exactly_witness :
  ~ lacksImage (sampleResponse "QUJD") /\
  GeminiService.imageOfResponse (sampleResponse "QUJD") = Fulfilled sampleImage.
Proof.
  assert (H : ~ lacksImage (sampleResponse "QUJD")).
  { apply (proj1 (validation_accepts_exactly (sampleResponse "QUJD"))).
    by eexists. }
  split; [exact H|reflexivity].
Defined.

Section GenerateMore.

Import GeminiService.




End GenerateMore.



(* ===================================================================== *)
(** ** More on the paint session                                          *)
(* ===================================================================== *)

(** X9.  A stroke is committed at most once: after a release, a second
    release (a mouse-up followed by a mouse-leave) changes nothing, and so
    does any release while no stroke is in progress or no canvas is
    shown. *)
Theorem stroke_committed_once (u1 u2 : string) (s : ImageEditor.EditorState) :
  ImageEditor.onPaintEnd u2 (ImageEditor.onPaintEnd u1 s)
    = ImageEditor.onPaintEnd u1 s /\
  (ImageEditor.isDrawing s = false \/ ImageEditor.canvasMounted s = false ->
   ImageEditor.onPaintEnd u1 s = s).
Proof.
  split.
  - unfold ImageEditor.onPaintEnd.
    destruct (negb (ImageEditor.isDrawing s) || negb (ImageEditor.canvasMounted s))
      eqn:Hg.
    + by rewrite Hg.
    + reflexivity.
  - unfold ImageEditor.onPaintEnd. intros [-> | ->]; [done|].
    by rewrite orb_true_r.
Qed.

Lemma stroke_committed_once_witness :
  let s := ImageEditor.onPaintStart
             (ImageEditor.startPainting (freshEditor (Some sampleImage))) in
  ImageEditor.paintHistory
    (ImageEditor.onPaintEnd "u2" (ImageEditor.onPaintEnd "u1" s))
  = [url sampleImage; "u1"].
Proof.
  intros s.
  rewrite (proj1 (stroke_committed_once "u1" "u2" s)). reflexivity.
Defined.

(** X10.  A stroke commit establishes the invariant of the history from any
    state, whatever the pointer [p] was (negative, or beyond the end, as a
    restored session may have it).  For [p >= -1] the new history is the
    entries of the old one at the indices up to [p], all of them when [p]
    is beyond the end, followed by the new snapshot; for [p < -1] it is the
    old history without its last [- p - 1] entries, as [slice] counts a
    negative end from the end, followed by the new snapshot.  The pointer
    designates this last entry. *)
Theorem commit_restores_invariant (u : string) (s : ImageEditor.EditorState) :
  ImageEditor.isDrawing s = true ->
  ImageEditor.canvasMounted s = true ->
  let s' := ImageEditor.onPaintEnd u s in
  let p := ImageEditor.historyStep s in
  let old := ImageEditor.paintHistory s in
  historyInvariant s' /\
  (-1 <= p ->
   ImageEditor.paintHistory s' = take (Z.to_nat (p + 1)) old ++ [u]) /\
  (p < -1 ->
   ImageEditor.paintHistory s'
   = take (length old - Z.to_nat (- p - 1)) old ++ [u]) /\
  ImageEditor.historyStep s'
    = Z.of_nat (length (ImageEditor.paintHistory s')) - 1 /\
  ImageEditor.currentSnapshot s' = Some u /\
  ImageEditor.isDrawing s' = false.
Proof.
  intros Hd Hm s' p old.
  set (kept := ImageEditor.slice0 old (p + 1)).
  assert (Hs' : s' = ImageEditor.setPaint s (ImageEditor.isPainting s)
                  (kept ++ [u]) (Z.of_nat (length (kept ++ [u])) - 1) false).
  { unfold s', ImageEditor.onPaintEnd. by rewrite Hd, Hm. }
  rewrite Hs'. cbn [ImageEditor.paintHistory ImageEditor.historyStep
                    ImageEditor.isDrawing ImageEditor.setPaint].
  split; [|split; [|split; [|split; [done|split; [|done]]]]].
  - intros _. cbn. rewrite length_app. cbn. lia.
  - intros Hp. unfold kept. by rewrite slice0_take by lia.
  - intros Hp. unfold kept, ImageEditor.slice0.
    destruct (Z.ltb_spec (p + 1) 0) as [_|?]; [|lia].
    do 2 f_equal. lia.
  - unfold ImageEditor.currentSnapshot.
    cbn [ImageEditor.paintHistory ImageEditor.historyStep ImageEditor.setPaint].
    rewrite length_app. cbn [length].
    destruct (Z.ltb_spec (Z.of_nat (length kept + 1) - 1) 0); [lia|].
    replace (Z.to_nat (Z.of_nat (length kept + 1) - 1)) with (length kept)
      by lia.
    rewrite lookup_app_r by lia. by rewrite Nat.sub_diag.
Qed.

Lemma commit_restores_invariant_witness :
  let s := ImageEditor.setPaint (freshEditor (Some sampleImage)) true
             ["a"; "b"; "c"] 7 true in
  let s3 := ImageEditor.setPaint (freshEditor (Some sampleImage)) true
              ["a"; "b"; "c"] (-3) true in
  ~ historyInvariant s /\
  historyInvariant (ImageEditor.onPaintEnd "u" s) /\
  ImageEditor.paintHistory (ImageEditor.onPaintEnd "u" s)
    = ["a"; "b"; "c"; "u"] /\
  ImageEditor.paintHistory (ImageEditor.onPaintEnd "u" s3) = ["a"; "u"].
Proof.
  intros s s3.
  destruct (commit_restores_invariant "u" s eq_refl eq_refl)
    as (Hinv & Hup & _).
  destruct (commit_restores_invariant "u" s3 eq_refl eq_refl)
    as (_ & _ & Hdown & _).
  split.
  - intros H. specialize (H ltac:(discriminate)). cbn in H. lia.
  - split; [exact Hinv|]. split.
    + apply Hup. cbn. lia.
    + apply Hdown. cbn. lia.
Defined.

(** X11.  Inside the history undo and redo are inverse of each other: a
    redo after an undo that moved the pointer, and an undo after a redo
    that moved it, give back the state. *)
Theorem undo_redo_inverse (s : ImageEditor.EditorState) :
  (0 < ImageEditor.historyStep s
     < Z.of_nat (length (ImageEditor.paintHistory s)) ->
   ImageEditor.redoPaint (ImageEditor.undoPaint s) = s) /\
  (0 <= ImageEditor.historyStep s
     < Z.of_nat (length (ImageEditor.paintHistory s)) - 1 ->
   ImageEditor.undoPaint (ImageEditor.redoPaint s) = s).
Proof.
  destruct s as [oi gi si pr st ic ip ph hs dr].
  unfold ImageEditor.redoPaint, ImageEditor.undoPaint. cbn. split; intros H.
  - destruct (Z.ltb_spec 0 hs); [|lia]. cbn.
    destruct (Z.ltb_spec (hs - 1) (Z.of_nat (length ph) - 1)); [|lia].
    unfold ImageEditor.setPaint. cbn. f_equal. lia.
  - destruct (Z.ltb_spec hs (Z.of_nat (length ph) - 1)); [|lia]. cbn.
    destruct (Z.ltb_spec 0 (hs + 1)); [|lia].
    unfold ImageEditor.setPaint. cbn. f_equal. lia.
Qed.

Lemma undo_redo_inverse_witness :
  let s := commitStrokes ["u1"; "u2"]
             (ImageEditor.startPainting (freshEditor (Some sampleImage))) in
  0 < ImageEditor.historyStep s
    < Z.of_nat (length (ImageEditor.paintHistory s)) /\
  ImageEditor.redoPaint (ImageEditor.undoPaint s) = s.
Proof.
  intros s.
  assert (H : 0 < ImageEditor.historyStep s
                < Z.of_nat (length (ImageEditor.paintHistory s)))
    by (vm_compute; split; reflexivity).
  split; [exact H|]. exact (proj1 (undo_redo_inverse s) H).
Defined.

(** X12.  Saving a paint session makes the image encoded from the canvas
    the base image, closes the session and clears the history, so that the
    next session is seeded with the saved image; when the canvas does not
    encode to a data URL the save changes nothing.  Cancelling keeps the
    base image, and the next session is seeded with it again. *)
Theorem save_or_cancel_then_edit
    (toDataURL : string -> string) (s : ImageEditor.EditorState)
    (img : ImageData) :
  ImageEditor.canvasMounted s = true ->
  ImageEditor.originalImage s = Some img ->
  (forall img',
     ImageUtils.imageDataOfUrl (toDataURL (mimeType img)) = Some img' ->
     let s1 := (ImageEditor.handleSavePaint toDataURL s).1 in
     ImageEditor.originalImage s1 = Some img' /\
     url img' = toDataURL (mimeType img) /\
     ImageEditor.isPainting s1 = false /\
     ImageEditor.paintHistory s1 = [] /\
     ImageEditor.paintHistory (ImageEditor.startPainting s1)
       = [toDataURL (mimeType img)] /\
     ImageEditor.historyStep (ImageEditor.startPainting s1) = 0) /\
  (ImageUtils.imageDataOfUrl (toDataURL (mimeType img)) = None ->
   ImageEditor.handleSavePaint toDataURL s = (s, [])) /\
  (let s1 := (ImageEditor.handleCancelPaint s).1 in
   ImageEditor.originalImage s1 = Some img /\
   ImageEditor.isPainting s1 = false /\
   ImageEditor.paintHistory (ImageEditor.startPainting s1) = [url img] /\
   ImageEditor.historyStep (ImageEditor.startPainting s1) = 0).
Proof.
  intros Hm Himg. split; [|split].
  - intros img' Hurl. unfold ImageEditor.handleSavePaint.
    rewrite Hm, Himg, Hurl. cbn.
    assert (Hu : url img' = toDataURL (mimeType img)).
    { unfold ImageUtils.imageDataOfUrl in Hurl.
      destruct (JsString.matchDataUrl _) as [[g1 g2]|]; [|discriminate].
      by injection Hurl as <-. }
    repeat split; try done.
    + unfold ImageEditor.startPainting. cbn. by rewrite Hu.
  - intros Hurl. unfold ImageEditor.handleSavePaint.
    by rewrite Hm, Himg, Hurl.
  - cbn. split; [done|]. split; [done|].
    unfold ImageEditor.startPainting. cbn. by rewrite Himg.
Qed.

Lemma save_or_cancel_then_edit_witness :
  let s := commitStrokes ["u1"]
             (ImageEditor.startPainting (freshEditor (Some sampleImage))) in
  let toDataURL := fun _ : string => "data:image/png;base64,REVG" in
  ImageEditor.canvasMounted s = true /\
  ImageEditor.originalImage s = Some sampleImage /\
  ImageEditor.paintHistory
    (ImageEditor.startPainting (ImageEditor.handleSavePaint toDataURL s).1)
  = ["data:image/png;base64,REVG"].
Proof.
  intros s toDataURL. split; [reflexivity|]. split; [reflexivity|].
  destruct (save_or_cancel_then_edit toDataURL s sampleImage eq_refl eq_refl)
    as (Hsave & _ & _).
  destruct (Hsave _ eq_refl) as (_ & _ & _ & _ & Hseed & _).
  exact Hseed.
Defined.

(* ===================================================================== *)
(** ** More on the resize geometry                                        *)
(* ===================================================================== *)

(** X13.  For dimensions in whole pixels from 1 to [2 ^ 24] and at every
    aspect ratio, [cover] and [contain] each draw one axis on exactly the
    canvas, and not the same one: where [cover] takes the width of the
    target, [contain] takes its height.  On the other axis [cover] reaches
    the canvas and [contain] stays within it up to rounding, one part in
    [2 ^ 50]; both are centred and drawn with one scale up to rounding,
    with positive sizes.  With equal aspect ratios both draw the canvas
    rectangle, as [stretch] does, up to rounding only. *)
Theorem fit_modes_related (iw ih tw th : Z) :
  pixels iw -> pixels ih -> pixels tw -> pixels th ->
  let targetWidth := inject_Z tw in
  let targetHeight := inject_Z th in
  let c := ImageUtils.drawRect (inject_Z iw) (inject_Z ih)
             targetWidth targetHeight ImageUtils.cover in
  let n := ImageUtils.drawRect (inject_Z iw) (inject_Z ih)
             targetWidth targetHeight ImageUtils.contain in
  ((ImageUtils.rx c = 0%Q /\ ImageUtils.rw c = targetWidth /\
    ImageUtils.ry n = 0%Q /\ ImageUtils.rh n = targetHeight) \/
   (ImageUtils.ry c = 0%Q /\ ImageUtils.rh c = targetHeight /\
    ImageUtils.rx n = 0%Q /\ ImageUtils.rw n = targetWidth)) /\
  (targetWidth * (1 - roundingTolerance) <= ImageUtils.rw c /\
   targetHeight * (1 - roundingTolerance) <= ImageUtils.rh c)%Q /\
  (ImageUtils.rw n <= targetWidth * (1 + roundingTolerance) /\
   ImageUtils.rh n <= targetHeight * (1 + roundingTolerance))%Q /\
  (nearlyCentered c targetWidth targetHeight /\
   nearlyUniformScale c (inject_Z iw) (inject_Z ih) /\
   nearlyCentered n targetWidth targetHeight /\
   nearlyUniformScale n (inject_Z iw) (inject_Z ih)) /\
  (0 < ImageUtils.rw c /\ 0 < ImageUtils.rh c /\
   0 < ImageUtils.rw n /\ 0 < ImageUtils.rh n)%Q /\
  ((iw * th)%Z = (tw * ih)%Z ->
   (Qabs (ImageUtils.rw c - targetWidth) <= roundingTolerance * targetWidth /\
    Qabs (ImageUtils.rh c - targetHeight) <= roundingTolerance * targetHeight /\
    Qabs (ImageUtils.rw n - targetWidth) <= roundingTolerance * targetWidth /\
    Qabs (ImageUtils.rh n - targetHeight)
      <= roundingTolerance * targetHeight)%Q).
Proof.
  intros Piw Pih Ptw Pth. cbv zeta.
  pose proof (pixels_pos _ Piw) as Hiw. pose proof (pixels_pos _ Pih) as Hih.
  pose proof (pixels_pos _ Ptw) as Htw. pose proof (pixels_pos _ Pth) as Hth.
  destruct (heightPinned_geometry _ _ (inject_Z tw) _ Hiw Hih Hth)
    as (Hc & Hu & [Hw Hh] & _).
  destruct (widthPinned_geometry _ _ _ (inject_Z th) Hiw Hih Htw)
    as (Wc & Wu & [Ww Wh] & _).
  cbv zeta in *. cbn [ImageUtils.rw ImageUtils.rh] in Hw, Hh, Ww, Wh.
  assert (Hzero : forall t : Q, (Qabs (t - t) <= roundingTolerance * t)%Q
                                <-> (0 <= t)%Q).
  { intros t. assert (E : (t - t == 0)%Q) by ring. rewrite E.
    change (Qabs 0) with 0%Q. unfold roundingTolerance. split; lra. }
  assert (Hself : forall t : Q, (0 < t)%Q ->
            (t * (1 - roundingTolerance) <= t /\
             t <= t * (1 + roundingTolerance))%Q).
  { intros t Ht. unfold roundingTolerance. split; lra. }
  assert (Heq : (iw * th)%Z = (tw * ih)%Z ->
            (Qabs (Binary64.mul (inject_Z th)
                     (Binary64.div (inject_Z iw) (inject_Z ih)) - inject_Z tw)
               <= roundingTolerance * inject_Z tw /\
             Qabs (Binary64.div (inject_Z tw)
                     (Binary64.div (inject_Z iw) (inject_Z ih)) - inject_Z th)
               <= roundingTolerance * inject_Z th)%Q).
  { intros E. apply equal_aspect_approx; try done.
    by rewrite <- !inject_Z_mult, E. }
  destruct (drawRect_pinned (inject_Z iw) (inject_Z ih) (inject_Z tw)
              (inject_Z th)) as [Hwide Hnarrow].
  destruct (Qlt_le_dec
              (Binary64.div (inject_Z tw) (inject_Z th))
              (Binary64.div (inject_Z iw) (inject_Z ih))) as [Hb|Hb].
  - destruct (Hwide Hb) as [-> ->]. cbn [ImageUtils.rx ImageUtils.ry ImageUtils.rw ImageUtils.rh].
    destruct (wider_branch_approx _ _ _ _ Hiw Hih Htw Hth Hb) as [Hx Hy].
    split; [by right|]. split; [split; [done|by apply Hself]|].
    split; [split; [by apply Hself|done]|].
    split; [done|]. split; [done|].
    intros E. destruct (Heq E) as [Ex Ey].
    split; [done|]. split; [apply Hzero; lra|].
    split; [apply Hzero; lra|done].
  - destruct (Hnarrow Hb) as [-> ->]. cbn [ImageUtils.rx ImageUtils.ry ImageUtils.rw ImageUtils.rh].
    destruct (narrower_branch_approx _ _ _ _ Hiw Hih Htw Hth Hb) as [Hy Hx].
    split; [by left|]. split; [split; [by apply Hself|done]|].
    split; [split; [done|by apply Hself]|].
    split; [done|]. split; [done|].
    intros E. destruct (Heq E) as [Ex Ey].
    split; [apply Hzero; lra|]. split; [done|].
    split; [done|apply Hzero; lra].
Qed.

(** A 5 by 29 image onto 5 by 29: the same aspect ratio, and a height that
    is not the target's. *)
Lemma fit_modes_related_witness :
  let c := ImageUtils.drawRect 5 29 5 29 ImageUtils.cover in
  (Qabs (ImageUtils.rh c - 29) <= roundingTolerance * 29)%Q /\
  ~ (ImageUtils.rh c == 29)%Q.
Proof.
  assert (P : forall n, (1 <=? n) && (n <=? 16777216) = true -> pixels n).
  { intros n [H1 H2]%andb_true_iff. unfold pixels. lia. }
  destruct (fit_modes_related 5 29 5 29
              (P 5 eq_refl) (P 29 eq_refl) (P 5 eq_refl) (P 29 eq_refl))
    as (_ & _ & _ & _ & _ & Heq).
  destruct (Heq eq_refl) as (_ & Hh & _).
  split; [exact Hh|]. vm_compute. discriminate.
Defined.

(* ===================================================================== *)
(** ** The request sent upstream                                          *)
(* ===================================================================== *)

Section RequestText.

Import JsString.

Lemma append_assoc a b c : (a +:+ b) +:+ c = a +:+ b +:+ c.
Proof.
  induction a as [|x a IH]; [reflexivity|].
  rewrite !append_cons. by rewrite IH.
Qed.

Lemma trimStart_app a b :
  allWhiteSpace a = false -> trimStart (a +:+ b) = trimStart a +:+ b.
Proof.
  induction a as [|c a IH]; [discriminate|].
  rewrite append_cons. cbn [allWhiteSpace trimStart].
  destruct (isWhiteSpace c); [exact IH|]. intros _. by rewrite append_cons.
Qed.

Lemma isEmpty_trimEnd s : isEmpty (trimEnd s) = allWhiteSpace s.
Proof.
  induction s as [|c s IH]; [done|]. cbn [trimEnd allWhiteSpace].
  rewrite IH. by destruct (isWhiteSpace c), (allWhiteSpace s).
Qed.

Lemma isEmpty_app a b : isEmpty (a +:+ b) = isEmpty a && isEmpty b.
Proof. by destruct a. Qed.

Lemma trimEnd_app a b :
  allWhiteSpace b = false -> trimEnd (a +:+ b) = a +:+ trimEnd b.
Proof.
  intros Hb. induction a as [|c a IH]; [reflexivity|].
  rewrite !append_cons. cbn [trimEnd]. rewrite IH.
  rewrite isEmpty_app, isEmpty_trimEnd, Hb, andb_false_r, andb_false_r.
  reflexivity.
Qed.

Lemma allWhiteSpace_app a b :
  allWhiteSpace (a +:+ b) = allWhiteSpace a && allWhiteSpace b.
Proof.
  induction a as [|c a IH]; [reflexivity|].
  rewrite append_cons. cbn [allWhiteSpace]. rewrite IH. by rewrite andb_assoc.
Qed.

(** Around a text, [trim] only touches what precedes and what follows it,
    when neither is blank. *)
Lemma trim_around pre mid post :
  allWhiteSpace pre = false -> allWhiteSpace post = false ->
  trim (pre +:+ mid +:+ post) = trimStart pre +:+ mid +:+ trimEnd post.
Proof.
  intros Hpre Hpost. unfold trim. rewrite trimStart_app by done.
  rewrite <- append_assoc, trimEnd_app by done. by rewrite append_assoc.
Qed.

Lemma startsWith_app p s : startsWith (p +:+ s) p = true.
Proof. unfold startsWith. by rewrite stripPrefix_app. Qed.

Lemma includes_app a p b : includes (a +:+ p +:+ b) p = true.
Proof.
  induction a as [|c a IH].
  - change (EmptyString +:+ p +:+ b) with (p +:+ b).
    destruct (p +:+ b) eqn:E; cbn [includes];
      rewrite <- E, startsWith_app; reflexivity.
  - rewrite append_cons. cbn [includes]. rewrite IH. apply orb_true_r.
Qed.

End RequestText.

(** X14.  The request of a generation action ends with one text part: the
    fixed style rules and task lines with the user's prompt inserted
    verbatim, neither trimmed nor escaped, the whole trimmed at both ends.
    With a base image, a first part carries the image's payload and media
    type; without one, the text part is the only part. *)
Theorem request_carries_prompt (prompt : string) (img : ImageData) :
  GeminiService.requestParts prompt None
  = [ {| GeminiService.inlineData := None;
         GeminiService.text :=
           Some (JsString.trimStart generatePrefix +:+ prompt
                 +:+ JsString.trimEnd generateSuffix) |} ] /\
  GeminiService.requestParts prompt (Some img)
  = [ {| GeminiService.inlineData :=
           Some {| GeminiService.blob_mimeType := Some (mimeType img);
                   GeminiService.blob_data := data img |};
         GeminiService.text := None |};
      {| GeminiService.inlineData := None;
         GeminiService.text :=
           Some (JsString.trimStart transformPrefix +:+ prompt
                 +:+ JsString.trimEnd transformSuffix) |} ] /\
  JsString.includes
    (JsString.trimStart generatePrefix +:+ prompt
     +:+ JsString.trimEnd generateSuffix) prompt = true /\
  JsString.includes
    (JsString.trimStart transformPrefix +:+ prompt
     +:+ JsString.trimEnd transformSuffix) prompt = true /\
  JsString.startsWith (JsString.trimStart generatePrefix)
    "You are a senior Visual Designer" = true /\
  JsString.startsWith (JsString.trimStart transformPrefix)
    "You are a senior Visual Designer" = true.
Proof.
  assert (Hg : GeminiService.generateTemplate prompt
               = generatePrefix +:+ prompt +:+ generateSuffix)
    by reflexivity.
  assert (Ht : GeminiService.transformTemplate prompt
               = transformPrefix +:+ prompt +:+ transformSuffix)
    by reflexivity.
  unfold GeminiService.requestParts. rewrite Hg, Ht.
  rewrite !trim_around by (vm_compute; reflexivity).
  split; [reflexivity|]. split; [reflexivity|].
  split; [apply includes_app|]. split; [apply includes_app|].
  split; vm_compute; reflexivity.
Qed.

(* ===================================================================== *)
(** ** Export                                                             *)
(* ===================================================================== *)

Section ExportNames.

Import EditorSession.

Lemma lowerUnit_idem (c : ascii) : lowerUnit (lowerUnit c) = lowerUnit c.
Proof. destruct c as [[] [] [] [] [] [] [] []]; reflexivity. Qed.

Lemma stringAll_impl (p q : ascii -> bool) (s : string) :
  (forall c, p c = true -> q c = true) ->
  stringAll p s = true -> stringAll q s = true.
Proof.
  intros Hpq. induction s as [|c s IH]; [done|]. cbn.
  intros [Hc Hs]%andb_true_iff. rewrite (Hpq c Hc). by apply IH.
Qed.

Lemma stringAll_app (p : ascii -> bool) (s t : string) :
  stringAll p (s +:+ t) = stringAll p s && stringAll p t.
Proof.
  induction s as [|c s IH]; [done|].
  rewrite append_cons. cbn. by rewrite IH, andb_assoc.
Qed.

Lemma toLowerCase_lower (s : string) :
  stringAll (fun c => Ascii.eqb (lowerUnit c) c) (toLowerCase s) = true.
Proof.
  induction s as [|c s IH]; [done|]. cbn [toLowerCase stringAll].
  by rewrite lowerUnit_idem, Ascii.eqb_refl, IH.
Qed.

Lemma dashWhiteSpace_keeps (p : ascii -> bool) (inRun : bool) (s : string) :
  p "-"%char = true ->
  stringAll p s = true ->
  stringAll (fun c => negb (JsString.isWhiteSpace c) && p c)
    (dashWhiteSpace inRun s) = true.
Proof.
  intros Hdash. revert inRun. induction s as [|c s IH]; intros inRun; [done|].
  cbn [stringAll dashWhiteSpace]. intros [Hc Hs]%andb_true_iff.
  destruct (JsString.isWhiteSpace c) eqn:Hw.
  - destruct inRun; [by apply IH|].
    cbn [stringAll]. rewrite Hdash, IH by done. reflexivity.
  - cbn [stringAll]. by rewrite Hw, Hc, IH.
Qed.

Lemma removeParens_keeps (p : ascii -> bool) (s : string) :
  stringAll p s = true ->
  stringAll (fun c => negb (isParen c) && p c) (removeParens s) = true.
Proof.
  induction s as [|c s IH]; [done|].
  cbn [stringAll removeParens]. intros [Hc Hs]%andb_true_iff.
  destruct (isParen c) eqn:Hp; [by apply IH|].
  cbn [stringAll]. by rewrite Hp, Hc, IH.
Qed.

Lemma cleanLabel_plain (label : string) :
  stringAll plainUnit (cleanLabel label) = true.
Proof.
  unfold cleanLabel.
  eapply stringAll_impl;
    [|apply removeParens_keeps,
        (dashWhiteSpace_keeps (fun c => Ascii.eqb (lowerUnit c) c) false);
      [reflexivity|apply toLowerCase_lower]].
  intros c. cbv beta. unfold plainUnit.
  intros [Hp [Hw Hl]%andb_true_iff]%andb_true_iff.
  by rewrite Hw, Hp, Hl.
Qed.

Lemma cleanLabel_fixed (label : string) :
  stringAll plainUnit label = true -> cleanLabel label = label.
Proof.
  unfold cleanLabel. intros H.
  assert (Hl : toLowerCase label = label).
  { induction label as [|c s IH]; [done|]. cbn in H |- *.
    apply andb_true_iff in H as [Hc Hs]. unfold plainUnit in Hc.
    apply andb_true_iff in Hc as [_ Hc]. apply Ascii.eqb_eq in Hc.
    by rewrite Hc, IH. }
  rewrite Hl.
  assert (Hd : dashWhiteSpace false label = label).
  { clear Hl. induction label as [|c s IH]; [done|]. cbn in H |- *.
    apply andb_true_iff in H as [Hc Hs]. unfold plainUnit in Hc.
    apply andb_true_iff in Hc as [[Hw _]%andb_true_iff _].
    apply negb_true_iff in Hw. by rewrite Hw, IH. }
  rewrite Hd. clear Hl Hd.
  induction label as [|c s IH]; [done|]. cbn in H |- *.
  apply andb_true_iff in H as [Hc Hs]. unfold plainUnit in Hc.
  apply andb_true_iff in Hc as [[_ Hp]%andb_true_iff _].
  apply negb_true_iff in Hp. by rewrite Hp, IH.
Qed.

Lemma string_of_uint_plain (d : Decimal.uint) :
  stringAll plainUnit (NilEmpty.string_of_uint d) = true.
Proof. induction d; cbn; (done || exact IHd). Qed.

End ExportNames.

(** X15.  The label of an export is cleaned into a part of a file name
    that holds no white space, no parenthesis and no capital letter; a
    label that holds none of them is left as it is, so cleaning twice is
    cleaning once.  The whole file name, with the time of the export, is
    free of them as well. *)
Theorem export_name_plain (label : string) (now : N) :
  stringAll plainUnit (EditorSession.cleanLabel label) = true /\
  (stringAll plainUnit label = true ->
   EditorSession.cleanLabel label = label) /\
  EditorSession.cleanLabel (EditorSession.cleanLabel label)
    = EditorSession.cleanLabel label /\
  stringAll plainUnit (exportName label now) = true.
Proof.
  split; [apply cleanLabel_plain|]. split; [apply cleanLabel_fixed|].
  split; [apply cleanLabel_fixed, cleanLabel_plain|].
  unfold exportName. rewrite !stringAll_app, cleanLabel_plain.
  unfold EditorSession.timeToString. by rewrite string_of_uint_plain.
Qed.

Lemma export_name_plain_witness :
  EditorSession.cleanLabel "WP Standard (1200x675)" = "wp-standard-1200x675" /\
  EditorSession.cleanLabel "wp-standard-1200x675" = "wp-standard-1200x675" /\
  exportName "Social  Square (1200x1200)" 1700000000000%N
    = "wp-social-square-1200x1200-1700000000000.png".
Proof.
  destruct (export_name_plain "wp-standard-1200x675" 0%N) as (_ & Hfix & _).
  split; [reflexivity|]. split; [apply Hfix; reflexivity|].
  vm_compute. reflexivity.
Defined.

(** X16.  An export without an active image does nothing.  With one, it
    never changes the images of the editor, and it starts with the loading
    toast.  When a dimension is not positive (the original resolution) it
    downloads the image under its own URL, without loading or redrawing it.
    When both are positive it loads the image once and then either
    downloads the encoding of the canvas drawn by [resizeImage] in cover
    mode, or, when the resize fails, downloads nothing, leaves the state as
    it was and ends with the toast of the failure.  Every download closes
    the export menu and carries the cleaned file name. *)
Theorem export_outcomes (b : EditorSession.Browser) (now : N) (w h : Q)
    (label : string) (imgOverride : option ImageData)
    (ed : EditorSession.Editor) :
  let ed' := (EditorSession.handleExport b now w h label imgOverride ed).1 in
  let evs := (EditorSession.handleExport b now w h label imgOverride ed).2 in
  (activeImage imgOverride ed = None -> ed' = ed /\ evs = []) /\
  (forall img,
     activeImage imgOverride ed = Some img ->
     EditorSession.core ed' = EditorSession.core ed /\
     head evs
       = Some (EditorSession.Toast EditorSession.Loading
                 ("Exporting " +:+ label +:+ "...")) /\
     (~ ((0 < w)%Q /\ (0 < h)%Q) ->
      imageLoads evs = [] /\
      domOps evs
        = EditorSession.downloadImage (url img) (Some (exportName label now)) /\
      last evs
        = Some (EditorSession.Toast EditorSession.Success "Downloaded!") /\
      EditorSession.showExportMenu ed' = false) /\
     ((0 < w)%Q /\ (0 < h)%Q ->
      imageLoads evs = [url img] /\
      ((exists ops,
          ImageUtils.resizeImage (EditorSession.loadImage b (url img))
            (EditorSession.hasContext2d b) w h ImageUtils.cover
          = Fulfilled ops /\
          domOps evs
            = EditorSession.downloadImage
                (EditorSession.encodePng b (url img) ops)
                (Some (exportName label now)) /\
          last evs
            = Some (EditorSession.Toast EditorSession.Success "Downloaded!") /\
          EditorSession.showExportMenu ed' = false)
       \/
       (exists e,
          ImageUtils.resizeImage (EditorSession.loadImage b (url img))
            (EditorSession.hasContext2d b) w h ImageUtils.cover
          = Rejected e /\
          domOps evs = [] /\
          last evs
            = Some (EditorSession.Toast EditorSession.Failure "Export failed") /\
          ed' = ed)))).
Proof.
  cbv zeta. unfold EditorSession.handleExport. fold (activeImage imgOverride ed).
  destruct (activeImage imgOverride ed) as [img|]; [|done].
  split; [done|]. intros ? [= <-].
  fold (exportName label now).
  destruct (Qlt_le_dec 0 w) as [Hw|Hw]; cbn [andb].
  1: destruct (Qlt_le_dec 0 h) as [Hh|Hh].
  - unfold EditorSession.resizeImageUrl.
    destruct (ImageUtils.resizeImage _ _ w h ImageUtils.cover) as [ops|e].
    + split; [done|]. split; [done|]. split; [intros []; by split|].
      intros _. split; [done|]. left. by exists ops.
    + split; [done|]. split; [done|]. split; [intros []; by split|].
      intros _. split; [done|]. right. by exists e.
  - split; [done|]. split; [done|]. split; [done|].
    intros [_ Hh']. exfalso. by apply (Qle_not_lt _ _ Hh).
  - split; [done|]. split; [done|]. split; [done|].
    intros [Hw' _]. exfalso. by apply (Qle_not_lt _ _ Hw).
Qed.

Lemma export_outcomes_witness :
  let ed :=
    sampleEditor
      (ImageEditor.setGeneration (freshEditor None) SUCCESS [sampleImage] 0) in
  domOps (EditorSession.handleExport sampleBrowser 1700000000000%N
            0 0 "Original Resolution" None ed).2
    = EditorSession.downloadImage (url sampleImage)
        (Some "wp-original-resolution-1700000000000.png") /\
  imageLoads (EditorSession.handleExport sampleBrowser 1700000000000%N
                1200 675 "WP Standard (1200x675)" None ed).2
    = [url sampleImage].
Proof.
  intros ed. split.
  - destruct (export_outcomes sampleBrowser 1700000000000%N 0 0
                "Original Resolution" None ed) as [_ H].
    destruct (H sampleImage eq_refl) as (_ & _ & Hraw & _).
    destruct Hraw as (_ & Hdom & _); [by intros [[=] _]|].
    exact Hdom.
  - destruct (export_outcomes sampleBrowser 1700000000000%N 1200 675
                "WP Standard (1200x675)" None ed) as [_ H].
    destruct (H sampleImage eq_refl) as (_ & _ & _ & Hsized).
    destruct Hsized as [Hload _]; [by split|]. exact Hload.
Defined.

(** The file names of the four export presets, at time 0. *)
Example exportSizes_names :
  (fun size => exportName size.1.1 0) <$> EditorSession.exportSizes
  = [ "wp-wp-standard-1200x675-0.png"; "wp-wp-hd-hero-1920x1080-0.png";
      "wp-social-square-1200x1200-0.png"; "wp-original-resolution-0.png" ].
Proof. vm_compute. reflexivity. Qed.

(* ===================================================================== *)
(** ** Persistence                                                        *)
(* ===================================================================== *)

Section Persistence.

Import EditorSession.

Lemma mapM_id_Some {A : Type} (l : list A) :
  mapM id (Some <$> l) = Some l.
Proof.
  induction l as [|x l IH]; [done|].
  change (mapM id (Some <$> x :: l))
    with (y ← Some x; k ← mapM id (Some <$> l); mret (y :: k)).
  by rewrite IH.
Qed.

Lemma orString_id (s d : string) :
  JsString.isEmpty s = false -> orString s d = s.
Proof. unfold orString. by intros ->. Qed.

Lemma orString_empty (s : string) : orString s "" = s.
Proof. by destruct s. Qed.

Lemma orNumber_id (n d : Z) : n <> 0 -> orNumber n d = n.
Proof. unfold orNumber. by destruct (Z.eqb_spec n 0). Qed.

Lemma orNumber_zero (n : Z) : orNumber n 0 = n.
Proof. unfold orNumber. by destruct (Z.eqb_spec n 0). Qed.

(** A component mounts on a storage as soon as the stored paint history
    holds no [null]. *)
Lemma initialEditor_mounts (ls : LocalStorage) (h : list string) :
  mapM id (match getSavedPaintSession ls with
           | Some p => saved_paintHistory p
           | None => []
           end) = Some h ->
  exists ed0,
    initialEditor ls = Some ed0 /\
    ImageEditor.paintHistory (core ed0) = h /\
    mountsClean ed0.
Proof.
  intros Hh. unfold initialEditor. rewrite Hh. cbn [mbind option_bind].
  eexists. split; [reflexivity|]. by repeat split.
Qed.

(** Replacing the stored state changes the prompt and the base image a
    component mounts with, and nothing else. *)
Lemma initialEditor_state (se se' : Entry SavedState)
    (pe : Entry PaintSession) (mounted : Editor) :
  initialEditor {| stateEntry := se; paintEntry := pe |} = Some mounted ->
  mountsClean mounted /\
  exists ed0,
    initialEditor {| stateEntry := se'; paintEntry := pe |} = Some ed0 /\
    mountsClean ed0 /\
    ImageEditor.paintHistory (core ed0)
      = ImageEditor.paintHistory (core mounted) /\
    ImageEditor.prompt (core ed0)
      = match getSaved se' with
        | Some st => orString (saved_prompt st) ""
        | None => ""
        end /\
    ImageEditor.originalImage (core ed0)
      = match getSaved se' with
        | Some st =>
            match saved_originalImage st with
            | ImageSaved img => Some img
            | ImageNull | ImageOmitted => None
            end
        | None => None
        end.
Proof.
  unfold initialEditor.
  cbn [getSavedPaintSession getSavedState stateEntry paintEntry].
  destruct (mapM id _) as [h|]; [|done]. cbn [mbind option_bind].
  intros [= <-]. split; [by repeat split|].
  eexists. split; [reflexivity|]. by repeat split.
Qed.

End Persistence.

(** X17.  The paint session survives a reload.  Outside a session the
    auto-save removes the stored session, and the component mounts outside
    a session, with no history and the default brush.  Inside one, when the
    storage takes the session in full, the component mounts in the session
    with the same history, the same pointer and the same brush.  When it
    takes only the reduced session, the component mounts in the session on
    the current snapshot alone, the pointer on it: the entries to undo and
    redo are lost.  When it takes neither, the storage keeps what it held.
    The stored prompt and image are never touched. *)
Theorem paint_session_survives (q : EditorSession.Quota)
    (ed : EditorSession.Editor) (ls : EditorSession.LocalStorage) :
  let ls' := EditorSession.autoSavePaint q ed ls in
  EditorSession.stateEntry ls' = EditorSession.stateEntry ls /\
  (ImageEditor.isPainting (EditorSession.core ed) = false ->
   EditorSession.paintEntry ls' = EditorSession.NoEntry /\
   exists ed0,
     EditorSession.initialEditor ls' = Some ed0 /\
     ImageEditor.isPainting (EditorSession.core ed0) = false /\
     ImageEditor.paintHistory (EditorSession.core ed0) = [] /\
     ImageEditor.historyStep (EditorSession.core ed0) = 0 /\
     EditorSession.brushColor ed0 = "#38bdf8" /\
     EditorSession.brushSize ed0 = 20 /\
     EditorSession.brushOpacity ed0 = 100) /\
  (ImageEditor.isPainting (EditorSession.core ed) = true ->
   brushSet ed ->
   (EditorSession.fitsPaint q (fullSession ed) = true ->
    exists ed0,
      EditorSession.initialEditor ls' = Some ed0 /\
      ImageEditor.isPainting (EditorSession.core ed0) = true /\
      ImageEditor.paintHistory (EditorSession.core ed0)
        = ImageEditor.paintHistory (EditorSession.core ed) /\
      ImageEditor.historyStep (EditorSession.core ed0)
        = ImageEditor.historyStep (EditorSession.core ed) /\
      sameBrush ed ed0) /\
   (forall u,
      EditorSession.fitsPaint q (fullSession ed) = false ->
      EditorSession.fitsPaint q (minimalSession ed) = true ->
      ImageEditor.currentSnapshot (EditorSession.core ed) = Some u ->
      exists ed0,
        EditorSession.initialEditor ls' = Some ed0 /\
        ImageEditor.isPainting (EditorSession.core ed0) = true /\
        ImageEditor.paintHistory (EditorSession.core ed0) = [u] /\
        ImageEditor.historyStep (EditorSession.core ed0) = 0 /\
        ImageEditor.currentSnapshot (EditorSession.core ed0) = Some u /\
        sameBrush ed ed0) /\
   (EditorSession.fitsPaint q (fullSession ed) = false ->
    EditorSession.fitsPaint q (minimalSession ed) = false ->
    ls' = ls)).
Proof.
  cbv zeta. unfold EditorSession.autoSavePaint.
  fold (fullSession ed) (minimalSession ed).
  split.
  { destruct (negb _); [done|].
    destruct (EditorSession.fitsPaint q (fullSession ed)); [done|].
    by destruct (EditorSession.fitsPaint q (minimalSession ed)). }
  split.
  - intros ->. cbn [negb]. split; [done|].
    eexists. split; [reflexivity|]. by repeat split.
  - intros Hp (Hc & Hs & Ho). rewrite Hp. cbn [negb]. split; [|split].
    + intros ->. unfold EditorSession.initialEditor.
      cbn [EditorSession.getSavedPaintSession EditorSession.getSaved
           EditorSession.paintEntry fullSession
           EditorSession.saved_paintHistory].
      rewrite mapM_id_Some. cbn [mbind option_bind].
      eexists. split; [reflexivity|]. unfold fullSession.
      cbn [EditorSession.core EditorSession.brushColor
           EditorSession.brushSize EditorSession.brushOpacity
           ImageEditor.isPainting ImageEditor.paintHistory
           ImageEditor.historyStep EditorSession.saved_isPainting
           EditorSession.saved_historyStep EditorSession.saved_brushColor
           EditorSession.saved_brushSize EditorSession.saved_brushOpacity].
      rewrite Hp, orNumber_zero. split; [done|]. split; [done|].
      split; [done|]. unfold sameBrush.
      cbn [EditorSession.brushColor EditorSession.brushSize
           EditorSession.brushOpacity].
      by rewrite orString_id, !orNumber_id.
    + intros u -> -> Hu. unfold EditorSession.initialEditor.
      cbn [EditorSession.getSavedPaintSession EditorSession.getSaved
           EditorSession.paintEntry minimalSession
           EditorSession.saved_paintHistory].
      rewrite Hu. cbn [mapM mbind option_bind id fmap option_fmap option_map
                       mret option_ret].
      eexists. split; [reflexivity|]. unfold minimalSession.
      cbn [EditorSession.core EditorSession.brushColor
           EditorSession.brushSize EditorSession.brushOpacity
           ImageEditor.isPainting ImageEditor.paintHistory
           ImageEditor.historyStep EditorSession.saved_isPainting
           EditorSession.saved_historyStep EditorSession.saved_brushColor
           EditorSession.saved_brushSize EditorSession.saved_brushOpacity].
      rewrite Hp. split; [done|]. split; [done|]. split; [done|].
      split; [done|]. unfold sameBrush.
      cbn [EditorSession.brushColor EditorSession.brushSize
           EditorSession.brushOpacity].
      by rewrite orString_id, !orNumber_id.
    + by intros -> ->.
Qed.

Lemma paint_session_survives_witness :
  exists ed0,
    EditorSession.initialEditor
      (EditorSession.autoSavePaint tightQuota paintingEditor emptyStorage)
    = Some ed0 /\
    ImageEditor.paintHistory (EditorSession.core ed0)
      = ["data:image/png;base64,Qg=="] /\
    ImageEditor.historyStep (EditorSession.core ed0) = 0.
Proof.
  destruct (paint_session_survives tightQuota paintingEditor emptyStorage)
    as (_ & _ & H).
  destruct H as (_ & Hmin & _); [reflexivity|by repeat split|].
  destruct (Hmin "data:image/png;base64,Qg==" eq_refl eq_refl eq_refl)
    as (ed0 & H0 & _ & Hh & Hs & _).
  exists ed0. by repeat split.
Defined.

(** X18.  The prompt and the base image survive a reload as far as the
    storage allows.  When the storage takes the state in full, a component
    that mounts on it has the same prompt and the same base image.  When it
    takes only the prompt, the component mounts with the prompt and without
    a base image.  When it takes neither, the storage keeps what it held.
    The auto-save never touches the stored paint session, and whatever is
    stored, a component mounts with nothing generated, idle, outside the
    crop dialog. *)
Theorem editor_state_survives (q : EditorSession.Quota)
    (ed : EditorSession.Editor) (ls : EditorSession.LocalStorage)
    (mounted : EditorSession.Editor) :
  EditorSession.initialEditor ls = Some mounted ->
  let ls' := EditorSession.autoSave q ed ls in
  EditorSession.paintEntry ls' = EditorSession.paintEntry ls /\
  mountsClean mounted /\
  exists ed0,
    EditorSession.initialEditor ls' = Some ed0 /\
    mountsClean ed0 /\
    ImageEditor.paintHistory (EditorSession.core ed0)
      = ImageEditor.paintHistory (EditorSession.core mounted) /\
    (EditorSession.fitsState q (fullState ed) = true ->
     ImageEditor.prompt (EditorSession.core ed0)
       = ImageEditor.prompt (EditorSession.core ed) /\
     ImageEditor.originalImage (EditorSession.core ed0)
       = ImageEditor.originalImage (EditorSession.core ed)) /\
    (EditorSession.fitsState q (fullState ed) = false ->
     EditorSession.fitsState q (promptOnlyState ed) = true ->
     ImageEditor.prompt (EditorSession.core ed0)
       = ImageEditor.prompt (EditorSession.core ed) /\
     ImageEditor.originalImage (EditorSession.core ed0) = None) /\
    (EditorSession.fitsState q (fullState ed) = false ->
     EditorSession.fitsState q (promptOnlyState ed) = false ->
     ls' = ls /\ ed0 = mounted).
Proof.
  destruct ls as [se pe]. intros Hm. cbv zeta.
  unfold EditorSession.autoSave.
  fold (fullState ed) (promptOnlyState ed).
  cbn [EditorSession.paintEntry].
  destruct (EditorSession.fitsState q (fullState ed)) eqn:Hfull;
    [|destruct (EditorSession.fitsState q (promptOnlyState ed)) eqn:Hprompt];
    cbn [EditorSession.paintEntry]; (split; [done|]).
  - destruct (initialEditor_state se (EditorSession.Stored (fullState ed))
                pe mounted Hm) as (Hclean & ed0 & H0 & Hc0 & Hh & Hp & Hi).
    split; [done|]. exists ed0. split; [done|]. split; [done|].
    split; [done|]. split; [|by split].
    intros _. rewrite Hp, Hi. cbn. rewrite orString_empty. split; [done|].
    by destruct (ImageEditor.originalImage (EditorSession.core ed)).
  - destruct (initialEditor_state se
                (EditorSession.Stored (promptOnlyState ed))
                pe mounted Hm) as (Hclean & ed0 & H0 & Hc0 & Hh & Hp & Hi).
    split; [done|]. exists ed0. split; [done|]. split; [done|].
    split; [done|]. split; [done|]. split; [|done].
    intros _ _. rewrite Hp, Hi. cbn. by rewrite orString_empty.
  - destruct (initialEditor_state se se pe mounted Hm)
      as (Hclean & ed0 & H0 & Hc0 & Hh & _).
    split; [done|]. exists mounted. split; [done|]. split; [done|].
    by repeat split.
Qed.

Lemma editor_state_survives_witness :
  exists ed0,
    EditorSession.initialEditor
      (EditorSession.autoSave tightQuota paintingEditor emptyStorage)
    = Some ed0 /\
    ImageEditor.prompt (EditorSession.core ed0) = "Tea and coffee" /\
    ImageEditor.originalImage (EditorSession.core ed0) = None.
Proof.
  destruct (editor_state_survives tightQuota paintingEditor emptyStorage
              _ eq_refl) as (_ & _ & ed0 & H0 & _ & _ & _ & Hprompt & _).
  destruct (Hprompt eq_refl eq_refl) as [Hp Hi].
  exists ed0. by repeat split.
Defined.

(* ===================================================================== *)
(** ** Files and cropping                                                 *)
(* ===================================================================== *)

Section FilesMore.

Import EditorSession.

Variable API_KEY : string.
Variable JSON_parse : string -> option Json.
Context {W : Type}.
Variable ai :
  list GeminiService.Part ->
  Async UpstreamEvent W GeminiService.GenerateContentResponse.

(** A request for suggestions always ends with the loading flag down, at
    most three suggestions, and at most one run of its operation. *)
Lemma requestSuggestions_settles (img : ImageData) (kept : list Json)
    (ed : Editor) (w : W) :
  exists l w' evs,
    requestSuggestions API_KEY JSON_parse ai img kept ed w
    = (setSuggestions ed l false, w', evs) /\
    (length l <= 3)%nat /\
    oneSuggestionRequest img evs.
Proof.
  unfold requestSuggestions, GeminiService.generateEditSuggestions.
  destruct (JsString.isEmpty API_KEY).
  - exists [], w. eexists. split; [done|]. split; [cbn; lia|].
    exists []. split; [done|]. cbn. lia.
  - destruct (suggestions_retry JSON_parse ai img w) as (l & Hr & _ & Hlen).
    rewrite Hr. exists l. eexists _, _. split; [done|]. split; [done|].
    eexists. split; [done|]. cbn. lia.
Qed.

(** What [fileToImageData] accepts is what it read. *)
Lemma fileToImageData_url (read : Settled string) (img : ImageData) :
  ImageUtils.fileToImageData read = Fulfilled img ->
  read = Fulfilled (url img) /\ consistent img.
Proof.
  unfold ImageUtils.fileToImageData. destruct read as [result|e]; [|done].
  destruct (ImageUtils.imageDataOfUrl result) as [img'|] eqn:Hu; [|done].
  intros [= <-]. split; [|by eapply imageDataOfUrl_consistent].
  unfold ImageUtils.imageDataOfUrl in Hu.
  destruct (JsString.matchDataUrl result) as [[g1 g2]|]; [|done].
  by injection Hu as <-.
Qed.

End FilesMore.

(** X19.  A file that cannot be read as an image leaves the editor as it
    was, with one toast and no request.  A file that can be read becomes
    the base image, a consistent image whose [url] is what was read; the
    generated images are dropped, the editor is idle, in the crop dialog
    and outside any paint session, and one request for suggestions is made.
    The paint history is not cleared: when it holds snapshots, the next
    paint session resumes on the old snapshot instead of the new image;
    when it is empty, the next session starts on the new image. *)
Theorem load_file_keeps_paint_history
    (API_KEY : string) (JSON_parse : string -> option Json) {W : Type}
    (ai : list GeminiService.Part ->
          Async UpstreamEvent W GeminiService.GenerateContentResponse)
    (read : Settled string) (ed : EditorSession.Editor) (w : W) :
  let r := EditorSession.loadFile API_KEY JSON_parse ai read ed w in
  let c := EditorSession.core ed in
  let c' := EditorSession.core r.1.1 in
  (forall e,
     ImageUtils.fileToImageData read = Rejected e ->
     r = (ed, w,
          [EditorSession.Toast EditorSession.Failure "Failed to load image."]))
  /\
  (forall img,
     ImageUtils.fileToImageData read = Fulfilled img ->
     read = Fulfilled (url img) /\ consistent img /\
     ImageEditor.originalImage c' = Some img /\
     ImageEditor.generatedImages c' = [] /\
     ImageEditor.status c' = IDLE /\
     ImageEditor.isCropping c' = true /\
     ImageEditor.isPainting c' = false /\
     ImageEditor.prompt c' = ImageEditor.prompt c /\
     EditorSession.loadingSuggestions r.1.1 = false /\
     (length (EditorSession.suggestions r.1.1) <= 3)%nat /\
     oneSuggestionRequest img r.2 /\
     (ImageEditor.paintHistory c = [] ->
      ImageEditor.paintHistory (ImageEditor.startPainting c') = [url img] /\
      ImageEditor.historyStep (ImageEditor.startPainting c') = 0) /\
     (ImageEditor.paintHistory c <> [] ->
      ImageEditor.paintHistory (ImageEditor.startPainting c')
        = ImageEditor.paintHistory c /\
      ImageEditor.currentSnapshot (ImageEditor.startPainting c')
        = ImageEditor.currentSnapshot c)).
Proof.
  cbv zeta. unfold EditorSession.loadFile.
  destruct (ImageUtils.fileToImageData read) as [img|e] eqn:Hread.
  2: { split; [by intros ? [= <-]|done]. }
  split; [done|]. intros ? [= <-].
  match goal with
  | |- context [EditorSession.requestSuggestions _ _ _ img [] ?e w] =>
      destruct (requestSuggestions_settles API_KEY JSON_parse ai img [] e w)
        as (l & w' & evs & Hreq & Hlen & Hone); rewrite Hreq
  end.
  cbn [fst snd EditorSession.core EditorSession.setSuggestions
       EditorSession.setCropView EditorSession.setCore
       EditorSession.suggestions EditorSession.loadingSuggestions
       ImageEditor.originalImage ImageEditor.generatedImages
       ImageEditor.status ImageEditor.isCropping ImageEditor.isPainting
       ImageEditor.prompt].
  destruct (fileToImageData_url read img Hread) as [Hurl Hcons].
  split; [done|]. split; [done|].
  do 9 (split; [done|]).
  unfold ImageEditor.startPainting, ImageEditor.currentSnapshot.
  cbn [ImageEditor.originalImage ImageEditor.paintHistory].
  destruct (ImageEditor.paintHistory (EditorSession.core ed)) as [|u h];
    by split.
Qed.

Lemma load_file_keeps_paint_history_witness :
  let r :=
    EditorSession.loadFile "key" sampleJsonParse sampleTextClient
      (Fulfilled "data:image/jpeg;base64,TkVX") paintingEditor tt in
  ImageEditor.originalImage (EditorSession.core r.1.1)
    = Some {| data := "TkVX"; mimeType := "image/jpeg";
              url := "data:image/jpeg;base64,TkVX" |} /\
  ImageEditor.currentSnapshot
    (ImageEditor.startPainting (EditorSession.core r.1.1))
    = Some "data:image/png;base64,Qg==".
Proof.
  intros r.
  destruct (load_file_keeps_paint_history "key" sampleJsonParse
              sampleTextClient (Fulfilled "data:image/jpeg;base64,TkVX")
              paintingEditor tt) as [_ H].
  destruct (H {| data := "TkVX"; mimeType := "image/jpeg";
                 url := "data:image/jpeg;base64,TkVX" |} eq_refl)
    as (_ & _ & Himg & _ & _ & _ & _ & _ & _ & _ & _ & _ & Hold).
  split; [exact Himg|].
  destruct Hold as [_ Hsnap]; [done|]. exact Hsnap.
Defined.

(** X20.  Applying the crop frame without a base image does nothing.  When
    the crop fails (the image does not load, no 2D context, or the canvas
    does not encode to a data URL) the editor stays as it was, still in the
    crop dialog, with one toast and no request.  When no crop area was
    reported the base image is kept; otherwise the cropped image, a
    consistent image whose [url] is the encoding of the canvas, replaces
    it.  In both cases the dialog closes, nothing but the base image, the
    dialog flag and the suggestions changes, and one request for
    suggestions follows the toast. *)
Theorem crop_save_outcomes
    (API_KEY : string) (JSON_parse : string -> option Json) {W : Type}
    (ai : list GeminiService.Part ->
          Async UpstreamEvent W GeminiService.GenerateContentResponse)
    (image : Settled unit) (hasContext : bool)
    (toDataURL : ImageUtils.Area -> string)
    (ed : EditorSession.Editor) (w : W) :
  let r :=
    EditorSession.handleCropSave API_KEY JSON_parse ai image hasContext
      toDataURL ed w in
  let c := EditorSession.core ed in
  let c' := EditorSession.core r.1.1 in
  let applied (img : ImageData) :=
    ImageEditor.originalImage c' = Some img /\
    ImageEditor.isCropping c' = false /\
    sameButBaseImage c c' /\
    EditorSession.loadingSuggestions r.1.1 = false /\
    exists evs,
      r.2 = EditorSession.Toast EditorSession.Success "Frame applied!" :: evs /\
      oneSuggestionRequest img evs in
  (ImageEditor.originalImage c = None -> r = (ed, w, [])) /\
  (forall original,
     ImageEditor.originalImage c = Some original ->
     (EditorSession.croppedAreaPixels ed = None -> applied original) /\
     (forall pixels,
        EditorSession.croppedAreaPixels ed = Some pixels ->
        (forall e,
           ImageUtils.getCroppedImg image hasContext toDataURL pixels
             = Rejected e ->
           r = (ed, w,
                [EditorSession.Toast EditorSession.Failure
                   "Failed to apply frame"])) /\
        (forall img,
           ImageUtils.getCroppedImg image hasContext toDataURL pixels
             = Fulfilled img ->
           url img = toDataURL pixels /\ consistent img /\ applied img))).
Proof.
  cbv zeta. unfold EditorSession.handleCropSave.
  destruct (ImageEditor.originalImage (EditorSession.core ed))
    as [original|] eqn:Ho; [|done].
  split; [done|]. intros ? [= <-].
  assert (Happly : forall img,
    let r :=
      (let '(ed', w', evs) :=
         EditorSession.requestSuggestions API_KEY JSON_parse ai img
           (EditorSession.suggestions ed)
           (EditorSession.setCore ed
              {| ImageEditor.originalImage := Some img;
                 ImageEditor.generatedImages :=
                   ImageEditor.generatedImages (EditorSession.core ed);
                 ImageEditor.selectedImageIndex :=
                   ImageEditor.selectedImageIndex (EditorSession.core ed);
                 ImageEditor.prompt :=
                   ImageEditor.prompt (EditorSession.core ed);
                 ImageEditor.status :=
                   ImageEditor.status (EditorSession.core ed);
                 ImageEditor.isCropping := false;
                 ImageEditor.isPainting :=
                   ImageEditor.isPainting (EditorSession.core ed);
                 ImageEditor.paintHistory :=
                   ImageEditor.paintHistory (EditorSession.core ed);
                 ImageEditor.historyStep :=
                   ImageEditor.historyStep (EditorSession.core ed);
                 ImageEditor.isDrawing :=
                   ImageEditor.isDrawing (EditorSession.core ed) |}) w in
       (ed', w',
        EditorSession.Toast EditorSession.Success "Frame applied!" :: evs)) in
    ImageEditor.originalImage (EditorSession.core r.1.1) = Some img /\
    ImageEditor.isCropping (EditorSession.core r.1.1) = false /\
    sameButBaseImage (EditorSession.core ed) (EditorSession.core r.1.1) /\
    EditorSession.loadingSuggestions r.1.1 = false /\
    exists evs,
      r.2 = EditorSession.Toast EditorSession.Success "Frame applied!" :: evs /\
      oneSuggestionRequest img evs).
  { intros img. cbv zeta.
    match goal with
    | |- context [EditorSession.requestSuggestions _ _ _ img ?k ?e w] =>
        destruct (requestSuggestions_settles API_KEY JSON_parse ai img k e w)
          as (l & w' & evs & Hreq & Hlen & Hone); rewrite Hreq
    end.
    cbn. split; [done|]. split; [done|]. split; [by repeat split|].
    split; [done|]. by exists evs. }
  split.
  - intros ->. apply Happly.
  - intros pixels ->. split.
    + by intros e ->.
    + intros img Hc. rewrite Hc. split; [|split; [|apply Happly]].
      * unfold ImageUtils.getCroppedImg in Hc.
        destruct image; [|done]. destruct (negb hasContext); [done|].
        unfold ImageUtils.imageDataOfUrl in Hc.
        destruct (JsString.matchDataUrl (toDataURL pixels)) as [[g1 g2]|];
          [|done].
        by injection Hc as <-.
      * unfold ImageUtils.getCroppedImg in Hc.
        destruct image; [|done]. destruct (negb hasContext); [done|].
        destruct (ImageUtils.imageDataOfUrl (toDataURL pixels)) eqn:Hu;
          [|done].
        injection Hc as <-. by eapply imageDataOfUrl_consistent.
Qed.

Lemma crop_save_outcomes_witness :
  let ed :=
    EditorSession.onCropComplete
      (ImageUtils.mkArea 50 50 25 25) (ImageUtils.mkArea 800 450 400 225)
      (sampleEditor (freshEditor (Some sampleImage))) in
  EditorSession.handleCropSave "key" sampleJsonParse sampleTextClient
    (Fulfilled tt) false (fun _ => "data:image/png;base64,Q1JPUA==") ed tt
  = (ed, tt,
     [EditorSession.Toast EditorSession.Failure "Failed to apply frame"]).
Proof.
  intros ed.
  destruct (crop_save_outcomes "key" sampleJsonParse sampleTextClient
              (Fulfilled tt) false (fun _ => "data:image/png;base64,Q1JPUA==")
              ed tt) as [_ H].
  destruct (H sampleImage eq_refl) as [_ Hcrop].
  destruct (Hcrop (ImageUtils.mkArea 800 450 400 225) eq_refl) as [Hfail _].
  exact (Hfail (Error "No context") eq_refl).
Defined.

(* ===================================================================== *)
(** ** Strokes                                                            *)
(* ===================================================================== *)

Section Strokes.

Import EditorSession.

Lemma canvasMounted_onPaintStart (c : ImageEditor.EditorState) :
  ImageEditor.canvasMounted (ImageEditor.onPaintStart c)
  = ImageEditor.canvasMounted c.
Proof. unfold ImageEditor.onPaintStart. by destruct (negb _). Qed.

Lemma canvasMounted_isPainting (c : ImageEditor.EditorState) :
  ImageEditor.canvasMounted c = true -> ImageEditor.isPainting c = true.
Proof.
  unfold ImageEditor.canvasMounted.
  by intros [[_ H]%andb_true_iff _]%andb_true_iff.
Qed.

Lemma last_cons_default {A : Type} (l : list A) (x d : A) :
  List.last (x :: l) d = List.last l x.
Proof.
  revert x d. induction l as [|y l IH]; intros x d; [done|].
  change (List.last (y :: l) d = List.last (y :: l) x). by rewrite !IH.
Qed.

Lemma polyline_setCore (ed : Editor) (c : ImageEditor.EditorState)
    (p0 : Point) (ps : list Point) :
  polyline (setCore ed c) p0 ps = polyline ed p0 ps.
Proof.
  revert p0. induction ps as [|p ps IH]; intros p0; [done|].
  cbn [polyline]. by rewrite IH.
Qed.

(** Moves during a stroke extend the line from the last position. *)
Lemma mouseMoves_polyline (canvas : Canvas) (moves : list (Q * Q))
    (ed : Editor) (p0 : Point) (drawn : list Segment) :
  ImageEditor.isDrawing (core ed) = true ->
  ImageEditor.canvasMounted (core ed) = true ->
  mouseMoves canvas true moves
    (ed, {| lastPos := Some p0; strokes := drawn |})
  = (ed,
     {| lastPos := Some (List.last (canvasPoint canvas <$> moves) p0);
        strokes := drawn ++ polyline ed p0 (canvasPoint canvas <$> moves) |}).
Proof.
  intros Hd Hm. revert p0 drawn.
  induction moves as [|xy moves IH]; intros p0 drawn.
  - cbn. by rewrite app_nil_r.
  - unfold mouseMoves in *. cbn [foldl].
    assert (Hstep :
      onPaintDraw canvas true (MouseEvent xy.1 xy.2)
        (ed, {| lastPos := Some p0; strokes := drawn |})
      = (ed, {| lastPos := Some (canvasPoint canvas xy);
                strokes := drawn ++ polyline ed p0 [canvasPoint canvas xy] |})).
    { unfold onPaintDraw, paintCanvasRef. rewrite Hd, Hm. reflexivity. }
    rewrite Hstep, IH. cbn [fmap list_fmap polyline].
    rewrite <- app_assoc, last_cons_default. reflexivity.
Qed.

End Strokes.

(** X21.  A stroke is one connected line.  On a mounted canvas with a 2D
    context, a mouse-down followed by mouse moves strokes, in order, the
    segments that join the position of the mouse-down to the first move and
    each move to the next, all in canvas coordinates and with the brush of
    the editor; nothing else of the editor changes but the flag of the
    stroke in progress.  Moves outside a stroke, or without a 2D context,
    draw nothing. *)
Theorem stroke_is_connected (canvas : EditorSession.Canvas)
    (down : Q * Q) (moves : list (Q * Q))
    (ed : EditorSession.Editor) (sf : EditorSession.Surface) :
  ImageEditor.canvasMounted (EditorSession.core ed) = true ->
  let started :=
    EditorSession.onPaintStartAt canvas
      (EditorSession.MouseEvent down.1 down.2) (ed, sf) in
  let points := canvasPoint canvas <$> moves in
  mouseMoves canvas true moves started
  = (EditorSession.setCore ed
       (ImageEditor.onPaintStart (EditorSession.core ed)),
     {| EditorSession.lastPos :=
          Some (List.last points (canvasPoint canvas down));
        EditorSession.strokes :=
          EditorSession.strokes sf
          ++ polyline ed (canvasPoint canvas down) points |}) /\
  ImageEditor.isDrawing (EditorSession.core started.1) = true /\
  mouseMoves canvas false moves started = started /\
  (ImageEditor.isDrawing (EditorSession.core ed) = false ->
   mouseMoves canvas true moves (ed, sf) = (ed, sf)).
Proof.
  intros Hm. cbv zeta.
  pose proof (canvasMounted_isPainting _ Hm) as Hp.
  assert (Hstart :
    EditorSession.onPaintStartAt canvas
      (EditorSession.MouseEvent down.1 down.2) (ed, sf)
    = (EditorSession.setCore ed
         (ImageEditor.onPaintStart (EditorSession.core ed)),
       {| EditorSession.lastPos := Some (canvasPoint canvas down);
          EditorSession.strokes := EditorSession.strokes sf |})).
  { unfold EditorSession.onPaintStartAt, EditorSession.paintCanvasRef.
    rewrite Hp, Hm. reflexivity. }
  rewrite Hstart.
  assert (Hd : ImageEditor.isDrawing
                 (ImageEditor.onPaintStart (EditorSession.core ed)) = true).
  { unfold ImageEditor.onPaintStart. by rewrite Hp. }
  split; [|split; [exact Hd|split]].
  - rewrite mouseMoves_polyline;
      [by rewrite polyline_setCore|exact Hd|
       cbn [EditorSession.core EditorSession.setCore];
       by rewrite canvasMounted_onPaintStart].
  - unfold mouseMoves. induction moves as [|xy moves IH]; [done|].
    cbn [foldl]. unfold EditorSession.onPaintDraw at 2.
    cbn [EditorSession.core EditorSession.setCore].
    rewrite Hd, canvasMounted_onPaintStart, Hm. exact IH.
  - intros Hnd. unfold mouseMoves.
    induction moves as [|xy moves IH]; [done|].
    cbn [foldl]. unfold EditorSession.onPaintDraw at 2.
    rewrite Hnd. exact IH.
Qed.

Lemma stroke_is_connected_witness :
  let ed :=
    sampleEditor
      (ImageEditor.startPainting (freshEditor (Some sampleImage))) in
  EditorSession.strokes
    (mouseMoves sampleCanvas true [(500, 50); (900, 500)]%Q
       (EditorSession.onPaintStartAt sampleCanvas
          (EditorSession.MouseEvent 100 50) (ed, blankSurface))).2
  = polyline ed (canvasPoint sampleCanvas (100, 50)%Q)
      [canvasPoint sampleCanvas (500, 50)%Q;
       canvasPoint sampleCanvas (900, 500)%Q].
Proof.
  intros ed.
  destruct (stroke_is_connected sampleCanvas (100, 50)%Q
              [(500, 50); (900, 500)]%Q ed blankSurface eq_refl)
    as [H _].
  cbn [fst snd] in H. rewrite H. reflexivity.
Defined.


Section Coordinates.

Import Binary64.
Local Open Scope Q_scope.

(** One coordinate of [getPaintCoordinates]: the offset [x - left] in an
    element of size [size], scaled to a bitmap of size [bitmap]. *)
Lemma coordinate_bounds (x left size bitmap : Q) :
  0 < size -> 0 <= bitmap ->
  let p := mul (sub x left) (div bitmap size) in
  (x == left -> p = 0) /\
  (left <= x <= left + size ->
   0 <= p <= bitmap * (1 + roundingTolerance)) /\
  (x - left == size -> Qabs (p - bitmap) <= roundingTolerance * bitmap).
Proof.
  intros Hsize Hbitmap. cbv zeta.
  destruct (div_bounds bitmap size Hbitmap Hsize) as [Slo Shi].
  assert (Spos : 0 <= div bitmap size).
  { unfold div. destruct (round_nonneg (bitmap / size)) as [H _].
    - apply Qle_shift_div_l; lra.
    - assert (H0 : 0 <= bitmap / size) by (apply Qle_shift_div_l; lra).
      unfold unitRoundoff in H.
      generalize dependent (round (bitmap / size)).
      generalize dependent (bitmap / size). intros q Hq r Hr. lra. }
  generalize dependent (div bitmap size). intros sc Slo Shi Spos.
  split.
  { intros E. unfold mul, sub.
    assert (E1 : x - left == 0) by lra. rewrite (round_zero _ E1).
    apply round_zero. ring. }
  assert (Hcore : forall lo hi : Q,
            0 <= lo -> lo <= 1 -> 1 <= hi ->
            size * lo <= x - left -> x - left <= size * hi ->
            bitmap * lo * ((1 - unitRoundoff) * (1 - unitRoundoff) * (1 - unitRoundoff))
              <= mul (sub x left) sc /\
            mul (sub x left) sc
              <= bitmap * hi * ((1 + unitRoundoff) * (1 + unitRoundoff) * (1 + unitRoundoff))).
  { intros lo hi Hlo0 Hlo1 Hhi1 Hvlo Hvhi.
    assert (Hv : 0 <= x - left).
    { apply Qle_trans with (size * lo); [|done].
      apply Qmult_le_0_compat; lra. }
    unfold mul, sub. destruct (round_nonneg (x - left) Hv) as [Vlo Vhi].
    assert (Vpos : 0 <= round (x - left)).
    { unfold unitRoundoff in Vlo. generalize dependent (round (x - left)).
      intros s Vlo _. lra. }
    generalize dependent (round (x - left)). intros s Vlo Vhi Vpos.
    assert (Hm : 0 <= s * sc) by (by apply Qmult_le_0_compat).
    destruct (round_nonneg (s * sc) Hm) as [Plo Phi].
    generalize dependent (round (s * sc)). intros p Plo Phi.
    assert (M1 : (size * lo * (1 - unitRoundoff)) * sc <= s * sc).
    { apply Qmult_le_compat_r; [|done]. unfold unitRoundoff in *.
      apply Qle_trans with ((x - left) * (1 - (1 # 9007199254740992)));
        [|done].
      apply Qmult_le_compat_r; [done|lra]. }
    assert (M2 : s * sc <= (size * hi * (1 + unitRoundoff)) * sc).
    { apply Qmult_le_compat_r; [|done]. unfold unitRoundoff in *.
      apply Qle_trans with ((x - left) * (1 + (1 # 9007199254740992)));
        [done|].
      apply Qmult_le_compat_r; [done|lra]. }
    assert (N1 : bitmap * (1 - unitRoundoff) * lo <= sc * size * lo)
      by (apply Qmult_le_compat_r; lra).
    assert (N2 : sc * size * hi <= bitmap * (1 + unitRoundoff) * hi)
      by (apply Qmult_le_compat_r; lra).
    unfold unitRoundoff in *. clear Vlo Vhi Hvlo Hvhi Slo Shi.
    split; lra. }
  split.
  - intros [Hl Hr].
    destruct (Hcore 0 1) as [Plo Phi]; try lra.
    unfold unitRoundoff, roundingTolerance in *.
    generalize dependent (mul (sub x left) sc). intros p _ Plo Phi.
    split; lra.
  - intros E.
    destruct (Hcore 1 1) as [Plo Phi]; try lra.
    unfold unitRoundoff, roundingTolerance in *.
    generalize dependent (mul (sub x left) sc). intros p _ Plo Phi.
    apply Qabs_Qle_condition. split; lra.
Qed.

End Coordinates.

(** X22.  [getPaintCoordinates] scales a viewport position to the bitmap
    of the canvas, in binary64.  For a canvas shown at least one pixel wide
    and high, the top-left corner of the element maps to exactly (0, 0); a
    position inside the element maps to a point that is not negative and
    lies inside the bitmap up to rounding, one part in [2 ^ 50]; and the
    far edges of the element map to the size of the bitmap up to the same
    rounding.  A touch event counts by its first touch, and fails without
    one; without a canvas the result is (0, 0). *)
Theorem paint_coordinates_scale (canvas : EditorSession.Canvas) (x y : Q) :
  let rect := EditorSession.boundingRect canvas in
  let left := EditorSession.rect_left rect in
  let top := EditorSession.rect_top rect in
  let width := EditorSession.rect_width rect in
  let height := EditorSession.rect_height rect in
  let cw := EditorSession.canvas_width canvas in
  let ch := EditorSession.canvas_height canvas in
  (1 <= width)%Q -> (1 <= height)%Q -> (0 <= cw)%Q -> (0 <= ch)%Q ->
  EditorSession.getPaintCoordinates (Some canvas)
    (EditorSession.MouseEvent x y) = Some (canvasPoint canvas (x, y)) /\
  (forall rest,
     EditorSession.getPaintCoordinates (Some canvas)
       (EditorSession.TouchEvent ((x, y) :: rest))
     = Some (canvasPoint canvas (x, y))) /\
  EditorSession.getPaintCoordinates (Some canvas)
    (EditorSession.TouchEvent []) = None /\
  EditorSession.getPaintCoordinates None (EditorSession.MouseEvent x y)
    = Some (EditorSession.mkPoint 0 0) /\
  canvasPoint canvas (left, top) = EditorSession.mkPoint 0 0 /\
  ((left <= x <= left + width)%Q ->
   (0 <= EditorSession.px (canvasPoint canvas (x, y))
      <= cw * (1 + roundingTolerance))%Q) /\
  ((top <= y <= top + height)%Q ->
   (0 <= EditorSession.py (canvasPoint canvas (x, y))
      <= ch * (1 + roundingTolerance))%Q) /\
  ((x - left == width)%Q ->
   (Qabs (EditorSession.px (canvasPoint canvas (x, y)) - cw)
      <= roundingTolerance * cw)%Q) /\
  ((y - top == height)%Q ->
   (Qabs (EditorSession.py (canvasPoint canvas (x, y)) - ch)
      <= roundingTolerance * ch)%Q).
Proof.
  intros rect left top width height cw ch Hw Hh Hcw Hch.
  assert (Hw0 : (0 < width)%Q) by lra.
  assert (Hh0 : (0 < height)%Q) by lra.
  destruct (coordinate_bounds x left width cw Hw0 Hcw) as (_ & Hxin & Hxedge).
  destruct (coordinate_bounds y top height ch Hh0 Hch) as (_ & Hyin & Hyedge).
  destruct (coordinate_bounds left left width cw Hw0 Hcw) as (Hx0 & _).
  destruct (coordinate_bounds top top height ch Hh0 Hch) as (Hy0 & _).
  cbv zeta in *.
  split; [reflexivity|]. split; [reflexivity|]. split; [reflexivity|].
  split; [reflexivity|]. split.
  { unfold canvasPoint. cbn [fst snd]. fold rect left top width height cw ch.
    by rewrite Hx0, Hy0. }
  split; [exact Hxin|]. split; [exact Hyin|]. split; [exact Hxedge|].
  exact Hyedge.
Qed.

Lemma paint_coordinates_scale_witness :
  EditorSession.getPaintCoordinates (Some sampleCanvas)
    (EditorSession.MouseEvent 500 275)
  = Some (canvasPoint sampleCanvas (500, 275)%Q) /\
  (0 <= EditorSession.px (canvasPoint sampleCanvas (500, 275)%Q)
     <= 1600 * (1 + roundingTolerance))%Q.
Proof.
  destruct (paint_coordinates_scale sampleCanvas 500 275)
    as (Hm & _ & _ & _ & _ & Hin & _);
    [discriminate|discriminate|discriminate|discriminate|].
  split; [exact Hm|]. apply Hin. split; discriminate.
Defined.

(** The right edge of an element 303 wide over a bitmap 1344 wide maps
    just past the bitmap. *)
Example right_edge_rounds_outside :
  let canvas :=
    {| EditorSession.canvas_width := 1344;
       EditorSession.canvas_height := 756;
       EditorSession.boundingRect :=
         {| EditorSession.rect_left := 100; EditorSession.rect_top := 0;
            EditorSession.rect_width := 303;
            EditorSession.rect_height := 170 |} |} in
  (1344 < EditorSession.px (canvasPoint canvas (403, 0)))%Q.
Proof. vm_compute. reflexivity. Qed.

(* ===================================================================== *)
(** ** The canvas and the effects                                         *)
(* ===================================================================== *)

Section CanvasEffects.

Import EditorSession.

(** A move of the pointer leaves the canvas and the save as they are. *)
Lemma pointer_move_leaves_canvas (toDataURL : string -> string)
    (s : ImageEditor.EditorState) (k : Z) :
  let s' :=
    ImageEditor.setPaint s (ImageEditor.isPainting s)
      (ImageEditor.paintHistory s) k (ImageEditor.isDrawing s) in
  canvasEffectDeps s' = canvasEffectDeps s /\
  ImageEditor.canvasMounted s' = ImageEditor.canvasMounted s /\
  ImageEditor.paintHistory s' = ImageEditor.paintHistory s /\
  ImageEditor.originalImage (ImageEditor.handleSavePaint toDataURL s').1
    = ImageEditor.originalImage (ImageEditor.handleSavePaint toDataURL s).1 /\
  (ImageEditor.handleSavePaint toDataURL s').2
    = (ImageEditor.handleSavePaint toDataURL s).2 /\
  ((ImageEditor.handleSavePaint toDataURL s).2 <> [] ->
   ImageEditor.handleSavePaint toDataURL s'
     = ImageEditor.handleSavePaint toDataURL s).
Proof.
  cbv zeta. split; [done|]. split; [done|]. split; [done|].
  unfold ImageEditor.handleSavePaint.
  change (ImageEditor.canvasMounted (ImageEditor.setPaint s _ _ k _))
    with (ImageEditor.canvasMounted s).
  change (ImageEditor.originalImage (ImageEditor.setPaint s _ _ k _))
    with (ImageEditor.originalImage s).
  destruct (ImageEditor.canvasMounted s); [|by repeat split].
  destruct (ImageEditor.originalImage s) as [img|]; [|by repeat split].
  destruct (ImageUtils.imageDataOfUrl (toDataURL (mimeType img)));
    by repeat split.
Qed.

(** Inside a paint session the auto-save writes the session in full, or
    reduced, or not at all. *)
Lemma autoSavePaint_painting (q : Quota) (ed : Editor) (ls : LocalStorage) :
  ImageEditor.isPainting (core ed) = true ->
  autoSavePaint q ed ls
  = if fitsPaint q (fullSession ed)
    then {| stateEntry := stateEntry ls;
            paintEntry := Stored (fullSession ed) |}
    else if fitsPaint q (minimalSession ed)
         then {| stateEntry := stateEntry ls;
                 paintEntry := Stored (minimalSession ed) |}
         else ls.
Proof.
  unfold autoSavePaint, fullSession, minimalSession. by intros ->.
Qed.

End CanvasEffects.

(** X23.  Undo and redo move the pointer of the history and nothing else:
    they change no dependency of the effect that draws on the canvas, so
    the canvas is not redrawn, and a save after them stores the same image
    and does the same as a save before them. *)
Theorem undo_redo_leave_canvas (toDataURL : string -> string)
    (s s' : ImageEditor.EditorState) :
  s' = ImageEditor.undoPaint s \/ s' = ImageEditor.redoPaint s ->
  EditorSession.canvasEffectDeps s' = EditorSession.canvasEffectDeps s /\
  ImageEditor.canvasMounted s' = ImageEditor.canvasMounted s /\
  ImageEditor.paintHistory s' = ImageEditor.paintHistory s /\
  ImageEditor.originalImage (ImageEditor.handleSavePaint toDataURL s').1
    = ImageEditor.originalImage (ImageEditor.handleSavePaint toDataURL s).1 /\
  (ImageEditor.handleSavePaint toDataURL s').2
    = (ImageEditor.handleSavePaint toDataURL s).2 /\
  ((ImageEditor.handleSavePaint toDataURL s).2 <> [] ->
   ImageEditor.handleSavePaint toDataURL s'
     = ImageEditor.handleSavePaint toDataURL s).
Proof.
  intros [-> | ->].
  - unfold ImageEditor.undoPaint.
    destruct (0 <? ImageEditor.historyStep s); [|done].
    apply pointer_move_leaves_canvas.
  - unfold ImageEditor.redoPaint.
    destruct (ImageEditor.historyStep s <? _); [|done].
    apply pointer_move_leaves_canvas.
Qed.

Lemma undo_redo_leave_canvas_witness :
  let s := EditorSession.core paintingEditor in
  ImageEditor.currentSnapshot (ImageEditor.undoPaint s)
    = Some "data:image/png;base64,QQ==" /\
  ImageEditor.handleSavePaint (fun _ => "data:image/png;base64,Qw==")
    (ImageEditor.undoPaint s)
  = ImageEditor.handleSavePaint (fun _ => "data:image/png;base64,Qw==") s.
Proof.
  intros s. split; [reflexivity|].
  destruct (undo_redo_leave_canvas (fun _ => "data:image/png;base64,Qw==")
              s (ImageEditor.undoPaint s) (or_introl eq_refl))
    as (_ & _ & _ & _ & _ & H).
  apply H. discriminate.
Defined.

(** X24.  A reload resumes a paint session on the snapshot it was saved
    on: when the storage takes the session, in full or reduced, the
    component mounts with the canvas shown, and the effect that draws on it
    loads the snapshot the pointer designated before the reload. *)
Theorem reload_resumes_on_snapshot (q : EditorSession.Quota)
    (ed : EditorSession.Editor) (ls : EditorSession.LocalStorage)
    (u : string) :
  ImageEditor.isPainting (EditorSession.core ed) = true ->
  ImageEditor.currentSnapshot (EditorSession.core ed) = Some u ->
  JsString.isEmpty u = false ->
  EditorSession.fitsPaint q (fullSession ed) = true \/
  EditorSession.fitsPaint q (minimalSession ed) = true ->
  exists ed0,
    EditorSession.initialEditor (EditorSession.autoSavePaint q ed ls)
      = Some ed0 /\
    ImageEditor.canvasMounted (EditorSession.core ed0) = true /\
    ImageEditor.currentSnapshot (EditorSession.core ed0) = Some u /\
    EditorSession.canvasEffect (EditorSession.core ed0) = Some u.
Proof.
  intros Hp Hu Hne Hfits.
  assert (Hshow : forall ed0,
            ImageEditor.isPainting (EditorSession.core ed0) = true ->
            ImageEditor.isCropping (EditorSession.core ed0) = false ->
            ImageEditor.currentSnapshot (EditorSession.core ed0) = Some u ->
            ImageEditor.canvasMounted (EditorSession.core ed0) = true /\
            ImageEditor.currentSnapshot (EditorSession.core ed0) = Some u /\
            EditorSession.canvasEffect (EditorSession.core ed0) = Some u).
  { intros ed0 Hp0 Hc0 Hu0.
    assert (Hlen : (0 <? length (ImageEditor.paintHistory
                                   (EditorSession.core ed0)))%nat = true).
    { unfold ImageEditor.currentSnapshot in Hu0.
      destruct (ImageEditor.historyStep _ <? 0); [done|].
      apply lookup_lt_Some in Hu0. apply Nat.ltb_lt. lia. }
    assert (Hm : ImageEditor.canvasMounted (EditorSession.core ed0) = true).
    { unfold ImageEditor.canvasMounted.
      by rewrite Hc0, Hp0, Hlen, orb_true_r. }
    split; [done|]. split; [done|].
    unfold EditorSession.canvasEffect.
    by rewrite Hp0, Hm, Hlen, orb_true_r, Hu0, Hne. }
  rewrite autoSavePaint_painting by done.
  destruct (EditorSession.fitsPaint q (fullSession ed)) eqn:Hfull.
  - unfold EditorSession.initialEditor.
    cbn [EditorSession.getSavedPaintSession EditorSession.getSaved
         EditorSession.paintEntry].
    unfold fullSession. cbn [EditorSession.saved_paintHistory].
    rewrite mapM_id_Some. cbn [mbind option_bind].
    eexists. split; [reflexivity|]. apply Hshow.
    + cbn. by rewrite Hp.
    + reflexivity.
    + unfold ImageEditor.currentSnapshot in *. cbn.
      by rewrite orNumber_zero.
  - destruct Hfits as [?|Hmin]; [done|]. rewrite Hmin.
    unfold EditorSession.initialEditor.
    cbn [EditorSession.getSavedPaintSession EditorSession.getSaved
         EditorSession.paintEntry].
    unfold minimalSession. cbn [EditorSession.saved_paintHistory].
    rewrite Hu. cbn [mapM mbind option_bind id fmap option_fmap option_map
                     mret option_ret].
    eexists. split; [reflexivity|]. apply Hshow.
    + cbn. by rewrite Hp.
    + reflexivity.
    + reflexivity.
Qed.

Lemma reload_resumes_on_snapshot_witness :
  exists ed0,
    EditorSession.initialEditor
      (EditorSession.autoSavePaint tightQuota paintingEditor emptyStorage)
    = Some ed0 /\
    EditorSession.canvasEffect (EditorSession.core ed0)
    = Some "data:image/png;base64,Qg==".
Proof.
  destruct (reload_resumes_on_snapshot tightQuota paintingEditor emptyStorage
              "data:image/png;base64,Qg==" eq_refl eq_refl eq_refl
              (or_intror eq_refl)) as (ed0 & H0 & _ & _ & He).
  exists ed0. by split.
Defined.

(** X25.  What the suggestions effect does when the component mounts.
    Without a stored base image it makes no upstream call and shows the
    five static suggestions, or none without an API key.  With a stored
    base image it makes one request for that image, whose operation runs at
    most once, and ends with at most three suggestions and the loading
    flag down.  In an editor that already shows suggestions for a base
    image, the effect does nothing. *)
Theorem mount_requests_suggestions
    (API_KEY : string) (JSON_parse : string -> option Json) {W : Type}
    (ai : list GeminiService.Part ->
          Async UpstreamEvent W GeminiService.GenerateContentResponse)
    (ls : EditorSession.LocalStorage) (ed0 : EditorSession.Editor) (w : W) :
  EditorSession.initialEditor ls = Some ed0 ->
  let r := EditorSession.suggestionsEffect API_KEY JSON_parse ai ed0 w in
  EditorSession.core r.1.1 = EditorSession.core ed0 /\
  (ImageEditor.originalImage (EditorSession.core ed0) = None ->
   r.1.2 = w /\
   r.2 = [EditorSession.SuggestionRequest None []] /\
   EditorSession.suggestions r.1.1
     = if JsString.isEmpty API_KEY then []
       else GeminiService.staticSuggestions) /\
  (forall img,
     ImageEditor.originalImage (EditorSession.core ed0) = Some img ->
     oneSuggestionRequest img r.2 /\
     (length (EditorSession.suggestions r.1.1) <= 3)%nat /\
     EditorSession.loadingSuggestions r.1.1 = false) /\
  (forall (ed : EditorSession.Editor) img,
     ImageEditor.originalImage (EditorSession.core ed) = Some img ->
     EditorSession.suggestions ed <> [] ->
     EditorSession.suggestionsEffect API_KEY JSON_parse ai ed w = (ed, w, [])).
Proof.
  intros Hmount. cbv zeta.
  assert (Hnone : EditorSession.suggestions ed0 = []).
  { unfold EditorSession.initialEditor in Hmount.
    destruct (mapM id _); [|done]. cbn in Hmount. by injection Hmount as <-. }
  unfold EditorSession.suggestionsEffect.
  split; [|split; [|split]].
  - destruct (ImageEditor.originalImage (EditorSession.core ed0)) as [img|].
    + rewrite Hnone. cbn [length Nat.eqb].
      destruct (requestSuggestions_settles API_KEY JSON_parse ai img [] ed0 w)
        as (l & w' & evs & Hreq & _). by rewrite Hreq.
    + unfold GeminiService.generateEditSuggestions.
      by destruct (JsString.isEmpty API_KEY).
  - intros ->. unfold GeminiService.generateEditSuggestions.
    by destruct (JsString.isEmpty API_KEY).
  - intros img ->. rewrite Hnone. cbn [length Nat.eqb].
    destruct (requestSuggestions_settles API_KEY JSON_parse ai img [] ed0 w)
      as (l & w' & evs & Hreq & Hlen & Hone). by rewrite Hreq.
  - intros ed img -> Hs.
    destruct (EditorSession.suggestions ed); [done|]. reflexivity.
Qed.

Lemma mount_requests_suggestions_witness :
  exists ed0,
    EditorSession.initialEditor emptyStorage = Some ed0 /\
    EditorSession.suggestions
      (EditorSession.suggestionsEffect "key" sampleJsonParse sampleTextClient
         ed0 tt).1.1
    = GeminiService.staticSuggestions.
Proof.
  eexists. split; [reflexivity|].
  destruct (mount_requests_suggestions "key" sampleJsonParse sampleTextClient
              emptyStorage _ tt eq_refl) as (_ & H & _).
  destruct (H eq_refl) as (_ & _ & Hs). exact Hs.
Defined.

(* ===================================================================== *)
(** ** The history invariant across the component                         *)
(* ===================================================================== *)

Section InvariantMore.

Import EditorSession.

(** Under the invariant a history with entries has a current snapshot. *)
Lemma currentSnapshot_invariant (c : ImageEditor.EditorState) :
  historyInvariant c -> ImageEditor.paintHistory c <> [] ->
  exists u, ImageEditor.currentSnapshot c = Some u.
Proof.
  intros Hinv Hne. specialize (Hinv Hne).
  unfold ImageEditor.currentSnapshot.
  destruct (Z.ltb_spec (ImageEditor.historyStep c) 0); [lia|].
  apply lookup_lt_is_Some. lia.
Qed.

Lemma sameHistory_invariant (c c' : ImageEditor.EditorState) :
  sameHistory c c' -> historyInvariant c -> historyInvariant c'.
Proof. unfold sameHistory, historyInvariant. by intros [-> ->]. Qed.

End InvariantMore.

(** X26.  The invariant of the history survives a reload.  When a paint
    session whose history has entries and satisfies the invariant is
    stored, in full or reduced, the component mounts in a state that
    satisfies the invariant, and so does every state reached from it by
    the operations on the history. *)
Theorem reload_keeps_history_invariant (q : EditorSession.Quota)
    (ed : EditorSession.Editor) (ls : EditorSession.LocalStorage) :
  ImageEditor.isPainting (EditorSession.core ed) = true ->
  ImageEditor.paintHistory (EditorSession.core ed) <> [] ->
  historyInvariant (EditorSession.core ed) ->
  EditorSession.fitsPaint q (fullSession ed) = true \/
  EditorSession.fitsPaint q (minimalSession ed) = true ->
  exists ed0,
    EditorSession.initialEditor (EditorSession.autoSavePaint q ed ls)
      = Some ed0 /\
    ImageEditor.paintHistory (EditorSession.core ed0) <> [] /\
    historyInvariant (EditorSession.core ed0) /\
    (forall s, reachableFrom (EditorSession.core ed0) s -> historyInvariant s).
Proof.
  intros Hp Hne Hinv Hfits.
  destruct (currentSnapshot_invariant _ Hinv Hne) as [u Hu].
  assert (Hgoal : exists ed0,
    EditorSession.initialEditor (EditorSession.autoSavePaint q ed ls)
      = Some ed0 /\
    ImageEditor.paintHistory (EditorSession.core ed0) <> [] /\
    historyInvariant (EditorSession.core ed0)).
  { rewrite autoSavePaint_painting by done.
    destruct (EditorSession.fitsPaint q (fullSession ed)) eqn:Hfull.
    - unfold EditorSession.initialEditor.
      cbn [EditorSession.getSavedPaintSession EditorSession.getSaved
           EditorSession.paintEntry].
      unfold fullSession. cbn [EditorSession.saved_paintHistory].
      rewrite mapM_id_Some. cbn [mbind option_bind].
      eexists. split; [reflexivity|].
      cbn [EditorSession.core ImageEditor.paintHistory].
      split; [done|]. unfold historyInvariant.
      cbn [EditorSession.core ImageEditor.paintHistory
           ImageEditor.historyStep EditorSession.saved_historyStep].
      rewrite orNumber_zero. exact Hinv.
    - destruct Hfits as [?|Hmin]; [done|]. rewrite Hmin.
      unfold EditorSession.initialEditor.
      cbn [EditorSession.getSavedPaintSession EditorSession.getSaved
           EditorSession.paintEntry].
      unfold minimalSession. cbn [EditorSession.saved_paintHistory].
      rewrite Hu. cbn [mapM mbind option_bind id fmap option_fmap option_map
                       mret option_ret].
      eexists. split; [reflexivity|].
      cbn [EditorSession.core ImageEditor.paintHistory].
      split; [done|]. unfold historyInvariant. cbn. lia. }
  destruct Hgoal as (ed0 & H0 & Hne0 & Hinv0).
  exists ed0. split; [done|]. split; [done|]. split; [done|].
  intros s Hs. by eapply historyInvariant_reachable.
Qed.

Lemma reload_keeps_history_invariant_witness :
  exists ed0,
    EditorSession.initialEditor
      (EditorSession.autoSavePaint tightQuota paintingEditor emptyStorage)
    = Some ed0 /\
    historyInvariant (ImageEditor.undoPaint (EditorSession.core ed0)).
Proof.
  destruct (reload_keeps_history_invariant tightQuota paintingEditor
              emptyStorage eq_refl) as (ed0 & H0 & _ & _ & Hreach).
  - discriminate.
  - intros _. cbn. lia.
  - right. reflexivity.
  - exists ed0. split; [exact H0|].
    apply Hreach. eapply ReachStep; [apply ReachInit|apply StepUndo].
Defined.

(** X27.  No other handler touches the paint history: loading a file,
    applying the crop frame, the suggestions effect, a generation, an
    export, and a mouse-down or a mouse move on the canvas all leave the
    history and its pointer as they are, and with them the invariant. *)
Theorem history_untouched_elsewhere
    (API_KEY : string) (JSON_parse : string -> option Json) {W : Type}
    (ai : list GeminiService.Part ->
          Async UpstreamEvent W GeminiService.GenerateContentResponse)
    (upstream : nat -> nat -> list GeminiService.Part ->
                Settled GeminiService.GenerateContentResponse * Z)
    (ed : EditorSession.Editor) (world : W) :
  let c := EditorSession.core ed in
  (forall read,
     sameHistory c
       (EditorSession.core
          (EditorSession.loadFile API_KEY JSON_parse ai read ed world).1.1)) /\
  (forall image hasContext toDataURL,
     sameHistory c
       (EditorSession.core
          (EditorSession.handleCropSave API_KEY JSON_parse ai image
             hasContext toDataURL ed world).1.1)) /\
  sameHistory c
    (EditorSession.core
       (EditorSession.suggestionsEffect API_KEY JSON_parse ai ed world).1.1) /\
  sameHistory c (ImageEditor.handleGenerate API_KEY upstream c).1 /\
  (forall b now w h label imgOverride,
     sameHistory c
       (EditorSession.core
          (EditorSession.handleExport b now w h label imgOverride ed).1)) /\
  (forall canvas hasContext e sf,
     sameHistory c
       (EditorSession.core
          (EditorSession.onPaintStartAt canvas e (ed, sf)).1) /\
     sameHistory c
       (EditorSession.core
          (EditorSession.onPaintDraw canvas hasContext e (ed, sf)).1)) /\
  (forall c', sameHistory c c' -> historyInvariant c -> historyInvariant c').
Proof.
  cbv zeta. unfold sameHistory.
  split; [|split; [|split; [|split; [|split; [|split]]]]].
  - intros read. unfold EditorSession.loadFile.
    destruct (ImageUtils.fileToImageData read) as [img|e]; [|done].
    match goal with
    | |- context [EditorSession.requestSuggestions _ _ _ img ?k ?e world] =>
        destruct (requestSuggestions_settles API_KEY JSON_parse ai img k e
                    world) as (l & w' & evs & Hreq & _); rewrite Hreq
    end.
    done.
  - intros image hasContext toDataURL. unfold EditorSession.handleCropSave.
    destruct (ImageEditor.originalImage (EditorSession.core ed))
      as [original|]; [|done].
    destruct (match EditorSession.croppedAreaPixels ed with
              | Some pixels => _
              | None => _
              end) as [img|e]; [|done].
    match goal with
    | |- context [EditorSession.requestSuggestions _ _ _ img ?k ?e world] =>
        destruct (requestSuggestions_settles API_KEY JSON_parse ai img k e
                    world) as (l & w' & evs & Hreq & _); rewrite Hreq
    end.
    done.
  - unfold EditorSession.suggestionsEffect.
    destruct (ImageEditor.originalImage (EditorSession.core ed)) as [img|].
    + destruct (length (EditorSession.suggestions ed) =? 0)%nat; [|done].
      destruct (requestSuggestions_settles API_KEY JSON_parse ai img
                  (EditorSession.suggestions ed) ed world)
        as (l & w' & evs & Hreq & _).
      by rewrite Hreq.
    + destruct (GeminiService.generateEditSuggestions _ _ _ _ _)
        as [[[l|e] w'] tr]; done.
  - unfold ImageEditor.handleGenerate.
    destruct (JsString.isEmpty _); [done|].
    destruct (GeminiService.generateOrEditImage _ _ _ _) as [run|]; [|done].
    by destruct (GeminiService.outcome run).
  - intros b now w h label imgOverride. unfold EditorSession.handleExport.
    destruct (match imgOverride with Some _ => _ | None => _ end)
      as [img|]; [|done].
    destruct (_ && _); [|done].
    by destruct (EditorSession.resizeImageUrl _ _ _ _ _).
  - intros canvas hasContext e sf. split.
    + unfold EditorSession.onPaintStartAt, ImageEditor.onPaintStart.
      destruct (negb _); [done|].
      by destruct (EditorSession.getPaintCoordinates _ _).
    + unfold EditorSession.onPaintDraw.
      destruct (_ || _); [done|]. destruct (negb hasContext); [done|].
      by destruct (EditorSession.getPaintCoordinates _ _).
  - apply sameHistory_invariant.
Qed.

Lemma history_untouched_elsewhere_witness :
  historyInvariant
    (EditorSession.core
       (EditorSession.loadFile "key" sampleJsonParse sampleTextClient
          (Fulfilled "data:image/jpeg;base64,TkVX") paintingEditor tt).1.1).
Proof.
  destruct (history_untouched_elsewhere "key" sampleJsonParse sampleTextClient
              sampleUpstream paintingEditor tt)
    as (Hload & _ & _ & _ & _ & _ & Hinv).
  apply (Hinv _ (Hload (Fulfilled "data:image/jpeg;base64,TkVX"))).
  intros _. cbn. lia.
Defined.
